(** * files_organizor: the organizer and its single-slot undo log

    A shallow embedding of [organizor.py] (class [FileOrganizer]) and the
    properties of its organize / undo core.

    Modelling conventions.
    - A path is the list of its components below the filesystem root;
      [os.path.join d f] is [d ++ [f]] and [os.path.dirname] drops the last
      component.  File names are ASCII strings.
    - The filesystem is a tree of files and directories.  A directory keeps
      its entries as an association list: the order of the list is the order
      in which [os.listdir] reports them.  There are no symbolic links, no
      permissions and a single device, so [os.rename] never fails for a
      reason other than the shape of the tree.
    - [organization_history.json] and [timeline.txt] live next to the script
      ([script_dir]), which is taken to lie outside the directories being
      organized; their contents are separate fields of the program state.
    - [datetime.now().isoformat()] is an input ([now]).
    - The characters of [timeline.txt] are modelled apart ([Text]), as
      Unicode code points, with the newline handling of a POSIX system.
    - Exceptions leave the state as it is at the point where they are
      raised: a computation is a function from states to a state and either
      a value or an exception. *)

From Stdlib Require Import Ascii.
From stdpp Require Import base tactics option list strings pretty.

(** ** Strings: [str.lower] and [os.path.splitext] *)

Module Str.

Definition is_upper (c : ascii) : bool :=
  let n := nat_of_ascii c in (65 <=? n)%nat && (n <=? 90)%nat.

Definition lower_char (c : ascii) : ascii :=
  if is_upper c then ascii_of_nat (nat_of_ascii c + 32) else c.

(** [s.lower()] on ASCII strings. *)
Fixpoint lower (s : string) : string :=
  match s with
  | EmptyString => EmptyString
  | String c s' => String (lower_char c) (lower s')
  end.

Definition is_dot (c : ascii) : bool := bool_decide (c = "."%char).

Fixpoint all_dots (s : string) : bool :=
  match s with
  | EmptyString => true
  | String c s' => is_dot c && all_dots s'
  end.

(** Split at the last ["."]: the text before it, and the text from it on. *)
Fixpoint split_last_dot (s : string) : option (string * string) :=
  match s with
  | EmptyString => None
  | String c s' =>
      match split_last_dot s' with
      | Some (b, e) => Some (String c b, e)
      | None => if is_dot c then Some (EmptyString, s) else None
      end
  end.

(** [os.path.splitext] on a single path component: the extension starts at
    the last dot, unless only dots precede it. *)
Definition splitext (p : string) : string * string :=
  match split_last_dot p with
  | Some (b, e) => if all_dots b then (p, "") else (b, e)
  | None => (p, "")
  end.

End Str.

(** ** The category table ([FileOrganizer.__init__]) *)

Definition file_types : list (string * list string) :=
  [ ("images", [".jpg"; ".jpeg"; ".png"; ".gif"; ".bmp"; ".tiff"; ".heic"; ".raw"]);
    ("documents", [".pdf"; ".doc"; ".docx"; ".txt"; ".rtf"; ".odt"; ".pages"]);
    ("spreadsheets", [".xls"; ".xlsx"; ".numbers"; ".csv"]);
    ("presentations", [".ppt"; ".pptx"; ".key"]);
    ("videos", [".mp4"; ".mov"; ".avi"; ".wmv"; ".flv"; ".mkv"]);
    ("audio", [".mp3"; ".wav"; ".aac"; ".m4a"; ".flac"]);
    ("archives", [".zip"; ".rar"; ".7z"; ".tar"; ".gz"]);
    ("code", [".py"; ".java"; ".cpp"; ".js"; ".html"; ".css"; ".php"; ".c"; ".ts"]);
    ("others", []) ].

(** The inner [for file_type, extensions in self.file_types.items()] loop of
    [organize_by_type], with its [break]: [None] when the loop runs to its
    end without a match. *)
Fixpoint category_loop (ext : string) (table : list (string * list string))
  : option string :=
  match table with
  | [] => None
  | (file_type, extensions) :: rest =>
      if bool_decide (Str.lower ext ∈ extensions) then Some file_type
      else category_loop ext rest
  end.

(** Lines 78-83 of [organize_by_type]. *)
Definition category_of (file : string) : string :=
  let '(_, ext) := Str.splitext file in
  default "others" (category_loop ext file_types).


(** ** The filesystem *)

Definition path := list string.

#[warnings="-register-all"]
Inductive node :=
  | File (content : string)
  | Dir (entries : list (string * node)).

(** The exceptions the modelled calls can raise.  All but [IndexError] are
    [OSError] or subclasses of it in Python ([ShutilError] is
    [shutil.Error]). *)
Inductive exn :=
  | FileNotFoundError
  | FileExistsError
  | NotADirectoryError
  | IsADirectoryError
  | OSError
  | ShutilError
  | IndexError.

Definition is_OSError (e : exn) : bool :=
  match e with IndexError => false | _ => true end.

Inductive result (A : Type) :=
  | Ok (a : A)
  | Raise (e : exn).
Arguments Ok {A} a.
Arguments Raise {A} e.

Global Instance exn_eq_dec : EqDecision exn.
Proof. solve_decision. Defined.

Module Fs.

Fixpoint child (x : string) (es : list (string * node)) : option node :=
  match es with
  | [] => None
  | (y, c) :: rest => if decide (x = y) then Some c else child x rest
  end.

(** The node a path leads to, from the root [n]. *)
Fixpoint node_at (p : path) (n : node) : option node :=
  match p with
  | [] => Some n
  | x :: p' =>
      match n with
      | File _ => None
      | Dir es =>
          match child x es with
          | Some c => node_at p' c
          | None => None
          end
      end
  end.

(** [os.path.exists], [os.path.isfile], [os.path.isdir]. *)
Definition path_exists (p : path) (fs : node) : bool :=
  match node_at p fs with Some _ => true | None => false end.

Definition isfile (p : path) (fs : node) : bool :=
  match node_at p fs with Some (File _) => true | _ => false end.

Definition isdir (p : path) (fs : node) : bool :=
  match node_at p fs with Some (Dir _) => true | _ => false end.

(** The content of the regular file at [p], if there is one. *)
Definition file_at (p : path) (fs : node) : option string :=
  match node_at p fs with Some (File c) => Some c | _ => None end.

(** [os.listdir]. *)
Definition listdir (p : path) (fs : node) : result (list string) :=
  match node_at p fs with
  | Some (Dir es) => Ok (es.*1)
  | Some (File _) => Raise NotADirectoryError
  | None => Raise FileNotFoundError
  end.

Definition entries_remove (x : string) (es : list (string * node))
  : list (string * node) :=
  filter (λ e, e.1 ≠ x) es.

(** Rewrite the entry named [x]: [g] receives the node bound to [x], if any,
    and answers with the node to bind ([None]: no entry).  A changed entry
    keeps its place, a new one goes to the end. *)
Fixpoint entries_update (x : string) (g : option node → option node)
    (es : list (string * node)) : list (string * node) :=
  match es with
  | [] => match g None with Some c => [(x, c)] | None => [] end
  | (y, c) :: rest =>
      if decide (x = y) then
        match g (Some c) with
        | Some c' => (y, c') :: rest
        | None => entries_remove x rest
        end
      else (y, c) :: entries_update x g rest
  end.

(** Rewrite what is bound at path [p]; nothing happens when the parent of
    [p] is not a directory, or for the root itself. *)
Fixpoint update (g : option node → option node) (p : path) (n : node) : node :=
  match p with
  | [] => n
  | x :: p' =>
      match n with
      | File _ => n
      | Dir es =>
          Dir (entries_update x
                 (match p' with
                  | [] => g
                  | _ :: _ => λ o, match o with
                                   | Some c => Some (update g p' c)
                                   | None => None
                                   end
                  end) es)
      end
  end.

Definition put (p : path) (c : node) : node → node := update (λ _, Some c) p.
Definition remove (p : path) : node → node := update (λ _, None) p.

Definition dirname (p : path) : path := removelast p.
Definition basename (p : path) : option string := last p.

(** [os.mkdir]. *)
Definition mkdir (p : path) (fs : node) : result node :=
  if path_exists p fs then Raise FileExistsError
  else match node_at (dirname p) fs with
       | Some (Dir _) => Ok (put p (Dir []) fs)
       | Some (File _) => Raise NotADirectoryError
       | None => Raise FileNotFoundError
       end.

(** The last step of [os.makedirs]: [mkdir], whose error is swallowed when
    [exist_ok] holds and the name is a directory. *)
Definition mkdir_exist_ok (exist_ok : bool) (name : path) (fs : node)
  : result node :=
  match mkdir name fs with
  | Ok fs1 => Ok fs1
  | Raise e => if negb exist_ok || negb (isdir name fs) then Raise e else Ok fs
  end.

(** [os.makedirs name exist_ok], by recursion on the reversed path as the
    library recurses on [os.path.split]: create the parent first when it is
    missing (a [FileExistsError] from that call is passed over), then
    [mkdir]. *)
Fixpoint makedirs_rev (exist_ok : bool) (rp : list string) (fs : node)
  : result node :=
  match rp with
  | [] => mkdir_exist_ok exist_ok [] fs
  | _ :: rhead =>
      if negb (path_exists (rev rhead) fs) then
        match makedirs_rev exist_ok rhead fs with
        | Ok fs1 => mkdir_exist_ok exist_ok (rev rp) fs1
        | Raise FileExistsError => mkdir_exist_ok exist_ok (rev rp) fs
        | Raise e => Raise e
        end
      else mkdir_exist_ok exist_ok (rev rp) fs
  end.

Definition makedirs (exist_ok : bool) (p : path) (fs : node) : result node :=
  makedirs_rev exist_ok (rev p) fs.

(** [os.rename] (POSIX). *)
Definition rename (src dst : path) (fs : node) : result node :=
  match node_at src fs with
  | None => Raise FileNotFoundError
  | Some n =>
      if decide (src = dst) then Ok fs
      else if decide (src = []) then Raise OSError
      else if bool_decide (src `prefix_of` dst) then
        match n with File _ => Raise NotADirectoryError | Dir _ => Raise OSError end
      else
        match node_at (dirname dst) fs with
        | None => Raise FileNotFoundError
        | Some (File _) => Raise NotADirectoryError
        | Some (Dir _) =>
            match node_at dst fs, n with
            | None, _ => Ok (put dst n (remove src fs))
            | Some (File _), File _ => Ok (put dst n (remove src fs))
            | Some (File _), Dir _ => Raise NotADirectoryError
            | Some (Dir _), File _ => Raise IsADirectoryError
            | Some (Dir []), Dir _ => Ok (put dst n (remove src fs))
            | Some (Dir (_ :: _)), Dir _ => Raise OSError
            end
        end
  end.

(** [shutil.move].  A destination that is a directory receives the source
    inside it.  When [os.rename] fails, the library falls back on copying:
    for a directory, [copytree] (which starts with [os.makedirs] of the
    destination) and then [rmtree] of the source; for anything else
    [copy2], which fails as [os.rename] did. *)
Definition move (src dst : path) (fs : node) : result node :=
  let go (real_dst : path) :=
    match rename src real_dst fs with
    | Ok fs1 => Ok fs1
    | Raise e =>
        match node_at src fs with
        | Some (Dir es) =>
            if bool_decide (src `prefix_of` real_dst) then Raise ShutilError
            else match makedirs false real_dst fs with
                 | Ok fs1 => Ok (remove src (put real_dst (Dir es) fs1))
                 | Raise e' => Raise e'
                 end
        | _ => Raise e
        end
    end in
  if isdir dst fs then
    if decide (src = dst) then rename src dst fs
    else match basename src with
         | None => Raise ShutilError
         | Some b =>
             let real_dst := dst ++ [b] in
             if path_exists real_dst fs then Raise ShutilError else go real_dst
         end
  else go dst.

(** [os.rmdir]. *)
Definition rmdir (p : path) (fs : node) : result node :=
  match node_at p fs with
  | None => Raise FileNotFoundError
  | Some (File _) => Raise NotADirectoryError
  | Some (Dir (_ :: _)) => Raise OSError
  | Some (Dir []) => if decide (p = []) then Raise OSError else Ok (remove p fs)
  end.

End Fs.

(** ** The operation log and the program state *)

(** One entry of an operation's ['operations'] list. *)
Record move_record := MoveRecord {
  operation : string;
  source : path;
  destination : path
}.

(** The dictionary built by [_record_operation]. *)
Record batch := Batch {
  timestamp : string;
  type : string;
  source_dir : path;
  target_dir : path;
  operations : list move_record
}.

Global Instance move_record_eq_dec : EqDecision move_record.
Proof. solve_decision. Defined.
Global Instance batch_eq_dec : EqDecision batch.
Proof. solve_decision. Defined.

(** What [organization_history.json] holds: no file, something that
    [json.load] rejects, or a list of batches (what the program itself
    writes is such a list, with at most one element). *)
Inductive stored :=
  | NoFile
  | Corrupt
  | Json (h : list batch).

(** The attributes of the [FileOrganizer] object ([history],
    [last_operation]) together with the files it works on: the directory
    tree, the history file and the entries appended to the timeline. *)
Record organizer := Organizer {
  fs : node;
  history_file : stored;
  timeline_file : list batch;
  history : list batch;
  last_operation : option batch
}.

Definition set_fs (v : node) (st : organizer) : organizer :=
  Organizer v (history_file st) (timeline_file st) (history st) (last_operation st).
Definition set_history_file (v : stored) (st : organizer) : organizer :=
  Organizer (fs st) v (timeline_file st) (history st) (last_operation st).
Definition set_timeline_file (v : list batch) (st : organizer) : organizer :=
  Organizer (fs st) (history_file st) v (history st) (last_operation st).
Definition set_history (v : list batch) (st : organizer) : organizer :=
  Organizer (fs st) (history_file st) (timeline_file st) v (last_operation st).
Definition set_last_operation (v : option batch) (st : organizer) : organizer :=
  Organizer (fs st) (history_file st) (timeline_file st) (history st) v.

(** ** Computations: state and exceptions *)

Definition M (A : Type) : Type := organizer → organizer * result A.

Global Instance M_ret : MRet M := λ A a st, (st, Ok a).
Global Instance M_bind : MBind M := λ A B k m st,
  match m st with
  | (st1, Ok a) => k a st1
  | (st1, Raise e) => (st1, Raise e)
  end.

Definition ret {A} (a : A) : M A := mret a.
Definition raise {A} (e : exn) : M A := λ st, (st, Raise e).
Definition get : M organizer := λ st, (st, Ok st).
Definition modify (f : organizer → organizer) : M unit := λ st, (f st, Ok tt).

(** A filesystem call: the tree changes only when the call succeeds. *)
Definition fs_call (f : node → result node) : M unit :=
  λ st, match f (fs st) with
        | Ok fs1 => (set_fs fs1 st, Ok tt)
        | Raise e => (st, Raise e)
        end.

(** [try: m  except Exception: h]. *)
Definition try_except {A} (m : M A) (h : exn → M A) : M A :=
  λ st, match m st with
        | (st1, Ok a) => (st1, Ok a)
        | (st1, Raise e) => h e st1
        end.

(** [for x in l: body x]. *)
Fixpoint for_each {A} (l : list A) (body : A → M unit) : M unit :=
  match l with
  | [] => ret tt
  | x :: rest => body x;; for_each rest body
  end.

(** ** [FileOrganizer] *)

Definition _load_history : M unit :=
  st ← get;
  match history_file st with
  | NoFile => ret tt
  | Corrupt => modify (set_history []);; modify (set_last_operation None)
  | Json h =>
      modify (set_history h);;
      match last h with
      | Some op => modify (set_last_operation (Some op))
      | None => ret tt
      end
  end.

Definition _save_history : M unit :=
  st ← get;
  match last_operation st with
  | Some op => modify (set_history_file (Json [op]))
  | None => modify (set_history_file (Json []))
  end.

(** The timeline is append-only; the text written for an entry is a
    rendering of the batch, which is what the model keeps. *)
Definition _update_timeline (op : batch) : M unit :=
  modify (λ st, set_timeline_file (timeline_file st ++ [op]) st).

Definition _record_operation (now : string) (op_type : string)
    (source_dir target_dir : path) (operations : list move_record) : M unit :=
  let op := Batch now op_type source_dir target_dir operations in
  (if bool_decide (op_type ≠ "undo") then
     modify (set_history [op]);;
     modify (set_last_operation (Some op));;
     _save_history
   else ret tt);;
  _update_timeline op.

(** [os.path.splitext] on a path: only the last component is split. *)
Definition splitext (p : path) : path * string :=
  match last p with
  | Some f => let '(b, e) := Str.splitext f in (Fs.dirname p ++ [b], e)
  | None => (p, "")
  end.

(** The f-string [f"{base}_{counter}{ext}"]: the suffix goes to the last
    component (for the root, it makes a component of its own). *)
Definition candidate (base : path) (counter : nat) (ext : string) : path :=
  Fs.dirname base ++ [default "" (last base) +:+ "_" +:+ pretty counter +:+ ext].

(** The [while os.path.exists(...)] loop of [_get_unique_path], run for at
    most [fuel] tests. *)
Fixpoint unique_loop (fuel : nat) (fs : node) (base : path) (ext : string)
    (counter : nat) : option path :=
  match fuel with
  | 0 => None
  | S fuel' =>
      if Fs.path_exists (candidate base counter ext) fs
      then unique_loop fuel' fs base ext (counter + 1)
      else Some (candidate base counter ext)
  end.

(** The candidates are distinct siblings of [file_path], so one more test
    than its directory has entries is enough ([unique_loop_total]). *)
Definition unique_fuel (fs : node) (file_path : path) : nat :=
  match Fs.node_at (Fs.dirname file_path) fs with
  | Some (Dir es) => S (length es)
  | _ => 1
  end.

Definition _get_unique_path (fs : node) (file_path : path) : path :=
  if negb (Fs.path_exists file_path fs) then file_path
  else
    let '(base, ext) := splitext file_path in
    default file_path (unique_loop (unique_fuel fs file_path) fs base ext 1).

(** The value of a filesystem query that can raise. *)
Definition fs_query {A} (r : result A) : M A :=
  match r with Ok a => ret a | Raise e => raise e end.

(** The body of the [for file in files] loop of [organize_by_type]; its
    value is the record appended to [operations]. *)
Definition organize_file (source_dir target_dir : path) (file : string)
  : M move_record :=
  let file_path := source_dir ++ [file] in
  let category := category_of file in
  let category_dir := target_dir ++ [category] in
  fs_call (Fs.makedirs true category_dir);;
  st ← get;
  let new_path := _get_unique_path (fs st) (category_dir ++ [file]) in
  fs_call (Fs.move file_path new_path);;
  ret (MoveRecord "move" file_path new_path).

Fixpoint organize_loop (source_dir target_dir : path) (files : list string)
    (operations : list move_record) : M (list move_record) :=
  match files with
  | [] => ret operations
  | file :: rest =>
      r ← organize_file source_dir target_dir file;
      organize_loop source_dir target_dir rest (operations ++ [r])
  end.

(** [organize_by_type].  [dest_dir] is [None] for a missing or empty
    argument.  The function has no [return] statement, so its value is
    Python's [None]; it is typed [option batch] so that it can be compared
    with the batch the call records. *)
Definition organize_by_type (now : string) (source_dir : path)
    (dest_dir : option path) : M (option batch) :=
  st ← get;
  if negb (Fs.path_exists source_dir (fs st)) then raise FileNotFoundError
  else
    let target_dir := default source_dir dest_dir in
    (if negb (Fs.path_exists target_dir (fs st))
     then fs_call (Fs.makedirs false target_dir) else ret tt);;
    st ← get;
    names ← fs_query (Fs.listdir source_dir (fs st));
    let files := filter (λ f, Fs.isfile (source_dir ++ [f]) (fs st)) names in
    operations ← organize_loop source_dir target_dir files [];
    _record_operation now "organize_by_type" source_dir target_dir operations;;
    ret None.

(** The body of the [for op in reversed(operations)] loop of
    [undo_last_operation]. *)
Definition restore_file (op : move_record) : M unit :=
  st ← get;
  if Fs.path_exists (destination op) (fs st) then
    fs_call (Fs.makedirs true (Fs.dirname (source op)));;
    fs_call (Fs.move (destination op) (source op))
  else ret tt.

Definition is_Dir (n : node) : bool :=
  match n with Dir _ => true | File _ => false end.

Definition subdirs (es : list (string * node)) : list string :=
  (filter (λ e, is_Dir e.2) es).*1.
Definition subfiles (es : list (string * node)) : list string :=
  (filter (λ e, negb (is_Dir e.2)) es).*1.

(** [os.walk(top, topdown=False)] on the tree [n] found at [top]: the
    triples [(root, dirs, files)], children before parents.  The walk is a
    generator, but what the cleanup loop removes while it runs lies below
    directories that have already been listed, so the triples are those of
    the tree as it is when the walk starts.  Nothing is produced for a
    [top] that is not a directory. *)
Fixpoint walk (top : path) (n : node) : list (path * list string * list string) :=
  match n with
  | File _ => []
  | Dir es =>
      (fix below (l : list (string * node)) :=
         match l with
         | [] => []
         | (x, c) :: rest => walk (top ++ [x]) c ++ below rest
         end) es
      ++ [(top, subdirs es, subfiles es)]
  end.

Definition os_walk (top : path) (fs : node) : list (path * list string * list string) :=
  match Fs.node_at top fs with
  | Some n => walk top n
  | None => []
  end.

(** The body of [for dir_name in dirs]: [try: if not os.listdir(dir_path):
    os.rmdir(dir_path)  except OSError: continue]. *)
Definition cleanup_dir (root : path) (dir_name : string) : M unit :=
  let dir_path := root ++ [dir_name] in
  try_except
    (st ← get;
     names ← fs_query (Fs.listdir dir_path (fs st));
     if bool_decide (names = []) then fs_call (Fs.rmdir dir_path) else ret tt)
    (λ e, if is_OSError e then ret tt else raise e).

(** The body of [for root, dirs, files in os.walk(...)]. *)
Definition cleanup_body : path * list string * list string → M unit :=
  λ '(root, dirs, _), for_each dirs (cleanup_dir root).

Definition cleanup (target_dir : path) : M unit :=
  st ← get;
  for_each (os_walk target_dir (fs st)) cleanup_body.

(** The [try] block of [undo_last_operation]. *)
Definition undo_body (now : string) : M bool :=
  st ← get;
  match history st with
  | [] => raise IndexError
  | last_op :: _ =>
      for_each (rev (operations last_op)) restore_file;;
      cleanup (target_dir last_op);;
      let undo_op := Batch now "undo" (source_dir last_op) (target_dir last_op) [] in
      modify (set_history []);;
      modify (set_last_operation None);;
      _save_history;;
      _update_timeline undo_op;;
      ret true
  end.

Definition undo_last_operation (now : string) : M bool :=
  _load_history;;
  st ← get;
  if bool_decide (history st = []) then ret false
  else try_except (undo_body now) (λ _, ret false).

(** [FileOrganizer.__init__]: the attributes start empty and the history is
    loaded.  The arguments are the files the new object finds: the
    directory tree, [organization_history.json] and [timeline.txt]. *)
Definition __init__ (tree : node) (history_file : stored)
    (timeline_file : list batch) : organizer :=
  (_load_history (Organizer tree history_file timeline_file [] None)).1.

(** ** The text of [timeline.txt] *)

(** [_update_timeline] above keeps the entries; here is what it does to the
    characters of the file. *)
Module Text.

(** A text is the list of its characters, as Unicode code points. *)
Definition text := list N.

Definition of_string (s : string) : text :=
  N_of_ascii <$> String.list_ascii_of_string s.

Definition nl : text := [10%N].

(** [str.isspace] on one character. *)
Definition is_space (c : N) : bool :=
  ((9 <=? c) && (c <=? 13) || (28 <=? c) && (c <=? 32)
   || (c =? 133) || (c =? 160) || (c =? 5760)
   || (8192 <=? c) && (c <=? 8202)
   || (c =? 8232) || (c =? 8233) || (c =? 8239) || (c =? 8287) || (c =? 12288))%N.

(** [not s.strip()]: nothing is left of [s] once the white space at its ends
    is taken away. *)
Definition strip_is_empty (s : text) : bool := forallb is_space s.

(** What reading in text mode makes of the characters of a file: a carriage
    return, with the line feed that follows it if there is one, is read as
    one line feed. *)
Fixpoint universal_newlines (raw : text) : text :=
  match raw with
  | [] => []
  | c :: rest =>
      if (c =? 13)%N then
        10%N :: match rest with
                | c' :: rest' =>
                    if (c' =? 10)%N then universal_newlines rest'
                    else universal_newlines rest
                | [] => []
                end
      else c :: universal_newlines rest
  end.

Definition timeline_header : text :=
  of_string "Organization Timeline" ++ nl ++ of_string "===================" ++ nl ++ nl.

(** The mark that starts the lines of an entry: two spaces, the characters
    U+2514 U+2500 U+2500, a space. *)
Definition tree_mark : text := of_string "  " ++ [9492; 9472; 9472]%N ++ of_string " ".

(** Lines 241-251 of [_update_timeline]: the text written for [operation].
    [time] is the value of the local variable [time] (the timestamp as
    [strftime] formats it) and [location] the text that the f-strings print
    for [operation['target_dir']]. *)
Definition timeline_entry (time location : text) (operation : batch) : text :=
  (if bool_decide (type operation = "undo") then
     of_string "[" ++ time ++ of_string "] UNDO" ++ nl ++
     tree_mark ++ of_string "Location: " ++ location ++ nl ++
     tree_mark ++ of_string "Restored files to original location" ++ nl
   else
     of_string "[" ++ time ++ of_string "] ORGANIZE" ++ nl ++
     tree_mark ++ of_string "Method: " ++ of_string (type operation) ++ nl ++
     tree_mark ++ of_string "Files organized: "
       ++ of_string (pretty (length (operations operation))) ++ nl ++
     tree_mark ++ of_string "Location: " ++ location ++ nl)
  ++ nl.

(** [_update_timeline], on the text of the file: what [timeline.txt] holds
    after the call, from what it held before ([None]: there is no file).
    The file is opened for appending, so what is written goes after what
    was there. *)
Definition _update_timeline_text (timeline_file : option text)
    (time location : text) (operation : batch) : text :=
  let existing_content :=
    match timeline_file with
    | Some raw => universal_newlines raw
    | None => []
    end in
  let existing_content :=
    if bool_decide (existing_content = []) then timeline_header
    else existing_content in
  default [] timeline_file
  ++ (if strip_is_empty existing_content then existing_content else [])
  ++ timeline_entry time location operation.

(** The file after a sequence of calls, each with its time, location and
    operation. *)
Definition timeline_after (timeline_file : option text)
    (calls : list (text * text * batch)) : option text :=
  foldl (λ file '(time, location, operation),
           Some (_update_timeline_text file time location operation))
        timeline_file calls.

End Text.

(** ** Observations used in the statements *)

(** What a path holds, as far as the organizer can tell: a file with its
    content, or a directory. *)
Inductive kind :=
  | KFile (content : string)
  | KDir.

Definition kind_of (n : node) : kind :=
  match n with File c => KFile c | Dir _ => KDir end.

Definition kind_at (p : path) (fs : node) : option kind :=
  kind_of <$> Fs.node_at p fs.

(** A well-formed tree: no directory lists a name twice. *)
Fixpoint wf (n : node) : Prop :=
  match n with
  | File _ => True
  | Dir es =>
      NoDup es.*1 ∧
      (fix all (l : list (string * node)) : Prop :=
         match l with
         | [] => True
         | (_, c) :: rest => wf c ∧ all rest
         end) es
  end.

(** A computation that leaves everything but the directory tree as it
    is. *)
Definition only_fs {A} (m : M A) : Prop :=
  ∀ st, ∃ tree, (m st).1 = set_fs tree st.

(** The state [_load_history] leaves. *)
Definition loaded (st : organizer) : organizer := (_load_history st).1.

(** The records a call of [undo_last_operation] replays: those of the first
    batch of the history as [_load_history] leaves it. *)
Definition undoable (st : organizer) : list move_record :=
  match history (loaded st) with
  | [] => []
  | last_op :: _ => operations last_op
  end.

(** The entry [undo_last_operation] appends to the timeline. *)
Definition undo_entry (now : string) (last_op : batch) : batch :=
  Batch now "undo" (source_dir last_op) (target_dir last_op) [].

(** The cleanup, read on the tree. *)
Definition is_empty_dir (n : node) : bool :=
  match n with Dir [] => true | _ => false end.

(** A tree from which the empty directories have been taken away, children
    first: what is left of a directory once its own children were pruned is
    removed from its parent when nothing remains in it. *)
Fixpoint prune (n : node) : node :=
  match n with
  | File c => File c
  | Dir es =>
      Dir (filter (λ e, negb (is_empty_dir e.2))
             ((fix children (l : list (string * node)) :=
                 match l with
                 | [] => []
                 | (x, c) :: rest => (x, prune c) :: children rest
                 end) es))
  end.

(** The tree [fs] with the node at [p] replaced by [n]. *)
Definition graft (p : path) (n : node) (fs : node) : node :=
  match p with
  | [] => n
  | _ :: _ => Fs.put p n fs
  end.

(** [U] is [T] with, possibly, further category directories of the target:
    how the tree during undo compares with the tree during organize. *)
Definition extra_dirs_only (tgt : path) (T U : node) : Prop :=
  ∀ q, kind_at q U = kind_at q T ∨
       (kind_at q T = None ∧ kind_at q U = Some KDir ∧
        ∃ c, c ∈ file_types.*1 ∧ q = tgt ++ [c]).

(** A string without a dot. *)
Fixpoint no_dot (s : string) : bool :=
  match s with
  | EmptyString => true
  | String c s' => negb (Str.is_dot c) && no_dot s'
  end.

(** No batch of the history, in memory or in the file, is an undo. *)
Definition no_undo_logged (st : organizer) : Prop :=
  (∀ b, b ∈ history st → type b ≠ "undo") ∧
  (∀ h b, history_file st = Json h → b ∈ h → type b ≠ "undo").

(** ** Example states *)

Definition organizer_of (tree : node) : organizer :=
  Organizer tree NoFile [] [] None.

(** The scenario of the specification: [a.jpg], [b.txt] and [c.xyz] in one
    directory. *)
Definition scenario_fs : node :=
  Dir [("home", Dir [("a.jpg", File "A"); ("b.txt", File "B"); ("c.xyz", File "C")])].


(** The scenario organized once, and then once more. *)
Definition once_organized : organizer :=
  (organize_by_type "t1" ["home"] None (organizer_of scenario_fs)).1.


(** Organizing the scenario into a directory that does not exist yet. *)
Definition organized_elsewhere : organizer :=
  (organize_by_type "t1" ["home"] (Some ["sorted"; "by-type"])
     (organizer_of scenario_fs)).1.


(** A collision: [photo.jpg] is to be organized into a directory whose
    [images/] already holds a [photo.jpg] and a [photo_1.jpg]. *)
Definition collision_fs : node :=
  Dir [("in", Dir [("photo.jpg", File "new")]);
       ("out", Dir [("images", Dir [("photo.jpg", File "old");
                                    ("photo_1.jpg", File "older")])])].

(** A directory in which organizing fails on the way: after [a.jpg] comes a
    regular file named [others], where the category directory should go. *)
Definition blocked_fs : node :=
  Dir [("home", Dir [("a.jpg", File "A"); ("others", File "O"); ("b.txt", File "B")])].

Definition blocked_state : organizer :=
  Organizer blocked_fs (Json []) [] [] None.

Definition blocked_after_first : organizer :=
  (organize_loop ["home"] ["home"] ["a.jpg"] [] blocked_state).1.

(** A tree in which the cleanup has something to do at several depths. *)
Definition nested_fs : node :=
  Dir [("t", Dir [("keep", Dir [("f.txt", File "F")]);
                  ("gone", Dir []);
                  ("deep", Dir [("a", Dir [("b", Dir [])])]);
                  ("note", File "N")])].

(** A directory that lists a regular file named [images] before a picture:
    the file goes to [others/], and then the category directory [images/]
    is made where the file was. *)
Definition category_name_fs : node :=
  Dir [("home", Dir [("images", File "I"); ("a.jpg", File "A")])].

Definition category_name_organized : organizer :=
  (organize_by_type "t1" ["home"] None (organizer_of category_name_fs)).1.

Definition category_name_undone : organizer :=
  (undo_last_operation "t2" category_name_organized).1.

(** A record whose source path is a directory by the time it is replayed. *)
Definition source_is_dir_fs : node :=
  Dir [("home", Dir [("others", Dir [("images", File "I")]);
                     ("images", Dir [])])].

Definition source_is_dir_record : move_record :=
  MoveRecord "move" ["home"; "images"] ["home"; "others"; "images"].



(** The scenario organized, as an organizer that has not loaded the history
    finds it. *)
Definition once_organized_unloaded : organizer :=
  Organizer (fs once_organized) (history_file once_organized)
    (timeline_file once_organized) [] None.

(** A log whose first record cannot be replayed any more: a directory
    [a.jpg/] that holds an [a.jpg] stands where the picture came from. *)
Definition stuck_state : organizer :=
  let op := Batch "t1" "organize_by_type" ["home"] ["home"]
              [MoveRecord "move" ["home"; "a.jpg"] ["home"; "images"; "a.jpg"];
               MoveRecord "move" ["home"; "b.txt"] ["home"; "documents"; "b.txt"]] in
  Organizer
    (Dir [("home", Dir [("images", Dir [("a.jpg", File "A")]);
                        ("documents", Dir [("b.txt", File "B")]);
                        ("a.jpg", Dir [("a.jpg", File "X")])])])
    (Json [op]) [op] [] None.

Definition stuck_undone : organizer := (undo_last_operation "t2" stuck_state).1.

(** A file made, after organizing, at the place a moved file came from. *)
Definition reoccupied_fs : node :=
  Dir [("home", Dir [("images", Dir [("a.jpg", File "A")]);
                     ("a.jpg", File "later")])].

Definition reoccupied_record : move_record :=
  MoveRecord "move" ["home"; "a.jpg"] ["home"; "images"; "a.jpg"].

(** A log whose files are all gone, with the target directory. *)
Definition stale_state : organizer :=
  let op := Batch "t1" "organize_by_type" ["home"] ["sorted"]
              [MoveRecord "move" ["home"; "a.jpg"] ["sorted"; "images"; "a.jpg"]] in
  Organizer (Dir [("home", Dir [("notes", Dir [])])]) (Json [op]) [op] [] None.

(** * Facts about the filesystem model *)

Module FsFacts.
Import Fs.

(** An induction principle that reaches the children of a directory. *)
Lemma node_nested_ind (P : node → Prop) :
  (∀ c, P (File c)) →
  (∀ es, Forall (λ e, P e.2) es → P (Dir es)) →
  ∀ n, P n.
Proof.
  intros HF HD. fix IH 1. intros [c|es]; [apply HF|].
  apply HD. induction es as [|[x c] es IHes]; constructor; [apply IH|apply IHes].
Qed.

Lemma child_entries_remove x y es :
  child y (entries_remove x es) = if decide (x = y) then None else child y es.
Proof.
  unfold entries_remove. induction es as [|[z c] es IH]; simpl.
  - by case_decide.
  - rewrite filter_cons. simpl.
    destruct (decide (z ≠ x)); simpl; rewrite ?IH;
      repeat case_decide; simplify_eq; done.
Qed.

Lemma child_entries_update x y g es :
  child y (entries_update x g es)
  = if decide (x = y) then g (child x es) else child y es.
Proof.
  induction es as [|[z c] es IH]; simpl.
  - destruct (g None) eqn:Hg; simpl; repeat case_decide; simplify_eq; done.
  - destruct (decide (x = z)) as [->|Hxz].
    + destruct (g (Some c)) eqn:Hg; simpl.
      * repeat case_decide; simplify_eq; done.
      * rewrite child_entries_remove. repeat case_decide; simplify_eq; done.
    + simpl. rewrite IH. repeat case_decide; simplify_eq; done.
Qed.

Lemma child_elem_of x c es : child x es = Some c → (x, c) ∈ es.
Proof.
  induction es as [|[z d] es IH]; simpl; [done|].
  case_decide; intros; simplify_eq; [left|right; auto].
Qed.

Lemma child_None x es : child x es = None ↔ x ∉ es.*1.
Proof.
  induction es as [|[z d] es IH]; simpl.
  - split; [intros _; apply not_elem_of_nil|done].
  - case_decide; subst.
    + split; [done|]. intros []. left.
    + rewrite IH, not_elem_of_cons. tauto.
Qed.

Lemma child_NoDup x c es : NoDup es.*1 → (x, c) ∈ es → child x es = Some c.
Proof.
  induction es as [|[z d] es IH]; simpl; intros Hnd Hin.
  - by apply elem_of_nil in Hin.
  - apply NoDup_cons in Hnd as [Hz Hnd]. apply elem_of_cons in Hin as [?|Hin].
    + simplify_eq. by rewrite decide_True.
    + case_decide; subst; [|by apply IH].
      exfalso. apply Hz. apply list_elem_of_fmap. by exists (z, c).
Qed.

Lemma node_at_app p q n : node_at (p ++ q) n = node_at p n ≫= node_at q.
Proof.
  revert n. induction p as [|x p IH]; intros n; simpl; [done|].
  destruct n as [|es]; [done|]. destruct (child x es); [apply IH|done].
Qed.

Lemma node_at_file_below c x p : node_at (x :: p) (File c) = None.
Proof. done. Qed.

Lemma update_cons_deep g x p es :
  p ≠ [] →
  update g (x :: p) (Dir es)
  = Dir (entries_update x (λ o, match o with
                                | Some c => Some (update g p c)
                                | None => None
                                end) es).
Proof. by destruct p. Qed.

(** Looking at or above the place an update rewrites. *)
Lemma node_at_update_above g q r n :
  r ≠ [] → node_at q (update g (q ++ r) n) = update g r <$> node_at q n.
Proof.
  intros Hr. revert n. induction q as [|x q IH]; intros n; [done|].
  destruct n as [c|es]; [done|].
  rewrite <-app_comm_cons, update_cons_deep by (by intros [_ ?]%app_eq_nil).
  simpl. rewrite child_entries_update, decide_True by done.
  destruct (child x es) as [c|]; [apply IH|done].
Qed.

Lemma update_below_file g c p : update g p (File c) = File c.
Proof. by destruct p. Qed.

Lemma node_at_update_eq g q x es n :
  node_at q n = Some (Dir es) →
  node_at (q ++ [x]) (update g (q ++ [x]) n) = g (node_at (q ++ [x]) n).
Proof.
  intros Hq. rewrite !node_at_app, node_at_update_above, Hq by done. simpl.
  rewrite child_entries_update, decide_True by done.
  destruct (child x es); by destruct (g _).
Qed.

Lemma node_at_update_below g q x r es n :
  node_at q n = Some (Dir es) →
  node_at (q ++ x :: r) (update g (q ++ [x]) n)
  = g (node_at (q ++ [x]) n) ≫= node_at r.
Proof.
  intros Hq. change (x :: r) with ([x] ++ r).
  rewrite (assoc (++)), (node_at_app (q ++ [x]) r).
  by erewrite node_at_update_eq.
Qed.

(** Looking beside it. *)
Lemma node_at_update_beside g c x y r1 r2 n :
  x ≠ y →
  node_at (c ++ y :: r2) (update g (c ++ x :: r1) n) = node_at (c ++ y :: r2) n.
Proof.
  intros Hxy. rewrite !node_at_app, node_at_update_above by done.
  destruct (node_at c n) as [[d|es]|]; simpl; [done| |done].
  by rewrite child_entries_update, decide_False.
Qed.

(** Two paths: one extends the other, or they part at some component. *)
Lemma path_cases (p q : path) :
  (∃ r, q = p ++ r) ∨ (∃ r, r ≠ [] ∧ p = q ++ r) ∨
  (∃ c x y r1 r2, x ≠ y ∧ p = c ++ x :: r1 ∧ q = c ++ y :: r2).
Proof.
  revert q. induction p as [|x p IH]; intros q.
  - left. by exists q.
  - destruct q as [|y q].
    + right; left. by exists (x :: p).
    + destruct (decide (x = y)) as [->|Hxy].
      * destruct (IH q) as [[r ->]|[[r [? ->]]|(c & a & b & r1 & r2 & ? & -> & ->)]].
        -- left. by exists r.
        -- right; left. by exists r.
        -- right; right. by exists (y :: c), a, b, r1, r2.
      * right; right. by exists [], x, y, p, q.
Qed.

Lemma kind_at_update_frame g p q n :
  ¬ p `prefix_of` q → kind_at q (update g p n) = kind_at q n.
Proof.
  intros Hpq. unfold kind_at.
  destruct (path_cases p q) as [[r ->]|[[r [? ->]]|(c & a & b & r1 & r2 & ? & -> & ->)]].
  - destruct Hpq. by exists r.
  - rewrite node_at_update_above by done.
    destruct (node_at q n) as [[d|es]|]; simpl; [|by destruct r|done].
    by rewrite update_below_file.
  - by rewrite node_at_update_beside.
Qed.

(** ** Paths *)

Lemma path_snoc (p : path) :
  p ≠ [] → ∃ q x, p = q ++ [x] ∧ dirname p = q ∧ basename p = Some x.
Proof.
  intros Hp. destruct (exists_last Hp) as (q & x & ->). exists q, x.
  unfold dirname, basename. by rewrite removelast_last, last_snoc.
Qed.

Lemma dirname_snoc (q : path) x : dirname (q ++ [x]) = q.
Proof. apply removelast_last. Qed.

Lemma basename_snoc (q : path) x : basename (q ++ [x]) = Some x.
Proof. apply last_snoc. Qed.

Lemma prefix_snoc_inv (q p : path) x :
  q `prefix_of` p ++ [x] → q = p ++ [x] ∨ q `prefix_of` p.
Proof.
  intros [r Hr]. destruct (decide (r = [])) as [->|Hne].
  - left. by rewrite app_nil_r in Hr.
  - right. destruct (exists_last Hne) as (r' & y & ->).
    rewrite (assoc (++)) in Hr. apply app_inj_tail in Hr as [-> _].
    by exists r'.
Qed.

(** ** Existence is closed under prefixes *)

Lemma node_at_prefix p r n c :
  node_at (p ++ r) n = Some c → ∃ d, node_at p n = Some d ∧ node_at r d = Some c.
Proof. rewrite node_at_app. destruct (node_at p n) as [d|]; naive_solver. Qed.

Lemma node_at_below_dir p x r n c :
  node_at (p ++ x :: r) n = Some c → ∃ es, node_at p n = Some (Dir es).
Proof.
  intros (d & Hd & Hc)%node_at_prefix. destruct d as [|es]; [done|]. by exists es.
Qed.

Lemma kind_at_None_below p r n : kind_at p n = None → kind_at (p ++ r) n = None.
Proof.
  unfold kind_at. rewrite node_at_app. by destruct (node_at p n).
Qed.

Lemma kind_at_file_below p x r n c :
  kind_at p n = Some (KFile c) → kind_at (p ++ x :: r) n = None.
Proof.
  unfold kind_at. rewrite node_at_app.
  by destruct (node_at p n) as [[]|].
Qed.

Lemma kind_at_prefix p q n :
  p `prefix_of` q → is_Some (kind_at q n) → kind_at p n = Some KDir ∨ p = q.
Proof.
  intros [r ->] [k Hk]. destruct r as [|x r]; [right; by rewrite app_nil_r|left].
  unfold kind_at in *. destruct (node_at (p ++ x :: r) n) as [c|] eqn:Hc; [|done].
  apply node_at_below_dir in Hc as [es ->]. done.
Qed.

Lemma path_exists_kind p n : path_exists p n = bool_decide (is_Some (kind_at p n)).
Proof.
  unfold path_exists, kind_at. by destruct (node_at p n).
Qed.

Lemma path_exists_true p n : path_exists p n = true ↔ is_Some (kind_at p n).
Proof. rewrite path_exists_kind. apply bool_decide_eq_true. Qed.

Lemma path_exists_false p n : path_exists p n = false ↔ kind_at p n = None.
Proof.
  rewrite path_exists_kind, bool_decide_eq_false, <-eq_None_not_Some. done.
Qed.

Lemma isdir_kind p n : isdir p n = true ↔ kind_at p n = Some KDir.
Proof. unfold isdir, kind_at. destruct (node_at p n) as [[]|]; naive_solver. Qed.

Lemma isdir_false p n : isdir p n = false ↔ kind_at p n ≠ Some KDir.
Proof. rewrite <-isdir_kind. by destruct (isdir p n). Qed.

Lemma isfile_kind p n : isfile p n = true ↔ ∃ c, kind_at p n = Some (KFile c).
Proof.
  unfold isfile, kind_at. destruct (node_at p n) as [[c|es]|]; simpl.
  - split; [by exists c|done].
  - split; [done|by intros [? ?]].
  - split; [done|by intros [? ?]].
Qed.

Lemma file_at_kind p n c : file_at p n = Some c ↔ kind_at p n = Some (KFile c).
Proof. unfold file_at, kind_at. destruct (node_at p n) as [[]|]; naive_solver. Qed.

Lemma file_at_kind_eq q fs1 fs2 :
  kind_at q fs1 = kind_at q fs2 → file_at q fs1 = file_at q fs2.
Proof.
  unfold file_at, kind_at.
  destruct (node_at q fs1) as [[]|], (node_at q fs2) as [[]|]; simpl; congruence.
Qed.

(** ** [put] and [remove] *)

Lemma kind_at_put_frame p c q n :
  ¬ p `prefix_of` q → kind_at q (put p c n) = kind_at q n.
Proof. apply kind_at_update_frame. Qed.

Lemma kind_at_remove_frame p q n :
  ¬ p `prefix_of` q → kind_at q (remove p n) = kind_at q n.
Proof. apply kind_at_update_frame. Qed.

Lemma node_at_put_below q x r c es n :
  node_at q n = Some (Dir es) → node_at (q ++ x :: r) (put (q ++ [x]) c n) = node_at r c.
Proof. intros Hq. unfold put. by erewrite node_at_update_below. Qed.

Lemma node_at_put_eq q x c es n :
  node_at q n = Some (Dir es) → node_at (q ++ [x]) (put (q ++ [x]) c n) = Some c.
Proof. intros Hq. by erewrite node_at_put_below. Qed.

Lemma node_at_remove_below p r n : p ≠ [] → node_at (p ++ r) (remove p n) = None.
Proof.
  revert n. induction p as [|x p IH]; intros n Hp; [done|].
  destruct n as [c|es]; [done|]. unfold remove in *.
  destruct (decide (p = [])) as [->|Hne].
  - simpl. by rewrite child_entries_update, decide_True.
  - rewrite update_cons_deep by done. simpl.
    rewrite child_entries_update, decide_True by done.
    destruct (child x es); [by apply IH|done].
Qed.

Lemma kind_at_remove_below p r n : p ≠ [] → kind_at (p ++ r) (remove p n) = None.
Proof. intros Hp. unfold kind_at. by rewrite node_at_remove_below. Qed.

(** ** [mkdir] and [makedirs] *)

Lemma mkdir_Ok p fs fs' :
  mkdir p fs = Ok fs' →
  kind_at p fs = None ∧
  (∃ q x es, p = q ++ [x] ∧ node_at q fs = Some (Dir es)) ∧
  fs' = put p (Dir []) fs.
Proof.
  unfold mkdir. destruct (path_exists p fs) eqn:Hex; [done|].
  apply path_exists_false in Hex.
  destruct (node_at (dirname p) fs) as [[c|es]|] eqn:Hpar; try done.
  intros [= <-]. split_and!; [done| |done].
  destruct (decide (p = [])) as [->|Hne]; [done|].
  destruct (path_snoc p Hne) as (q & x & -> & Hq & _).
  rewrite Hq in Hpar. by exists q, x, es.
Qed.

Lemma kind_at_put_new q x c es fs r :
  node_at q fs = Some (Dir es) →
  kind_at (q ++ x :: r) (put (q ++ [x]) c fs) = kind_at r c.
Proof. intros Hq. unfold kind_at. by erewrite node_at_put_below. Qed.

Lemma kind_at_mkdir p fs fs' q :
  mkdir p fs = Ok fs' →
  kind_at q fs' = if decide (q = p) then Some KDir else kind_at q fs.
Proof.
  intros (Hnone & (p0 & x & es & -> & Hp0) & ->)%mkdir_Ok.
  destruct (decide (p0 ++ [x] `prefix_of` q)) as [[r ->]|Hpre].
  - assert ((p0 ++ [x]) ++ r = p0 ++ x :: r) as E by by rewrite <-(assoc (++)).
    destruct r as [|y r].
    + rewrite decide_True by done. rewrite E.
      by erewrite kind_at_put_new.
    + rewrite decide_False.
      * rewrite (kind_at_None_below _ _ fs) by done. rewrite E.
        by erewrite kind_at_put_new.
      * intros Heq. apply (f_equal length) in Heq.
        rewrite !length_app in Heq. simpl in Heq. lia.
  - rewrite kind_at_put_frame by done. rewrite decide_False; [done|].
    by intros ->.
Qed.

Lemma kind_at_mkdir_exist_ok e p fs fs' q :
  mkdir_exist_ok e p fs = Ok fs' →
  kind_at q fs' = if decide (q = p) then Some KDir else kind_at q fs.
Proof.
  unfold mkdir_exist_ok. destruct (mkdir p fs) as [fs1|err] eqn:Hmk.
  - intros [= <-]. by apply kind_at_mkdir.
  - destruct (negb e || negb (isdir p fs)) eqn:Hc; [done|]. intros [= <-].
    apply orb_false_iff in Hc as [_ Hd%negb_false_iff%isdir_kind].
    case_decide; by subst.
Qed.

Lemma mkdir_exist_ok_isdir e p fs fs' :
  mkdir_exist_ok e p fs = Ok fs' → kind_at p fs' = Some KDir.
Proof.
  intros H. rewrite (kind_at_mkdir_exist_ok _ _ _ _ _ H). by rewrite decide_True.
Qed.

Lemma kind_at_nil_Some fs : is_Some (kind_at [] fs).
Proof. by eexists. Qed.

(** What [makedirs] changes: every missing prefix of the path becomes a
    directory, and nothing else is touched. *)
Lemma kind_at_makedirs_rev e rp fs fs' q :
  makedirs_rev e rp fs = Ok fs' →
  kind_at q fs'
  = match kind_at q fs with
    | Some k => Some k
    | None => if bool_decide (q `prefix_of` rev rp) then Some KDir else None
    end.
Proof.
  revert fs fs' q. induction rp as [|x rhead IH]; intros fs fs' q Hmk.
  - simpl in Hmk. rewrite (kind_at_mkdir_exist_ok _ _ _ _ _ Hmk).
    case_decide as Hq.
    + subst. unfold mkdir_exist_ok, mkdir in Hmk. simpl in Hmk.
      destruct (negb e || negb (isdir [] fs)) eqn:Hc; [done|].
      apply orb_false_iff in Hc as [_ Hd%negb_false_iff%isdir_kind].
      by rewrite Hd.
    + destruct (kind_at q fs); [done|]. rewrite bool_decide_eq_false_2; [done|].
      simpl. by intros ->%prefix_nil_inv.
  - assert (∀ fs0, (∀ q, kind_at q fs0
        = match kind_at q fs with
          | Some k => Some k
          | None => if bool_decide (q `prefix_of` rev rhead) then Some KDir else None
          end) →
      mkdir_exist_ok e (rev (x :: rhead)) fs0 = Ok fs' →
      kind_at q fs'
      = match kind_at q fs with
        | Some k => Some k
        | None => if bool_decide (q `prefix_of` rev (x :: rhead)) then Some KDir else None
        end) as Hfin.
    { intros fs0 H0 Hlast. rewrite (kind_at_mkdir_exist_ok _ _ _ _ _ Hlast).
      pose proof (mkdir_exist_ok_isdir _ _ _ _ Hlast) as Hd.
      simpl. destruct (decide (q = rev rhead ++ [x])) as [Hq|Hq].
      - subst q. destruct (kind_at (rev rhead ++ [x]) fs) as [k|] eqn:Hk.
        + rewrite (kind_at_mkdir_exist_ok _ _ _ _ _ Hlast), decide_True in Hd by done.
          unfold mkdir_exist_ok, mkdir in Hlast.
          assert (path_exists (rev (x :: rhead)) fs0 = true) as Hex.
          { apply path_exists_true. simpl. rewrite H0, Hk. by eexists. }
          rewrite Hex in Hlast.
          destruct (negb e || negb (isdir (rev (x :: rhead)) fs0)) eqn:Hc; [done|].
          apply orb_false_iff in Hc as [_ Hd'%negb_false_iff%isdir_kind].
          simpl in Hd'. rewrite H0, Hk in Hd'. by simplify_eq.
        + by rewrite bool_decide_eq_true_2.
      - rewrite H0. destruct (kind_at q fs) as [k|]; [done|].
        destruct (decide (q `prefix_of` rev rhead)) as [Hp|Hp].
        + rewrite !bool_decide_eq_true_2; [done| |done]. by apply prefix_app_r.
        + rewrite !bool_decide_eq_false_2; [done| |done].
          by intros [?|?]%prefix_snoc_inv. }
    simpl in Hmk.
    destruct (path_exists (rev rhead) fs) eqn:Hhead; simpl in Hmk.
    + apply (Hfin fs); [|done]. intros q'.
      destruct (kind_at q' fs) as [k|] eqn:Hk; [done|].
      rewrite bool_decide_eq_false_2; [done|]. intros Hp.
      apply path_exists_true in Hhead.
      destruct (kind_at_prefix _ _ fs Hp Hhead) as [?| ->]; [congruence|].
      rewrite Hk in Hhead. by destruct Hhead.
    + destruct (makedirs_rev e rhead fs) as [fs1|err] eqn:Hrec.
      * apply (Hfin fs1); [|done]. intros q'. by apply IH.
      * destruct err; try done. apply (Hfin fs); [|done]. intros q'.
        exfalso. unfold mkdir_exist_ok, mkdir in Hmk.
        apply path_exists_false in Hhead.
        assert (kind_at (rev rhead ++ [x]) fs = None) as Hn
          by by apply kind_at_None_below.
        apply path_exists_false in Hn. simpl in Hmk. rewrite Hn in Hmk.
        rewrite dirname_snoc in Hmk. unfold kind_at in Hhead.
        destruct (node_at (rev rhead) fs) as [[]|]; try done.
        assert (isdir (rev rhead ++ [x]) fs = false) as Hnd.
        { unfold isdir, path_exists in *.
          by destruct (node_at (rev rhead ++ [x]) fs). }
        by rewrite Hnd, orb_true_r in Hmk.
Qed.

Lemma kind_at_makedirs e p fs fs' q :
  makedirs e p fs = Ok fs' →
  kind_at q fs'
  = match kind_at q fs with
    | Some k => Some k
    | None => if bool_decide (q `prefix_of` p) then Some KDir else None
    end.
Proof.
  unfold makedirs. intros H. rewrite (kind_at_makedirs_rev _ _ _ _ _ H).
  by rewrite rev_involutive.
Qed.

Lemma makedirs_isdir e p fs fs' : makedirs e p fs = Ok fs' → kind_at p fs' = Some KDir.
Proof.
  unfold makedirs. destruct (rev p) as [|x r] eqn:Hp; simpl.
  - intros H%mkdir_exist_ok_isdir. apply (f_equal (@rev _)) in Hp.
    rewrite rev_involutive in Hp. by subst.
  - assert (rev r ++ [x] = p) as Hp'.
    { apply (f_equal (@rev _)) in Hp. by rewrite rev_involutive in Hp. }
    rewrite Hp'. clear Hp Hp'.
    destruct (negb (path_exists (rev r) fs)); [|apply mkdir_exist_ok_isdir].
    destruct (makedirs_rev e r fs) as [fs1|[]]; try done;
      apply mkdir_exist_ok_isdir.
Qed.

Lemma makedirs_keeps e p fs fs' q k :
  makedirs e p fs = Ok fs' → kind_at q fs = Some k → kind_at q fs' = Some k.
Proof. intros H Hk. by rewrite (kind_at_makedirs _ _ _ _ _ H), Hk. Qed.

Lemma makedirs_file_at e p fs fs' q :
  makedirs e p fs = Ok fs' → file_at q fs' = file_at q fs.
Proof.
  intros H. unfold file_at. pose proof (kind_at_makedirs _ _ _ _ q H) as Hk.
  unfold kind_at in Hk.
  destruct (node_at q fs') as [[]|], (node_at q fs) as [[]|];
    simpl in Hk; try case_bool_decide; simplify_eq; done.
Qed.

(** ** [rename] and [move], for a destination that does not exist *)

Lemma kind_at_moved src q x n es fs r :
  src ≠ [] →
  ¬ src `prefix_of` q ++ [x] →
  node_at q fs = Some (Dir es) →
  kind_at (q ++ x :: r) (put (q ++ [x]) n (remove src fs)) = kind_at r n.
Proof.
  intros Hsrc Hpre Hq.
  assert (∃ es', node_at q (remove src fs) = Some (Dir es')) as [es' Hq'].
  { assert (kind_at q (remove src fs) = Some KDir) as Hk.
    { rewrite kind_at_remove_frame; [by unfold kind_at; rewrite Hq|].
      intros Hp. apply Hpre. by apply prefix_app_r. }
    unfold kind_at in Hk. destruct (node_at q (remove src fs)) as [[]|]; try done.
    by eexists. }
  by erewrite kind_at_put_new.
Qed.

(** The tree after moving the node at [src] to the fresh place [dst]. *)
Lemma kind_at_relocate src dst n fs q :
  src ≠ [] → dst ≠ [] →
  ¬ src `prefix_of` dst →
  kind_at (dirname dst) fs = Some KDir →
  kind_at q (put dst n (remove src fs))
  = match decide (dst `prefix_of` q) with
    | left _ => kind_at (drop (length dst) q) n
    | right _ => if decide (src `prefix_of` q) then None else kind_at q fs
    end.
Proof.
  intros Hsrc Hdst Hpre Hpar.
  destruct (path_snoc dst Hdst) as (d & x & -> & Hd & _). rewrite Hd in Hpar.
  unfold kind_at in Hpar.
  destruct (node_at d fs) as [[c|es]|] eqn:Hdn; try done.
  destruct (decide (d ++ [x] `prefix_of` q)) as [[r ->]|Hnp].
  - rewrite drop_app_length.
    assert ((d ++ [x]) ++ r = d ++ x :: r) as -> by by rewrite <-(assoc (++)).
    by erewrite kind_at_moved.
  - rewrite kind_at_put_frame by done.
    destruct (decide (src `prefix_of` q)) as [[r ->]|Hnq].
    + by apply kind_at_remove_below.
    + by apply kind_at_remove_frame.
Qed.

Lemma rename_fresh src dst fs n :
  node_at src fs = Some n →
  src ≠ [] →
  ¬ src `prefix_of` dst →
  kind_at dst fs = None →
  kind_at (dirname dst) fs = Some KDir →
  rename src dst fs = Ok (put dst n (remove src fs)).
Proof.
  intros Hn Hsrc Hpre Hdst Hpar. unfold rename. rewrite Hn.
  rewrite decide_False by (intros ->; by destruct Hpre).
  rewrite decide_False by done.
  rewrite bool_decide_eq_false_2 by done.
  unfold kind_at in *.
  destruct (node_at (dirname dst) fs) as [[]|]; try done.
  by destruct (node_at dst fs).
Qed.

Lemma move_file_paths src dst fs c :
  kind_at src fs = Some (KFile c) →
  kind_at dst fs = None →
  kind_at (dirname dst) fs = Some KDir →
  src ≠ [] ∧ dst ≠ [] ∧ ¬ src `prefix_of` dst.
Proof.
  intros Hsrc Hdst Hpar. split_and!.
  - intros ->. destruct (dirname dst) as [|y r] eqn:Hd.
    + congruence.
    + pose proof (kind_at_file_below [] y r fs c Hsrc) as Hb. simpl in Hb.
      congruence.
  - by intros ->.
  - intros [r ->]. destruct r as [|y r].
    + rewrite app_nil_r in Hdst. congruence.
    + destruct (exists_last (l:=y :: r)) as (r' & z & Hr); [done|].
      rewrite Hr, (assoc (++)), dirname_snoc in Hpar.
      destruct r' as [|y' r'].
      * rewrite app_nil_r in Hpar. congruence.
      * by rewrite (kind_at_file_below _ _ _ _ c) in Hpar.
Qed.

(** [shutil.move] of a regular file to a path that does not exist, in a
    directory that does. *)
Lemma move_file_fresh src dst fs c :
  kind_at src fs = Some (KFile c) →
  kind_at dst fs = None →
  kind_at (dirname dst) fs = Some KDir →
  move src dst fs = Ok (put dst (File c) (remove src fs)).
Proof.
  intros Hsrc Hdst Hpar.
  destruct (move_file_paths _ _ _ _ Hsrc Hdst Hpar) as (Hsne & Hdne & Hpre).
  assert (node_at src fs = Some (File c)) as Hn.
  { unfold kind_at in Hsrc. by destruct (node_at src fs) as [[]|]; simplify_eq/=. }
  unfold move. assert (isdir dst fs = false) as ->.
  { apply isdir_false. by rewrite Hdst. }
  by erewrite rename_fresh.
Qed.

Lemma kind_at_move_file_fresh src dst fs fs' c q :
  kind_at src fs = Some (KFile c) →
  kind_at dst fs = None →
  kind_at (dirname dst) fs = Some KDir →
  move src dst fs = Ok fs' →
  kind_at q fs'
  = if decide (q = dst) then Some (KFile c)
    else if decide (q = src) then None
    else kind_at q fs.
Proof.
  intros Hsrc Hdst Hpar Hmv.
  rewrite (move_file_fresh _ _ _ _ Hsrc Hdst Hpar) in Hmv. injection Hmv as <-.
  destruct (move_file_paths _ _ _ _ Hsrc Hdst Hpar) as (Hsne & Hdne & Hpre).
  assert (∀ (p : path) y r, p ++ y :: r ≠ p) as Hlen.
  { intros p y r Heq. apply (f_equal length) in Heq.
    rewrite length_app in Heq. simpl in Heq. lia. }
  rewrite kind_at_relocate by done.
  destruct (decide (dst `prefix_of` q)) as [[r ->]|Hnp].
  - rewrite drop_app_length. destruct r as [|y r].
    + rewrite app_nil_r. by rewrite decide_True.
    + rewrite decide_False by apply Hlen.
      pose proof (kind_at_None_below dst (y :: r) fs Hdst) as Hbelow.
      rewrite decide_False by congruence. done.
  - destruct (decide (q = dst)) as [->|_]; [by destruct Hnp|].
    destruct (decide (src `prefix_of` q)) as [[r ->]|Hnq].
    + destruct r as [|y r].
      * by rewrite app_nil_r, decide_True.
      * rewrite decide_False by apply Hlen.
        symmetry. by eapply kind_at_file_below.
    + rewrite decide_False; [done|]. by intros ->.
Qed.

Lemma makedirs_existing_dir p fs :
  kind_at p fs = Some KDir → makedirs true p fs = Ok fs.
Proof.
  intros Hd. assert (path_exists p fs = true) as Hex.
  { apply path_exists_true. by rewrite Hd. }
  assert (mkdir_exist_ok true p fs = Ok fs) as Hlast.
  { unfold mkdir_exist_ok, mkdir. rewrite Hex.
    apply isdir_kind in Hd. by rewrite Hd. }
  unfold makedirs. destruct (rev p) as [|x r] eqn:Hp; simpl.
  - apply (f_equal (@rev _)) in Hp. rewrite rev_involutive in Hp. by subst.
  - assert (rev r ++ [x] = p) as Hp'.
    { apply (f_equal (@rev _)) in Hp. by rewrite rev_involutive in Hp. }
    rewrite Hp'. assert (path_exists (rev r) fs = true) as ->; [|done].
    apply path_exists_true. subst p.
    destruct (kind_at_prefix (rev r) (rev r ++ [x]) fs) as [->| Heq].
    + by apply prefix_app_r.
    + by rewrite Hd.
    + by eexists.
    + apply (f_equal length) in Heq. rewrite length_app in Heq. simpl in Heq. lia.
Qed.

(** Whatever [shutil.move] does on the way to a path that does not exist,
    it leaves alone what lies outside the source. *)
Lemma move_fresh_keeps src dst fs fs' q k :
  kind_at dst fs = None →
  move src dst fs = Ok fs' →
  kind_at q fs = Some k →
  ¬ src `prefix_of` q →
  kind_at q fs' = Some k.
Proof.
  intros Hdst Hmv Hq Hsq.
  assert (¬ dst `prefix_of` q) as Hdq.
  { intros [r ->]. by rewrite kind_at_None_below in Hq. }
  assert (isdir dst fs = false) as Hnd by (apply isdir_false; by rewrite Hdst).
  assert (node_at dst fs = None) as Hdn.
  { unfold kind_at in Hdst. by destruct (node_at dst fs). }
  unfold move in Hmv. rewrite Hnd in Hmv. unfold rename in Hmv.
  destruct (node_at src fs) as [n|] eqn:Hn; [|done].
  assert (∀ fs1, kind_at q fs1 = Some k →
            kind_at q (remove src (put dst n fs1)) = Some k) as Hcopy.
  { intros fs1 H1. by rewrite kind_at_remove_frame, kind_at_put_frame. }
  assert (∀ e, match n with
               | Dir es =>
                   if bool_decide (src `prefix_of` dst) then Raise ShutilError
                   else match makedirs false dst fs with
                        | Ok fs1 => Ok (remove src (put dst (Dir es) fs1))
                        | Raise e' => Raise e'
                        end
               | File _ => Raise e
               end = Ok fs' → kind_at q fs' = Some k) as Hfallback.
  { intros e He. destruct n as [c|es]; [done|].
    case_bool_decide; [done|].
    destruct (makedirs false dst fs) as [fs1|e'] eqn:Hmk; [|done].
    injection He as <-. apply Hcopy. by eapply makedirs_keeps. }
  destruct (decide (src = dst)) as [->|Hne]; [congruence|].
  destruct (decide (src = [])) as [->|Hsne]; [by eapply Hfallback|].
  case_bool_decide as Hpre.
  { destruct n; [by eapply (Hfallback NotADirectoryError)|by eapply (Hfallback OSError)]. }
  destruct (node_at (dirname dst) fs) as [[c|es]|] eqn:Hpar;
    [by eapply Hfallback|..|by eapply Hfallback].
  rewrite Hdn in Hmv. injection Hmv as <-.
  by rewrite kind_at_put_frame, kind_at_remove_frame.
Qed.

(** ** Rewriting inside a subtree *)

Lemma child_split x c es :
  child x es = Some c → ∃ pre post, es = pre ++ (x, c) :: post ∧ x ∉ pre.*1.
Proof.
  induction es as [|[z d] es IH]; simpl; [done|].
  case_decide as Hxz.
  - intros [= ->]. subst z. exists [], es. split; [done|]. apply not_elem_of_nil.
  - intros (pre & post & -> & Hpre)%IH. exists ((z, d) :: pre), post.
    split; [done|]. simpl. apply not_elem_of_cons. by split.
Qed.

Lemma child_app_notin x pre es : x ∉ pre.*1 → child x (pre ++ es) = child x es.
Proof.
  induction pre as [|[z d] pre IH]; simpl; [done|].
  intros [? ?]%not_elem_of_cons. rewrite decide_False by done. by apply IH.
Qed.

Lemma child_cons x z c es :
  child x ((z, c) :: es) = if decide (x = z) then Some c else child x es.
Proof. done. Qed.

Lemma child_cons_eq x c es : child x ((x, c) :: es) = Some c.
Proof. simpl. by rewrite decide_True. Qed.

Lemma entries_remove_notin x es : x ∉ es.*1 → entries_remove x es = es.
Proof.
  unfold entries_remove. induction es as [|[z d] es IH]; simpl; [done|].
  intros [? ?]%not_elem_of_cons. rewrite filter_cons_True by (simpl; congruence).
  f_equal. by apply IH.
Qed.

Lemma entries_update_at x g pre c post :
  x ∉ pre.*1 →
  entries_update x g (pre ++ (x, c) :: post)
  = pre ++ match g (Some c) with
           | Some c' => (x, c') :: post
           | None => entries_remove x post
           end.
Proof.
  induction pre as [|[z d] pre IH]; simpl.
  - intros _. by rewrite decide_True.
  - intros [? ?]%not_elem_of_cons. rewrite decide_False by done.
    f_equal. by apply IH.
Qed.

Lemma update_cons_at g y top pre c post :
  y ∉ pre.*1 → top ≠ [] →
  update g (y :: top) (Dir (pre ++ (y, c) :: post))
  = Dir (pre ++ (y, update g top c) :: post).
Proof.
  intros Hy Htop. rewrite update_cons_deep by done. by rewrite entries_update_at.
Qed.

Lemma put_single_at y c' pre c post :
  y ∉ pre.*1 →
  put [y] c' (Dir (pre ++ (y, c) :: post)) = Dir (pre ++ (y, c') :: post).
Proof. intros Hy. unfold put. simpl. by rewrite entries_update_at. Qed.

Lemma node_at_cons_inv y top F n :
  node_at (y :: top) F = Some n →
  ∃ pre c post,
    F = Dir (pre ++ (y, c) :: post) ∧ (y ∉ pre.*1) ∧ node_at top c = Some n.
Proof.
  destruct F as [|es]; simpl; [done|].
  destruct (child y es) as [c|] eqn:Hc; [|done]. intros Hn.
  apply child_split in Hc as (pre & post & -> & Hpre). by exists pre, c, post.
Qed.

(** An update below [top] is an update of the subtree at [top]. *)
Lemma update_within g top r n F :
  node_at top F = Some n → r ≠ [] →
  update g (top ++ r) F = graft top (update g r n) F.
Proof.
  intros Hn Hr. revert F Hn. induction top as [|y top IH]; intros F Hn.
  - simpl in *. by simplify_eq.
  - apply node_at_cons_inv in Hn as (pre & c & post & -> & Hy & Hn).
    assert (top ++ r ≠ []) as Hne by (by intros [_ ?]%app_eq_nil).
    rewrite <-app_comm_cons, update_cons_at by done.
    rewrite (IH _ Hn). unfold graft. destruct top as [|z top].
    + by rewrite put_single_at.
    + unfold put. by rewrite update_cons_at.
Qed.

Lemma graft_same top n F : node_at top F = Some n → graft top n F = F.
Proof.
  revert F. induction top as [|y top IH]; intros F Hn.
  - simpl in *. by simplify_eq.
  - apply node_at_cons_inv in Hn as (pre & c & post & -> & Hy & Hn).
    unfold graft. destruct top as [|z top].
    + simpl in Hn. simplify_eq. by rewrite put_single_at.
    + unfold put. rewrite update_cons_at by done.
      specialize (IH _ Hn). unfold graft, put in IH. by rewrite IH.
Qed.

Lemma graft_graft top X Y n F :
  node_at top F = Some n → graft top X (graft top Y F) = graft top X F.
Proof.
  revert F. induction top as [|y top IH]; intros F Hn; [done|].
  apply node_at_cons_inv in Hn as (pre & c & post & -> & Hy & Hn).
  unfold graft. destruct top as [|z top].
  - by rewrite !put_single_at.
  - unfold put. rewrite !update_cons_at by done.
    specialize (IH _ Hn). unfold graft, put in IH. by rewrite IH.
Qed.

Lemma node_at_graft top q X n F :
  node_at top F = Some n → node_at (top ++ q) (graft top X F) = node_at q X.
Proof.
  revert F. induction top as [|y top IH]; intros F Hn; [done|].
  apply node_at_cons_inv in Hn as (pre & c & post & -> & Hy & Hn).
  unfold graft. destruct top as [|z top].
  - rewrite put_single_at by done. simpl.
    by rewrite child_app_notin, child_cons_eq.
  - unfold put. rewrite update_cons_at by done.
    rewrite <-app_comm_cons. simpl node_at at 1.
    rewrite child_app_notin, child_cons_eq by done.
    specialize (IH _ Hn). unfold graft, put in IH. by rewrite <-IH.
Qed.

Lemma kind_at_graft_frame top q X F :
  ¬ top `prefix_of` q → kind_at q (graft top X F) = kind_at q F.
Proof.
  intros Hpre. destruct top as [|y top].
  - destruct Hpre. apply prefix_nil.
  - by apply kind_at_put_frame.
Qed.

End FsFacts.

(** * The category resolver *)



Lemma category_of_unfold file :
  category_of file
  = default "others" (category_loop (Str.splitext file).2 file_types).
Proof. unfold category_of. by destruct (Str.splitext file). Qed.

(** * Computations that only touch the directory tree *)

Ltac munfold :=
  unfold mbind, M_bind, mret, M_ret, ret, raise, get, modify, fs_call,
    fs_query, try_except in *.

Lemma set_fs_id st : set_fs (fs st) st = st.
Proof. by destruct st. Qed.

Lemma set_fs_set_fs a b st : set_fs a (set_fs b st) = set_fs a st.
Proof. done. Qed.

Lemma only_fs_ret {A} (a : A) : only_fs (ret a).
Proof. intros st. exists (fs st). by rewrite set_fs_id. Qed.

Lemma only_fs_raise {A} e : only_fs (raise (A:=A) e).
Proof. intros st. exists (fs st). by rewrite set_fs_id. Qed.

Lemma only_fs_bind {A B} (m : M A) (k : A → M B) :
  only_fs m → (∀ a, only_fs (k a)) → only_fs (m ≫= k).
Proof.
  intros Hm Hk st. munfold. destruct (Hm st) as [t1 Ht1].
  destruct (m st) as [st1 [a|e]]; simpl in *; subst.
  - destruct (Hk a (set_fs t1 st)) as [t2 Ht2]. exists t2. by rewrite Ht2.
  - by exists t1.
Qed.

Lemma only_fs_get {B} (k : organizer → M B) :
  (∀ st, only_fs (k st)) → only_fs (get ≫= k).
Proof. intros Hk st. munfold. apply Hk. Qed.

Lemma only_fs_call f : only_fs (fs_call f).
Proof.
  intros st. munfold. destruct (f (fs st)) as [t|e]; simpl.
  - by exists t.
  - exists (fs st). by rewrite set_fs_id.
Qed.

Lemma only_fs_query {A} (r : result A) : only_fs (fs_query r).
Proof. destruct r; [apply only_fs_ret|apply only_fs_raise]. Qed.

Lemma only_fs_try {A} (m : M A) h :
  only_fs m → (∀ e, only_fs (h e)) → only_fs (try_except m h).
Proof.
  intros Hm Hh st. munfold. destruct (Hm st) as [t1 Ht1].
  destruct (m st) as [st1 [a|e]]; simpl in *; subst.
  - by exists t1.
  - destruct (Hh e (set_fs t1 st)) as [t2 Ht2]. exists t2. by rewrite Ht2.
Qed.

Lemma only_fs_for_each {A} (l : list A) body :
  (∀ x, only_fs (body x)) → only_fs (for_each l body).
Proof.
  intros Hb. induction l as [|x l IH]; simpl.
  - apply only_fs_ret.
  - apply only_fs_bind; [apply Hb|done].
Qed.

Lemma only_fs_organize_file s t f : only_fs (organize_file s t f).
Proof.
  unfold organize_file.
  apply only_fs_bind; [apply only_fs_call|]. intros _.
  apply only_fs_get. intros st.
  apply only_fs_bind; [apply only_fs_call|]. intros _. apply only_fs_ret.
Qed.

Lemma only_fs_organize_loop s t files ops : only_fs (organize_loop s t files ops).
Proof.
  revert ops. induction files as [|f files IH]; intros ops; simpl.
  - apply only_fs_ret.
  - apply only_fs_bind; [apply only_fs_organize_file|]. intros r. apply IH.
Qed.

Lemma only_fs_restore_file op : only_fs (restore_file op).
Proof.
  unfold restore_file. apply only_fs_get. intros st.
  destruct (Fs.path_exists _ _); [|apply only_fs_ret].
  apply only_fs_bind; [apply only_fs_call|]. intros _. apply only_fs_call.
Qed.

Lemma only_fs_cleanup_dir root d : only_fs (cleanup_dir root d).
Proof.
  unfold cleanup_dir. apply only_fs_try.
  - apply only_fs_get. intros st.
    apply only_fs_bind; [apply only_fs_query|]. intros names.
    case_bool_decide; [apply only_fs_call|apply only_fs_ret].
  - intros e. destruct (is_OSError e); [apply only_fs_ret|apply only_fs_raise].
Qed.

Lemma only_fs_cleanup target : only_fs (cleanup target).
Proof.
  unfold cleanup. apply only_fs_get. intros st.
  apply only_fs_for_each. intros [[root dirs] files].
  apply only_fs_for_each. intros d. apply only_fs_cleanup_dir.
Qed.

(** The shape of a state after a computation that only touches the tree. *)
Lemma only_fs_run {A} (m : M A) st st1 r :
  only_fs m → m st = (st1, r) → st1 = set_fs (fs st1) st.
Proof.
  intros Hm Hrun. destruct (Hm st) as [t Ht]. rewrite Hrun in Ht. simpl in Ht.
  by subst.
Qed.

(** * [organize_by_type], step by step *)

Lemma bind_run {A B} (m : M A) (k : A → M B) st :
  (m ≫= k) st
  = match m st with
    | (st1, Ok a) => k a st1
    | (st1, Raise e) => (st1, Raise e)
    end.
Proof. done. Qed.

Lemma get_run st : get st = (st, Ok st).
Proof. done. Qed.

Lemma ret_run {A} (a : A) st : ret a st = (st, Ok a).
Proof. done. Qed.

Lemma raise_run {A} e st : raise (A:=A) e st = (st, Raise e).
Proof. done. Qed.

(** The state a successful call ends in: the tree after the loop, and the
    batch recorded in the history (file and attributes) and the timeline. *)
Lemma organize_by_type_inv now src dst st st' v :
  organize_by_type now src dst st = (st', Ok v) →
  let tgt := default src dst in
  ∃ tree0 names tree1 ops,
    Fs.path_exists src (fs st) = true ∧
    (if Fs.path_exists tgt (fs st) then tree0 = fs st
     else Fs.makedirs false tgt (fs st) = Ok tree0) ∧
    Fs.listdir src tree0 = Ok names ∧
    organize_loop src tgt (filter (λ f, Fs.isfile (src ++ [f]) tree0) names) []
      (set_fs tree0 st) = (set_fs tree1 st, Ok ops) ∧
    v = None ∧
    st' = (let op := Batch now "organize_by_type" src tgt ops in
           Organizer tree1 (Json [op]) (timeline_file st ++ [op]) [op] (Some op)).
Proof.
  intros Hrun tgt. unfold organize_by_type in Hrun. fold tgt in Hrun.
  rewrite bind_run, get_run in Hrun.
  destruct (Fs.path_exists src (fs st)) eqn:Hsrc; simpl in Hrun; [|done].
  assert (∃ tree0,
    (if Fs.path_exists tgt (fs st) then tree0 = fs st
     else Fs.makedirs false tgt (fs st) = Ok tree0) ∧
    (if negb (Fs.path_exists tgt (fs st))
     then fs_call (Fs.makedirs false tgt) else ret tt) st
    = (set_fs tree0 st, Ok tt)) as (tree0 & Htree0 & Hpre).
  { destruct (Fs.path_exists tgt (fs st)); simpl.
    - exists (fs st). by rewrite set_fs_id.
    - unfold fs_call.
      destruct (Fs.makedirs false tgt (fs st)) as [t|e] eqn:Hmk; [by exists t|].
      rewrite bind_run in Hrun. simpl in Hrun. unfold fs_call in Hrun.
      by rewrite Hmk in Hrun. }
  rewrite bind_run, Hpre, bind_run, get_run, bind_run in Hrun. simpl in Hrun.
  destruct (Fs.listdir src tree0) as [names|e] eqn:Hls; simpl in Hrun; [|done].
  rewrite bind_run in Hrun.
  destruct (organize_loop _ _ _ _ _) as [st1 [ops|e]] eqn:Hloop; [|done].
  pose proof (only_fs_run _ _ _ _ (only_fs_organize_loop _ _ _ _) Hloop) as Hst1.
  simpl in Hst1. rewrite Hst1 in Hloop.
  exists tree0, names, (fs st1), ops.
  assert (v = None ∧ st' =
    (let op := Batch now "organize_by_type" src tgt ops in
     Organizer (fs st1) (Json [op]) (timeline_file st ++ [op]) [op] (Some op)))
    as [-> ->]; [|done].
  rewrite Hst1 in Hrun. by inversion Hrun.
Qed.

(** * The unique-path generator *)

Lemma string_length_app s t :
  String.length (s +:+ t) = String.length s + String.length t.
Proof.
  induction s as [|a s IH]; [done|].
  change (String a s +:+ t) with (String a (s +:+ t)). simpl. by rewrite IH.
Qed.

Lemma string_app_inj_r s1 s2 t : s1 +:+ t = s2 +:+ t → s1 = s2.
Proof.
  revert s2. induction s1 as [|a s1 IH]; intros [|b s2] Heq.
  - done.
  - apply (f_equal String.length) in Heq.
    rewrite !string_length_app in Heq. simpl in Heq. lia.
  - apply (f_equal String.length) in Heq.
    rewrite !string_length_app in Heq. simpl in Heq. lia.
  - injection Heq as -> Heq. f_equal. by apply IH.
Qed.

Lemma splitext_snoc (d : path) f :
  splitext (d ++ [f]) = (d ++ [(Str.splitext f).1], (Str.splitext f).2).
Proof.
  unfold splitext. rewrite last_snoc, FsFacts.dirname_snoc.
  by destruct (Str.splitext f).
Qed.

Lemma candidate_snoc (d : path) b k e :
  candidate (d ++ [b]) k e = d ++ [b +:+ "_" +:+ pretty k +:+ e].
Proof. unfold candidate. by rewrite last_snoc, FsFacts.dirname_snoc. Qed.

Lemma dirname_candidate base k e : Fs.dirname (candidate base k e) = Fs.dirname base.
Proof. unfold candidate. apply FsFacts.dirname_snoc. Qed.

Lemma dirname_splitext p : Fs.dirname (splitext p).1 = Fs.dirname p.
Proof.
  unfold splitext. destruct (last p) as [f|] eqn:Hl; [|done].
  destruct (Str.splitext f). simpl. apply FsFacts.dirname_snoc.
Qed.

Lemma candidate_inj (d : path) b e k1 k2 :
  candidate (d ++ [b]) k1 e = candidate (d ++ [b]) k2 e → k1 = k2.
Proof.
  rewrite !candidate_snoc. intros Heq%app_inv_head. injection Heq as Heq.
  apply (inj (String.app b)), (inj (String.app "_")) in Heq.
  apply string_app_inj_r in Heq. by apply (inj pretty) in Heq.
Qed.

(** What the loop returns, when it returns: the first free candidate from
    [counter] on. *)
Lemma unique_loop_Some fuel fs base ext counter r :
  unique_loop fuel fs base ext counter = Some r →
  ∃ k, counter ≤ k ∧ r = candidate base k ext ∧
       Fs.path_exists r fs = false ∧
       ∀ j, counter ≤ j < k → Fs.path_exists (candidate base j ext) fs = true.
Proof.
  revert counter. induction fuel as [|fuel IH]; intros counter; simpl; [done|].
  destruct (Fs.path_exists (candidate base counter ext) fs) eqn:Hex.
  - intros (k & Hk & -> & Hfree & Hbusy)%IH. exists k. split_and!; [lia|done..|].
    intros j Hj. destruct (decide (j = counter)) as [->|]; [done|].
    apply Hbusy. lia.
  - intros [= <-]. exists counter. split_and!; [done..|]. intros j Hj. lia.
Qed.

Lemma unique_loop_None fuel fs base ext counter :
  unique_loop fuel fs base ext counter = None →
  ∀ j, counter ≤ j < counter + fuel →
       Fs.path_exists (candidate base j ext) fs = true.
Proof.
  revert counter. induction fuel as [|fuel IH]; intros counter; simpl.
  - intros _ j Hj. lia.
  - destruct (Fs.path_exists (candidate base counter ext) fs) eqn:Hex; [|done].
    intros Hnone j Hj. destruct (decide (j = counter)) as [->|]; [done|].
    apply (IH _ Hnone). lia.
Qed.

Lemma path_exists_child d x es fs :
  Fs.node_at d fs = Some (Dir es) →
  Fs.path_exists (d ++ [x]) fs = true → x ∈ es.*1.
Proof.
  intros Hd. unfold Fs.path_exists. rewrite FsFacts.node_at_app, Hd. simpl.
  destruct (Fs.child x es) eqn:Hc; [|done]. intros _.
  apply list_elem_of_fmap. eexists (x, _). split; [done|].
  by apply FsFacts.child_elem_of.
Qed.

(** The loop finds a free name before the fuel runs out: a directory with
    [n] entries cannot hold [n + 1] different candidates. *)
Lemma unique_loop_total base ext es fs counter :
  Fs.node_at (Fs.dirname base) fs = Some (Dir es) →
  is_Some (unique_loop (S (length es)) fs base ext counter).
Proof.
  intros Hd.
  destruct (unique_loop (S (length es)) fs base ext counter) eqn:Hloop;
    [by eexists|].
  exfalso. pose proof (unique_loop_None _ _ _ _ _ Hloop) as Hbusy.
  set (b := default "" (last base)).
  set (names := (λ k, b +:+ "_" +:+ pretty k +:+ ext) <$> seq counter (S (length es))).
  assert (NoDup names) as Hnd.
  { apply NoDup_fmap_2_strong; [|apply NoDup_seq].
    intros k1 k2 _ _ Heq.
    apply (inj (String.app b)), (inj (String.app "_")) in Heq.
    apply string_app_inj_r in Heq. by apply (inj pretty) in Heq. }
  assert (names ⊆+ es.*1) as Hsub.
  { apply NoDup_submseteq; [done|]. intros x (k & -> & Hk%elem_of_seq)%list_elem_of_fmap.
    apply (path_exists_child (Fs.dirname base) _ es fs Hd).
    apply (Hbusy k). lia. }
  apply submseteq_length in Hsub. unfold names in Hsub.
  rewrite !length_fmap, length_seq in Hsub. lia.
Qed.

Lemma unique_loop_fuel fs p :
  Fs.path_exists p fs = true →
  is_Some (unique_loop (unique_fuel fs p) fs (splitext p).1 (splitext p).2 1).
Proof.
  intros Hex. unfold unique_fuel.
  destruct (Fs.node_at (Fs.dirname p) fs) as [[c|es]|] eqn:Hpar.
  - destruct (decide (p = [])) as [->|Hne].
    + simpl in *. simplify_eq. by eexists.
    + destruct (FsFacts.path_snoc p Hne) as (d & x & -> & Hd & _).
      rewrite Hd in Hpar. unfold Fs.path_exists in Hex.
      rewrite FsFacts.node_at_app, Hpar in Hex. done.
  - apply unique_loop_total. by rewrite dirname_splitext.
  - destruct (decide (p = [])) as [->|Hne]; [done|].
    destruct (FsFacts.path_snoc p Hne) as (d & x & -> & Hd & _).
    rewrite Hd in Hpar. unfold Fs.path_exists in Hex.
    rewrite FsFacts.node_at_app, Hpar in Hex. done.
Qed.

Lemma get_unique_path_fresh fs p :
  Fs.path_exists p fs = false → _get_unique_path fs p = p.
Proof. intros H. unfold _get_unique_path. by rewrite H. Qed.

Lemma get_unique_path_taken fs p :
  Fs.path_exists p fs = true →
  ∃ k, 1 ≤ k ∧
    _get_unique_path fs p = candidate (splitext p).1 k (splitext p).2 ∧
    Fs.path_exists (candidate (splitext p).1 k (splitext p).2) fs = false ∧
    ∀ j, 1 ≤ j < k →
      Fs.path_exists (candidate (splitext p).1 j (splitext p).2) fs = true.
Proof.
  intros Hex. unfold _get_unique_path. rewrite Hex. simpl.
  destruct (unique_loop_fuel fs p Hex) as [r Hr].
  destruct (splitext p) as [base ext]. simpl in *. rewrite Hr. simpl.
  apply unique_loop_Some in Hr as (k & Hk & -> & Hfree & Hbusy). by exists k.
Qed.

Lemma get_unique_path_free fs p : Fs.path_exists (_get_unique_path fs p) fs = false.
Proof.
  destruct (Fs.path_exists p fs) eqn:Hex.
  - destruct (get_unique_path_taken fs p Hex) as (k & _ & -> & Hfree & _). done.
  - by rewrite get_unique_path_fresh.
Qed.

Lemma get_unique_path_dirname fs p :
  p ≠ [] → Fs.dirname (_get_unique_path fs p) = Fs.dirname p.
Proof.
  intros Hp. destruct (Fs.path_exists p fs) eqn:Hex.
  - destruct (get_unique_path_taken fs p Hex) as (k & _ & -> & _).
    by rewrite dirname_candidate, dirname_splitext.
  - by rewrite get_unique_path_fresh.
Qed.

(** * One pass of the organize loop *)

(** Moving a regular file: the step succeeds as soon as the category
    directory can be made, and puts the file at the unique path. *)
Lemma organize_file_run src tgt file st c fs1 :
  kind_at (src ++ [file]) (fs st) = Some (KFile c) →
  Fs.makedirs true (tgt ++ [category_of file]) (fs st) = Ok fs1 →
  let new_path := _get_unique_path fs1 ((tgt ++ [category_of file]) ++ [file]) in
  organize_file src tgt file st
  = (set_fs (Fs.put new_path (File c) (Fs.remove (src ++ [file]) fs1)) st,
     Ok (MoveRecord "move" (src ++ [file]) new_path)).
Proof.
  intros Hsrc Hmk new_path. unfold organize_file.
  rewrite bind_run. unfold fs_call at 1. rewrite Hmk.
  rewrite bind_run, get_run, bind_run. simpl fs. unfold fs_call. simpl fs.
  fold new_path.
  erewrite FsFacts.move_file_fresh; [done| | |].
  - by eapply FsFacts.makedirs_keeps.
  - apply FsFacts.path_exists_false, get_unique_path_free.
  - unfold new_path. rewrite get_unique_path_dirname.
    + rewrite FsFacts.dirname_snoc. by eapply FsFacts.makedirs_isdir.
    + by intros [? ?]%app_eq_nil.
Qed.

Lemma organize_file_raise src tgt file st e :
  Fs.makedirs true (tgt ++ [category_of file]) (fs st) = Raise e →
  organize_file src tgt file st = (st, Raise e).
Proof.
  intros Hmk. unfold organize_file. rewrite bind_run. unfold fs_call at 1.
  by rewrite Hmk.
Qed.

Lemma split_last_dot_app s b e : Str.split_last_dot s = Some (b, e) → b +:+ e = s.
Proof.
  revert b e. induction s as [|a s IH]; intros b e; simpl; [done|].
  destruct (Str.split_last_dot s) as [[b' e']|].
  - intros [= <- <-]. change (String a b' +:+ e') with (String a (b' +:+ e')).
    f_equal. by apply IH.
  - destruct (Str.is_dot a); [|done]. by intros [= <- <-].
Qed.

Lemma splitext_app f : (Str.splitext f).1 +:+ (Str.splitext f).2 = f.
Proof.
  unfold Str.splitext. destruct (Str.split_last_dot f) as [[b e]|] eqn:Hs.
  - destruct (Str.all_dots b); simpl.
    + clear. induction f as [|a f IH]; [done|].
      change (String a f +:+ "") with (String a (f +:+ "")). by rewrite IH.
    + by apply split_last_dot_app.
  - simpl. clear. induction f as [|a f IH]; [done|].
    change (String a f +:+ "") with (String a (f +:+ "")). by rewrite IH.
Qed.

(** C5.  The unique-path generator returns a path at which nothing exists:
    the path itself when it is free, and otherwise the first free candidate
    among base_1, base_2, ..., the counter standing before the extension.
    So when the place a file is organized to already holds a file of that
    name, the step succeeds, the file that was there keeps its place and
    content, the moved file arrives under a suffixed name, and every other
    file keeps its content. *)
Theorem unique_path_no_overwrite (tree : node) (p : path) :
  (Fs.path_exists p tree = false → _get_unique_path tree p = p) ∧
  (Fs.path_exists p tree = true →
     ∃ k, 1 ≤ k ∧
       _get_unique_path tree p = candidate (splitext p).1 k (splitext p).2 ∧
       Fs.path_exists (_get_unique_path tree p) tree = false ∧
       ∀ j, 1 ≤ j < k →
         Fs.path_exists (candidate (splitext p).1 j (splitext p).2) tree = true) ∧
  (∀ d f k,
     candidate (splitext (d ++ [f])).1 k (splitext (d ++ [f])).2
     = d ++ [(Str.splitext f).1 +:+ "_" +:+ pretty k +:+ (Str.splitext f).2] ∧
     (Str.splitext f).1 +:+ (Str.splitext f).2 = f) ∧
  (∀ src tgt file st c0 c1,
     let dest := (tgt ++ [category_of file]) ++ [file] in
     fs st = tree →
     Fs.file_at dest tree = Some c0 →
     Fs.file_at (src ++ [file]) tree = Some c1 →
     src ++ [file] ≠ dest →
     ∃ st' k, 1 ≤ k ∧
       let new_path := candidate (splitext dest).1 k (splitext dest).2 in
       organize_file src tgt file st
         = (st', Ok (MoveRecord "move" (src ++ [file]) new_path)) ∧
       new_path ≠ dest ∧
       Fs.file_at dest (fs st') = Some c0 ∧
       Fs.file_at new_path (fs st') = Some c1 ∧
       ∀ q c, q ≠ src ++ [file] →
         Fs.file_at q tree = Some c → Fs.file_at q (fs st') = Some c).
Proof.
  split_and!.
  - apply get_unique_path_fresh.
  - intros Hex. destruct (get_unique_path_taken tree p Hex) as (k & Hk & Hr & Hfree & Hbusy).
    exists k. by rewrite Hr.
  - intros d f k. split; [|apply splitext_app].
    rewrite splitext_snoc. cbn [fst snd]. by rewrite candidate_snoc.
  - intros src tgt file st c0 c1 dest Hst Hdest%FsFacts.file_at_kind
      Hsrc%FsFacts.file_at_kind Hne. subst tree.
    assert (kind_at (tgt ++ [category_of file]) (fs st) = Some KDir) as Hdir.
    { destruct (FsFacts.kind_at_prefix (tgt ++ [category_of file]) dest (fs st))
        as [?|Heq]; [by apply prefix_app_r|by eexists|done|].
      apply (f_equal length) in Heq. unfold dest in Heq.
      rewrite (length_app _ [file]) in Heq. simpl in Heq. lia. }
    pose proof (FsFacts.makedirs_existing_dir _ _ Hdir) as Hmk.
    assert (Fs.path_exists dest (fs st) = true) as Hex.
    { apply FsFacts.path_exists_true. by eexists. }
    destruct (get_unique_path_taken (fs st) dest Hex) as (k & Hk & Hr & Hfree & Hbusy).
    pose proof (organize_file_run src tgt file st c1 (fs st) Hsrc Hmk) as Hrun.
    simpl in Hrun. fold dest in Hrun. rewrite Hr in Hrun.
    eexists _, k. split; [done|]. split; [exact Hrun|]. simpl.
    set (new_path := candidate (splitext dest).1 k (splitext dest).2) in *.
    apply FsFacts.path_exists_false in Hfree.
    assert (kind_at (Fs.dirname new_path) (fs st) = Some KDir) as Hpar.
    { unfold new_path. rewrite dirname_candidate, dirname_splitext.
      unfold dest. by rewrite FsFacts.dirname_snoc. }
    pose proof (λ q, FsFacts.kind_at_move_file_fresh _ _ _ _ _ q Hsrc Hfree Hpar
      (FsFacts.move_file_fresh _ _ _ _ Hsrc Hfree Hpar)) as Hkind.
    assert (new_path ≠ dest) as Hnd by (intros Heq; congruence).
    split_and!; [done| | |].
    + apply FsFacts.file_at_kind. rewrite Hkind.
      by rewrite !decide_False by done.
    + apply FsFacts.file_at_kind. rewrite Hkind. by rewrite decide_True.
    + intros q c Hq Hc%FsFacts.file_at_kind. apply FsFacts.file_at_kind.
      rewrite Hkind. destruct (decide (q = new_path)) as [->|]; [congruence|].
      by rewrite !decide_False by done.
Qed.

Lemma unique_path_no_overwrite_example :
  ∃ st' k, 1 ≤ k ∧
    organize_file ["in"] ["out"] "photo.jpg" (organizer_of collision_fs)
      = (st', Ok (MoveRecord "move" ["in"; "photo.jpg"]
                    (candidate (splitext ["out"; "images"; "photo.jpg"]).1 k
                       (splitext ["out"; "images"; "photo.jpg"]).2))) ∧
    Fs.file_at ["out"; "images"; "photo.jpg"] (fs st') = Some "old" ∧
    Fs.file_at ["out"; "images"; "photo_1.jpg"] (fs st') = Some "older" ∧
    Fs.file_at ["out"; "images"; "photo_2.jpg"] (fs st') = Some "new".
Proof.
  destruct (proj2 (proj2 (proj2 (unique_path_no_overwrite collision_fs [])))
              ["in"] ["out"] "photo.jpg" (organizer_of collision_fs) "old" "new"
              eq_refl eq_refl eq_refl ltac:(done))
    as (st' & k & Hk & Hrun & _ & Hold & Hnew & Hrest).
  exists st', k. split_and!; [done|exact Hrun|exact Hold| |].
  - by apply Hrest.
  - vm_compute in Hrun. by injection Hrun as <- _.
Defined.

(** * Where a file is put *)



(** * Undo with nothing to undo *)



(** * [undo_last_operation], step by step *)

Lemma load_history_run st : _load_history st = (loaded st, Ok tt).
Proof.
  unfold loaded, _load_history. rewrite bind_run, get_run.
  destruct (history_file st) as [| |h]; try done.
  rewrite bind_run. simpl. by destruct (last h).
Qed.

Lemma loaded_frame st :
  fs (loaded st) = fs st ∧ history_file (loaded st) = history_file st ∧
  timeline_file (loaded st) = timeline_file st.
Proof.
  unfold loaded, _load_history. rewrite bind_run, get_run.
  destruct (history_file st) as [| |h] eqn:Hf; try done.
  rewrite bind_run. simpl. by destruct (last h).
Qed.

Lemma loaded_history st :
  history (loaded st)
  = match history_file st with
    | NoFile => history st
    | Corrupt => []
    | Json h => h
    end.
Proof.
  unfold loaded, _load_history. rewrite bind_run, get_run.
  destruct (history_file st) as [| |h] eqn:Hf; try done.
  rewrite bind_run. simpl. by destruct (last h).
Qed.

(** The whole of [undo_last_operation]: load, then (unless the history is
    empty) replay the records of its first batch in reverse, clean up, clear
    the history and extend the timeline; an exception on the way ends the
    call with [False] in the state reached. *)
Lemma undo_last_operation_unfold now st :
  undo_last_operation now st
  = match history (loaded st) with
    | [] => (loaded st, Ok false)
    | last_op :: _ =>
        match for_each (rev (operations last_op)) restore_file (loaded st) with
        | (st1, Raise _) => (st1, Ok false)
        | (st1, Ok _) =>
            match cleanup (target_dir last_op) st1 with
            | (st2, Raise _) => (st2, Ok false)
            | (st2, Ok _) =>
                (Organizer (fs st2) (Json [])
                   (timeline_file st2 ++ [undo_entry now last_op]) [] None,
                 Ok true)
            end
        end
    end.
Proof.
  unfold undo_last_operation. rewrite bind_run, load_history_run, bind_run, get_run.
  destruct (history (loaded st)) as [|last_op rest] eqn:Hh; [done|].
  simpl. unfold try_except, undo_body. rewrite bind_run, get_run, Hh, bind_run.
  destruct (for_each _ _ _) as [st1 [[]|e]]; [|done].
  rewrite bind_run. by destruct (cleanup _ _) as [st2 [[]|e]].
Qed.

Lemma undoable_alt st :
  undoable st = match history (loaded st) with
                | [] => []
                | last_op :: _ => operations last_op
                end.
Proof. done. Qed.

(** * The history keeps one batch *)


Lemma loaded_stored st op :
  history_file st = Json [op] → history st = [op] → last_operation st = Some op →
  loaded st = st.
Proof.
  intros Hf Hh Hl. unfold loaded, _load_history. rewrite bind_run, get_run, Hf.
  rewrite bind_run. simpl. destruct st; simpl in *. by subst.
Qed.



(** * What organize hands back *)




(** * The preconditions of organize *)

Lemma organize_file_keeps src tgt file st st' r q k :
  organize_file src tgt file st = (st', Ok r) →
  kind_at q (fs st) = Some k →
  ¬ (src ++ [file]) `prefix_of` q →
  kind_at q (fs st') = Some k.
Proof.
  unfold organize_file. rewrite bind_run. unfold fs_call at 1.
  destruct (Fs.makedirs true _ (fs st)) as [fs1|e] eqn:Hmk; [|done].
  rewrite bind_run, get_run, bind_run. unfold fs_call. simpl fs.
  destruct (Fs.move _ _ fs1) as [fs2|e] eqn:Hmv; [|done].
  intros [= <- _] Hq Hpre. simpl.
  eapply FsFacts.move_fresh_keeps; [|exact Hmv| |done].
  - apply FsFacts.path_exists_false, get_unique_path_free.
  - by eapply FsFacts.makedirs_keeps.
Qed.

Lemma organize_loop_keeps src tgt files ops st st' ops' q k :
  organize_loop src tgt files ops st = (st', Ok ops') →
  kind_at q (fs st) = Some k →
  (∀ file, file ∈ files → ¬ (src ++ [file]) `prefix_of` q) →
  kind_at q (fs st') = Some k.
Proof.
  revert ops st. induction files as [|file files IH]; intros ops st; simpl.
  - by intros [= <- _].
  - rewrite bind_run.
    destruct (organize_file src tgt file st) as [st1 [r|e]] eqn:Hfile; [|done].
    intros Hloop Hq Hfiles. eapply IH; [exact Hloop| |].
    + eapply organize_file_keeps; [exact Hfile|done|]. apply Hfiles. by left.
    + intros f Hf. apply Hfiles. by right.
Qed.




(** * A failure inside the loop *)

Lemma organize_loop_app src tgt l1 l2 ops st :
  organize_loop src tgt (l1 ++ l2) ops st
  = match organize_loop src tgt l1 ops st with
    | (st1, Ok ops1) => organize_loop src tgt l2 ops1 st1
    | (st1, Raise e) => (st1, Raise e)
    end.
Proof.
  revert ops st. induction l1 as [|f l1 IH]; intros ops st; simpl; [done|].
  rewrite !bind_run. destruct (organize_file src tgt f st) as [st1 [r|e]]; [|done].
  apply IH.
Qed.

Lemma organize_file_raise_files src tgt file st st' e q :
  organize_file src tgt file st = (st', Raise e) →
  Fs.file_at q (fs st') = Fs.file_at q (fs st).
Proof.
  unfold organize_file. rewrite bind_run. unfold fs_call at 1.
  destruct (Fs.makedirs true _ (fs st)) as [fs1|e1] eqn:Hmk; [|by intros [= <- _]].
  rewrite bind_run, get_run, bind_run. unfold fs_call. simpl fs.
  destruct (Fs.move _ _ fs1) as [fs2|e2] eqn:Hmv; [done|].
  intros [= <- _]. simpl. by eapply FsFacts.makedirs_file_at.
Qed.

(** C8.  When the body of the loop raises for some file, after the files
    before it were moved, the call ends with that exception in the state
    the failing step left: the files after it are not looked at, the tree
    holds every file where the completed moves put it (the failing step
    changed no file), and the history file, the timeline and the
    organizer's attributes are those from before the call. *)
Theorem organize_failure_keeps_moves now src dst st tree0 names
    pre file post st1 ops1 st2 e :
  Fs.path_exists src (fs st) = true →
  (if Fs.path_exists (default src dst) (fs st) then tree0 = fs st
   else Fs.makedirs false (default src dst) (fs st) = Ok tree0) →
  Fs.listdir src tree0 = Ok names →
  filter (λ f, Fs.isfile (src ++ [f]) tree0) names = pre ++ file :: post →
  organize_loop src (default src dst) pre [] (set_fs tree0 st) = (st1, Ok ops1) →
  organize_file src (default src dst) file st1 = (st2, Raise e) →
  organize_by_type now src dst st = (st2, Raise e) ∧
  (∀ q, Fs.file_at q (fs st2) = Fs.file_at q (fs st1)) ∧
  history_file st2 = history_file st ∧
  timeline_file st2 = timeline_file st ∧
  history st2 = history st ∧
  last_operation st2 = last_operation st.
Proof.
  intros Hsrc Htree0 Hls Hfiles Hpre Hfile.
  assert (organize_by_type now src dst st = (st2, Raise e)) as Hrun.
  { unfold organize_by_type. rewrite bind_run, get_run, Hsrc. simpl.
    rewrite bind_run.
    assert ((if negb (Fs.path_exists (default src dst) (fs st))
             then fs_call (Fs.makedirs false (default src dst)) else ret tt) st
            = (set_fs tree0 st, Ok tt)) as ->.
    { destruct (Fs.path_exists (default src dst) (fs st)); simpl.
      - subst tree0. by rewrite set_fs_id.
      - unfold fs_call. by rewrite Htree0. }
    rewrite bind_run, get_run, bind_run. simpl fs. rewrite Hls. simpl.
    rewrite bind_run, Hfiles, organize_loop_app, Hpre. simpl.
    by rewrite bind_run, Hfile. }
  split; [done|]. split; [intros q; by eapply organize_file_raise_files|].
  pose proof (only_fs_run _ _ _ _ (only_fs_organize_loop _ _ _ _) Hpre) as H1.
  pose proof (only_fs_run _ _ _ _ (only_fs_organize_file _ _ _) Hfile) as H2.
  rewrite H2, H1. done.
Qed.

Lemma organize_failure_keeps_moves_example :
  organize_by_type "t1" ["home"] None blocked_state
    = (blocked_after_first, Raise FileExistsError) ∧
  Fs.file_at ["home"; "images"; "a.jpg"] (fs blocked_after_first) = Some "A" ∧
  Fs.file_at ["home"; "others"] (fs blocked_after_first) = Some "O" ∧
  Fs.file_at ["home"; "b.txt"] (fs blocked_after_first) = Some "B" ∧
  history_file blocked_after_first = Json [] ∧
  timeline_file blocked_after_first = [].
Proof.
  destruct (organize_failure_keeps_moves "t1" ["home"] None blocked_state blocked_fs
              ["a.jpg"; "others"; "b.txt"] ["a.jpg"] "others" ["b.txt"]
              blocked_after_first
              [MoveRecord "move" ["home"; "a.jpg"] ["home"; "images"; "a.jpg"]]
              blocked_after_first FileExistsError)
    as (Hrun & _ & Hhist & Htime & _); [by vm_compute..|].
  split_and!; [exact Hrun|by vm_compute..|exact Hhist|exact Htime].
Defined.

(** * The cleanup after undo *)

Lemma for_each_app {A} (l1 l2 : list A) body st :
  for_each (l1 ++ l2) body st
  = match for_each l1 body st with
    | (st1, Ok _) => for_each l2 body st1
    | (st1, Raise e) => (st1, Raise e)
    end.
Proof.
  revert st. induction l1 as [|x l1 IH]; intros st; simpl; [done|].
  rewrite !bind_run. destruct (body x st) as [st1 [[]|e]]; [apply IH|done].
Qed.

Lemma for_each_singleton {A} (x : A) body st :
  for_each [x] body st
  = match body x st with
    | (st1, Ok _) => (st1, Ok tt)
    | (st1, Raise e) => (st1, Raise e)
    end.
Proof. simpl. rewrite bind_run. by destruct (body x st) as [st1 [[]|e]]. Qed.

(** One test of the cleanup loop: the tree changes only by losing a
    directory that is empty at that moment. *)
Lemma cleanup_dir_run root d st :
  cleanup_dir root d st
  = match Fs.node_at (root ++ [d]) (fs st) with
    | Some (Dir []) => (set_fs (Fs.remove (root ++ [d]) (fs st)) st, Ok tt)
    | _ => (st, Ok tt)
    end.
Proof.
  unfold cleanup_dir, try_except. rewrite bind_run, get_run, bind_run.
  unfold Fs.listdir.
  destruct (Fs.node_at (root ++ [d]) (fs st)) as [[c|[|e es]]|] eqn:Hn; simpl; try done.
  unfold fs_call, Fs.rmdir. rewrite Hn.
  rewrite decide_False by (by intros [? ?]%app_eq_nil). done.
Qed.

Lemma prune_Dir es :
  prune (Dir es)
  = Dir (filter (λ e, negb (is_empty_dir e.2)) (prod_map id prune <$> es)).
Proof.
  simpl. do 2 f_equal. induction es as [|[x c] es IH]; [done|].
  simpl. by rewrite IH.
Qed.

Lemma wf_Dir es :
  wf (Dir es) ↔ NoDup es.*1 ∧ Forall (λ e, wf e.2) es.
Proof.
  simpl. apply and_iff_compat_l. induction es as [|[x c] es IH]; simpl.
  - split; [constructor|done].
  - rewrite Forall_cons, IH. done.
Qed.

Lemma walk_Dir top es :
  walk top (Dir es)
  = (es ≫= λ e, walk (top ++ [e.1]) e.2) ++ [(top, subdirs es, subfiles es)].
Proof.
  simpl. f_equal. induction es as [|[x c] es IH]; [done|].
  simpl. by rewrite IH.
Qed.

Lemma subdirs_cons_dir x es rest : subdirs ((x, Dir es) :: rest) = x :: subdirs rest.
Proof. done. Qed.

Lemma subdirs_cons_file x c rest : subdirs ((x, File c) :: rest) = subdirs rest.
Proof. done. Qed.

Lemma is_Dir_prune n : is_Dir (prune n) = is_Dir n.
Proof. by destruct n. Qed.

Lemma subdirs_prune es : subdirs (prod_map id prune <$> es) = subdirs es.
Proof.
  induction es as [|[x c] es IH]; [done|].
  destruct c as [c|es']; rewrite fmap_cons.
  - unfold prod_map at 1. simpl fst. simpl snd. simpl prune.
    by rewrite !subdirs_cons_file.
  - unfold prod_map at 1. simpl fst. simpl snd. rewrite prune_Dir.
    by rewrite !subdirs_cons_dir, IH.
Qed.

Lemma names_prune (es : list (string * node)) :
  (prod_map id prune <$> es).*1 = es.*1.
Proof. induction es as [|[x c] es IH]; [done|]. by rewrite !fmap_cons, IH. Qed.

(** The walk below the children of a directory prunes each child in its
    place. *)
Lemma cleanup_children top todo :
  Forall (λ e, ∀ top' st',
            Fs.node_at top' (fs st') = Some e.2 → wf e.2 →
            for_each (walk top' e.2) cleanup_body st'
            = (set_fs (graft top' (prune e.2) (fs st')) st', Ok tt)) todo →
  Forall (λ e, wf e.2) todo →
  ∀ done st,
    NoDup (done ++ todo).*1 →
    Fs.node_at top (fs st) = Some (Dir (done ++ todo)) →
    for_each (todo ≫= λ e, walk (top ++ [e.1]) e.2) cleanup_body st
    = (set_fs (graft top (Dir (done ++ (prod_map id prune <$> todo))) (fs st)) st,
       Ok tt).
Proof.
  intros HIH Hwf. induction todo as [|[x c] todo IH]; intros done st Hnd Htop.
  - simpl. rewrite app_nil_r in *. by rewrite (FsFacts.graft_same _ _ _ Htop), set_fs_id.
  - apply Forall_cons in HIH as [Hc HIH]. apply Forall_cons in Hwf as [Hwc Hwf].
    simpl in Hc, Hwc.
    assert (x ∉ done.*1) as Hx.
    { rewrite fmap_app in Hnd. apply NoDup_app in Hnd as (_ & Hdisj & _).
      intros Hin. apply (Hdisj _ Hin). simpl. left. }
    assert (Fs.node_at (top ++ [x]) (fs st) = Some c) as Hchild.
    { rewrite FsFacts.node_at_app, Htop. simpl.
      by rewrite FsFacts.child_app_notin, FsFacts.child_cons_eq. }
    rewrite bind_cons, for_each_app. simpl fst. simpl snd.
    rewrite (Hc _ _ Hchild Hwc).
    assert (graft (top ++ [x]) (prune c) (fs st)
            = graft top (Dir (done ++ (x, prune c) :: todo)) (fs st)) as Hstep.
    { transitivity (Fs.put (top ++ [x]) (prune c) (fs st)).
      { unfold graft. by destruct (top ++ [x]) eqn:E; [apply app_eq_nil in E as [_ ?]|]. }
      unfold Fs.put. rewrite (FsFacts.update_within _ _ _ _ _ Htop) by done.
      f_equal. by apply FsFacts.put_single_at. }
    rewrite Hstep.
    rewrite (IH HIH Hwf (done ++ [(x, prune c)])).
    + simpl fs. rewrite (FsFacts.graft_graft _ _ _ _ _ Htop).
      by rewrite <-(assoc (++)).
    + rewrite <-(assoc (++)). simpl. rewrite !fmap_app in *. done.
    + simpl fs. rewrite <-(app_nil_r top) at 1.
      rewrite (FsFacts.node_at_graft _ _ _ _ _ Htop). simpl.
      by rewrite <-(assoc (++)).
Qed.

(** The loop over [dirs] removes the children that are empty
    directories. *)
Lemma cleanup_empty_children top todo :
  ∀ done st,
    NoDup (done ++ todo).*1 →
    Fs.node_at top (fs st) = Some (Dir (done ++ todo)) →
    for_each (subdirs todo) (cleanup_dir top) st
    = (set_fs (graft top (Dir (done ++ filter (λ e, negb (is_empty_dir e.2)) todo))
                 (fs st)) st, Ok tt).
Proof.
  induction todo as [|[x c] todo IH]; intros done st Hnd Htop.
  - simpl. rewrite filter_nil. by rewrite (FsFacts.graft_same _ _ _ Htop), set_fs_id.
  - assert ((x ∉ done.*1) ∧ (x ∉ todo.*1)) as [Hx Hx'].
    { rewrite fmap_app in Hnd. apply NoDup_app in Hnd as (_ & Hdisj & Hnd').
      simpl in Hnd'. apply NoDup_cons in Hnd' as [? _]. split; [|done].
      intros Hin. apply (Hdisj _ Hin). simpl. left. }
    assert (Fs.node_at (top ++ [x]) (fs st) = Some c) as Hchild.
    { rewrite FsFacts.node_at_app, Htop. simpl.
      by rewrite FsFacts.child_app_notin, FsFacts.child_cons_eq. }
    assert (∀ st', fs st' = fs st →
      is_empty_dir c = false →
      for_each (subdirs todo) (cleanup_dir top) st'
      = (set_fs (graft top
           (Dir (done ++ filter (λ e, negb (is_empty_dir e.2)) ((x, c) :: todo)))
           (fs st')) st', Ok tt)) as Hkeep.
    { intros st' Hst' Hc. rewrite filter_cons_True by (simpl; by rewrite Hc).
      rewrite (IH (done ++ [(x, c)]) st').
      - by rewrite <-(assoc (++)).
      - by rewrite <-(assoc (++)).
      - rewrite Hst', <-(assoc (++)). done. }
    destruct c as [c|es].
    + rewrite subdirs_cons_file. by apply Hkeep.
    + rewrite subdirs_cons_dir. simpl for_each. rewrite bind_run, cleanup_dir_run, Hchild.
      destruct es as [|e es]; [|by apply Hkeep].
      rewrite filter_cons_False by (simpl; tauto).
      assert (Fs.remove (top ++ [x]) (fs st)
              = graft top (Dir (done ++ todo)) (fs st)) as Hstep.
      { unfold Fs.remove. rewrite (FsFacts.update_within _ _ _ _ _ Htop) by done.
        f_equal. simpl. rewrite FsFacts.entries_update_at by done.
        by rewrite FsFacts.entries_remove_notin. }
      rewrite Hstep.
      rewrite (IH done).
      * simpl fs. by rewrite (FsFacts.graft_graft _ _ _ _ _ Htop).
      * rewrite !fmap_app in *. simpl in Hnd.
        apply NoDup_app in Hnd as (? & Hdisj & [_ ?]%NoDup_cons).
        apply NoDup_app. split_and!; [done| |done].
        intros y Hy Hy'. apply (Hdisj y Hy). by right.
      * simpl fs. rewrite <-(app_nil_r top) at 1.
        by rewrite (FsFacts.node_at_graft _ _ _ _ _ Htop).
Qed.

(** The cleanup loop over the walk of a well-formed tree prunes it. *)
Lemma cleanup_walk_prune n :
  ∀ top st,
    Fs.node_at top (fs st) = Some n → wf n →
    for_each (walk top n) cleanup_body st
    = (set_fs (graft top (prune n) (fs st)) st, Ok tt).
Proof.
  induction n as [c|es IH] using FsFacts.node_nested_ind; intros top st Htop Hwf.
  - simpl. by rewrite (FsFacts.graft_same _ _ _ Htop), set_fs_id.
  - apply wf_Dir in Hwf as [Hnd Hwf].
    rewrite walk_Dir, for_each_app.
    rewrite (cleanup_children top es IH Hwf [] st) by done.
    rewrite for_each_singleton.
    change (cleanup_body (top, subdirs es, subfiles es))
      with (for_each (subdirs es) (cleanup_dir top)).
    rewrite <-subdirs_prune.
    rewrite (cleanup_empty_children top _ []).
    + simpl fs. rewrite (FsFacts.graft_graft _ _ _ _ _ Htop).
      by rewrite prune_Dir.
    + by rewrite app_nil_l, names_prune.
    + simpl fs. rewrite <-(app_nil_r top) at 1.
      by rewrite (FsFacts.node_at_graft _ _ _ _ _ Htop).
Qed.

Lemma child_prune x es :
  NoDup es.*1 →
  Fs.child x (filter (λ e, negb (is_empty_dir e.2)) (prod_map id prune <$> es))
  = match Fs.child x es with
    | Some c => if is_empty_dir (prune c) then None else Some (prune c)
    | None => None
    end.
Proof.
  induction es as [|[z c] es IH]; [done|]. rewrite !fmap_cons.
  intros [Hz Hnd]%NoDup_cons. specialize (IH Hnd). simpl in Hz.
  change (prod_map id prune (z, c)) with (z, prune c).
  rewrite FsFacts.child_cons.
  destruct (decide (x = z)) as [->|Hxz].
  - destruct (is_empty_dir (prune c)) eqn:He.
    + rewrite filter_cons_False by (simpl; rewrite He; tauto).
      rewrite IH. by apply FsFacts.child_None in Hz as ->.
    + rewrite filter_cons_True by (simpl; by rewrite He).
      by rewrite FsFacts.child_cons_eq.
  - destruct (is_empty_dir (prune c)) eqn:He.
    + by rewrite filter_cons_False by (simpl; rewrite He; tauto).
    + rewrite filter_cons_True by (simpl; by rewrite He).
      by rewrite FsFacts.child_cons, decide_False.
Qed.

Lemma wf_child x c es : wf (Dir es) → Fs.child x es = Some c → wf c.
Proof.
  intros [_ Hall]%wf_Dir Hc%FsFacts.child_elem_of.
  by apply (proj1 (Forall_forall _ _) Hall (x, c)).
Qed.

(** Pruning takes every empty directory away, keeps every file, and keeps
    the root of the tree. *)
Lemma node_at_prune_empty q n :
  wf n → q ≠ [] → Fs.node_at q n = Some (Dir []) → Fs.node_at q (prune n) = None.
Proof.
  revert n. induction q as [|x q IH]; intros n Hwf Hq Hn; [done|].
  destruct n as [c|es]; [done|]. rewrite prune_Dir. simpl in *.
  rewrite child_prune by by apply wf_Dir in Hwf as [? _].
  destruct (Fs.child x es) as [c|] eqn:Hc; [|done].
  destruct (is_empty_dir (prune c)) eqn:He; [done|].
  destruct q as [|y q].
  - simpl in Hn. by simplify_eq.
  - apply IH; [by eapply wf_child|done..].
Qed.

Lemma file_at_prune q n : wf n → Fs.file_at q (prune n) = Fs.file_at q n.
Proof.
  revert n. induction q as [|x q IH]; intros n Hwf.
  - destruct n as [c|es]; [done|]. by rewrite prune_Dir.
  - destruct n as [c|es]; [done|]. rewrite prune_Dir. unfold Fs.file_at in *. simpl.
    rewrite child_prune by by apply wf_Dir in Hwf as [? _].
    destruct (Fs.child x es) as [c|] eqn:Hc; [|done].
    specialize (IH c (wf_child _ _ _ Hwf Hc)).
    destruct (is_empty_dir (prune c)) eqn:He; [|done].
    rewrite <-IH. destruct (prune c) as [|[|]]; try done. by destruct q.
Qed.

Lemma kind_of_prune n : kind_of (prune n) = kind_of n.
Proof. by destruct n. Qed.

Lemma cleanup_run target st n :
  Fs.node_at target (fs st) = Some n → wf n →
  cleanup target st = (set_fs (graft target (prune n) (fs st)) st, Ok tt).
Proof.
  intros Hn Hwf. unfold cleanup. rewrite bind_run, get_run. unfold os_walk.
  rewrite Hn. by apply cleanup_walk_prune.
Qed.

(** C10.  The cleanup phase of undo, on a target whose tree is well formed:
    it ends normally; every directory strictly below the target that is
    empty when the cleanup starts is gone afterwards, whoever made it; the
    target itself is still there; every file is where it was, so a
    directory with a file anywhere below it stays; and each single test of
    the loop either changes nothing or removes a directory that is empty at
    that moment. *)
Theorem cleanup_removes_empty_dirs target st n :
  Fs.node_at target (fs st) = Some n →
  wf n →
  ∃ st',
    cleanup target st = (st', Ok tt) ∧
    (∀ q, q ≠ [] → Fs.node_at (target ++ q) (fs st) = Some (Dir []) →
          Fs.path_exists (target ++ q) (fs st') = false) ∧
    kind_at target (fs st') = kind_at target (fs st) ∧
    (∀ q, Fs.file_at q (fs st') = Fs.file_at q (fs st)) ∧
    (∀ q r c, Fs.file_at (q ++ r) (fs st) = Some c →
              kind_at q (fs st') = kind_at q (fs st)) ∧
    (∀ root d st0,
       cleanup_dir root d st0 = (st0, Ok tt) ∨
       (Fs.node_at (root ++ [d]) (fs st0) = Some (Dir []) ∧
        cleanup_dir root d st0
        = (set_fs (Fs.remove (root ++ [d]) (fs st0)) st0, Ok tt))).
Proof.
  intros Hn Hwf. eexists. split; [by apply cleanup_run|]. simpl.
  assert (∀ q, Fs.file_at q (graft target (prune n) (fs st)) = Fs.file_at q (fs st))
    as Hfiles.
  { intros q. destruct (decide (target `prefix_of` q)) as [[r ->]|Hpre].
    - unfold Fs.file_at. rewrite (FsFacts.node_at_graft _ _ _ _ _ Hn).
      rewrite FsFacts.node_at_app, Hn. simpl. by apply file_at_prune.
    - by apply FsFacts.file_at_kind_eq, FsFacts.kind_at_graft_frame. }
  split_and!.
  - intros q Hq Hempty. unfold Fs.path_exists.
    rewrite (FsFacts.node_at_graft _ _ _ _ _ Hn).
    rewrite FsFacts.node_at_app, Hn in Hempty. simpl in Hempty.
    by rewrite node_at_prune_empty.
  - unfold kind_at. rewrite <-(app_nil_r target) at 1.
    rewrite (FsFacts.node_at_graft _ _ _ _ _ Hn), Hn. simpl.
    by rewrite kind_of_prune.
  - done.
  - intros q r c Hc. pose proof Hc as Hc'. rewrite <-Hfiles in Hc'.
    apply FsFacts.file_at_kind in Hc, Hc'.
    destruct r as [|x r].
    + rewrite app_nil_r in *. congruence.
    + unfold kind_at in Hc, Hc'.
      destruct (Fs.node_at (q ++ x :: r) (fs st)) eqn:H1; [|done].
      destruct (Fs.node_at (q ++ x :: r) (graft target (prune n) (fs st))) eqn:H2; [|done].
      apply FsFacts.node_at_below_dir in H1 as [es1 H1].
      apply FsFacts.node_at_below_dir in H2 as [es2 H2].
      unfold kind_at. by rewrite H1, H2.
  - intros root d st0. rewrite cleanup_dir_run.
    destruct (Fs.node_at (root ++ [d]) (fs st0)) as [[c|[|e es]]|]; auto.
Qed.

Lemma cleanup_removes_empty_dirs_example :
  ∃ st',
    cleanup ["t"] (organizer_of nested_fs) = (st', Ok tt) ∧
    Fs.path_exists ["t"; "gone"] (fs st') = false ∧
    Fs.path_exists ["t"; "deep"; "a"; "b"] (fs st') = false ∧
    kind_at ["t"] (fs st') = Some KDir ∧
    Fs.file_at ["t"; "keep"; "f.txt"] (fs st') = Some "F" ∧
    Fs.file_at ["t"; "note"] (fs st') = Some "N".
Proof.
  destruct (cleanup_removes_empty_dirs ["t"] (organizer_of nested_fs)
              (Dir [("keep", Dir [("f.txt", File "F")]);
                    ("gone", Dir []);
                    ("deep", Dir [("a", Dir [("b", Dir [])])]);
                    ("note", File "N")]) eq_refl)
    as (st' & Hrun & Hempty & Htarget & Hfiles & _).
  - simpl. repeat split; compute_done.
  - exists st'. split_and!; [exact Hrun|..].
    + by apply (Hempty ["gone"]).
    + by apply (Hempty ["deep"; "a"; "b"]).
    + by rewrite Htarget.
    + by rewrite Hfiles.
    + by rewrite Hfiles.
Defined.

(** * Where the round trip breaks *)

(** C1, on a failing input.  The directory [home] lists the regular files
    [images] and [a.jpg], in this order.  Organize and undo both succeed,
    but the file [home/images] is not back: undo finds the directory
    [home/images] (made for [a.jpg]) at the recorded source path, and
    [shutil.move] puts the file inside it, at [home/images/images]. *)
Theorem roundtrip_breaks_on_category_name :
  (organize_by_type "t1" ["home"] None (organizer_of category_name_fs)).2 = Ok None ∧
  (undo_last_operation "t2" category_name_organized).2 = Ok true ∧
  Fs.file_at ["home"; "images"] category_name_fs = Some "I" ∧
  Fs.file_at ["home"; "images"] (fs category_name_undone) = None ∧
  Fs.file_at ["home"; "images"; "images"] (fs category_name_undone) = Some "I" ∧
  Fs.file_at ["home"; "a.jpg"] (fs category_name_undone) = Some "A" ∧
  fs category_name_undone
    = Dir [("home", Dir [("images", Dir [("images", File "I")]);
                         ("a.jpg", File "A")])].
Proof. by vm_compute. Qed.

(** C7, on a failing input.  Replaying a record whose destination exists
    and whose recorded source path is by now a directory does not put the
    file at the source path: the file ends inside that directory. *)
Theorem replay_into_directory :
  Fs.path_exists (destination source_is_dir_record) source_is_dir_fs = true ∧
  Fs.isdir (source source_is_dir_record) source_is_dir_fs = true ∧
  (restore_file source_is_dir_record (organizer_of source_is_dir_fs)).2 = Ok tt ∧
  Fs.file_at (source source_is_dir_record)
    (fs (restore_file source_is_dir_record (organizer_of source_is_dir_fs)).1) = None ∧
  Fs.file_at (source source_is_dir_record ++ ["images"])
    (fs (restore_file source_is_dir_record (organizer_of source_is_dir_fs)).1)
    = Some "I".
Proof. by vm_compute. Qed.

(** * Well-formed trees stay well formed *)

Lemma names_entries_update x g es y :
  y ∈ (Fs.entries_update x g es).*1 → y = x ∨ y ∈ es.*1.
Proof.
  induction es as [|[z c] es IH]; simpl.
  - destruct (g None); simpl; [|by intros ?%elem_of_nil].
    intros ->%list_elem_of_singleton. by left.
  - case_decide as Hxz.
    + subst z. destruct (g (Some c)); simpl.
      * intros [->|?]%elem_of_cons; [by left|right; by right].
      * unfold Fs.entries_remove. intros (e & -> & He%list_elem_of_filter)%list_elem_of_fmap.
        right. right. apply list_elem_of_fmap. exists e. by destruct He.
    + simpl. intros [->|Hy]%elem_of_cons; [right; left|].
      destruct (IH Hy) as [->|?]; [by left|right; by right].
Qed.

Lemma wf_entries_update x g es :
  NoDup es.*1 →
  Forall (λ e, wf e.2) es →
  (∀ c', g (Fs.child x es) = Some c' → wf c') →
  NoDup (Fs.entries_update x g es).*1 ∧
  Forall (λ e, wf e.2) (Fs.entries_update x g es).
Proof.
  induction es as [|[z c] es IH]; simpl; intros Hnd Hall Hg.
  - destruct (g None) as [c'|]; simpl.
    + split; [apply NoDup_singleton|]. constructor; [by apply Hg|constructor].
    + split; [constructor|constructor].
  - apply NoDup_cons in Hnd as [Hz Hnd]. apply Forall_cons in Hall as [Hc Hall].
    case_decide as Hxz.
    + subst z. destruct (g (Some c)) as [c'|] eqn:Hgc; simpl.
      * split; [by constructor|]. constructor; [by apply Hg|done].
      * by rewrite FsFacts.entries_remove_notin.
    + destruct (IH Hnd Hall Hg) as [IH1 IH2]. simpl. split.
      * constructor; [|done]. intros [->|?]%names_entries_update; done.
      * by constructor.
Qed.

Lemma wf_update g p n :
  wf n →
  (∀ o c', g o = Some c' → (∀ c, o = Some c → wf c) → wf c') →
  wf (Fs.update g p n).
Proof.
  intros Hwf Hg. revert n Hwf. induction p as [|x p IH]; intros n Hwf; [done|].
  destruct n as [c|es]; [done|].
  pose proof Hwf as [Hnd Hall]%wf_Dir.
  destruct (decide (p = [])) as [->|Hne].
  - simpl. apply wf_Dir, wf_entries_update; [done..|].
    intros c' Hc'. apply (Hg _ _ Hc'). intros c Hc. by eapply wf_child.
  - rewrite FsFacts.update_cons_deep by done.
    apply wf_Dir, wf_entries_update; [done..|].
    intros c'. destruct (Fs.child x es) as [c|] eqn:Hc; [|done].
    intros [= <-]. apply IH. by eapply wf_child.
Qed.

Lemma wf_put p c n : wf n → wf c → wf (Fs.put p c n).
Proof. intros Hn Hc. apply wf_update; [done|]. by intros o c' [= <-] _. Qed.

Lemma wf_remove p n : wf n → wf (Fs.remove p n).
Proof. intros Hn. by apply wf_update. Qed.

Lemma wf_node_at p n c : wf n → Fs.node_at p n = Some c → wf c.
Proof.
  revert n. induction p as [|x p IH]; intros n Hwf; simpl.
  - by intros [= <-].
  - destruct n as [|es]; [done|]. destruct (Fs.child x es) as [d|] eqn:Hd; [|done].
    apply IH. by eapply wf_child.
Qed.

Lemma wf_mkdir_exist_ok e p fs fs' :
  wf fs → Fs.mkdir_exist_ok e p fs = Ok fs' → wf fs'.
Proof.
  intros Hwf. unfold Fs.mkdir_exist_ok.
  destruct (Fs.mkdir p fs) as [fs1|err] eqn:Hmk.
  - intros [= <-]. apply FsFacts.mkdir_Ok in Hmk as (_ & _ & ->).
    apply wf_put; [done|]. simpl. split; [constructor|done].
  - destruct (negb e || negb (Fs.isdir p fs)); [done|]. by intros [= <-].
Qed.

Lemma wf_makedirs e p fs fs' : wf fs → Fs.makedirs e p fs = Ok fs' → wf fs'.
Proof.
  unfold Fs.makedirs. generalize (rev p). clear p. intros rp. revert fs fs'.
  induction rp as [|x rhead IH]; intros fs fs' Hwf; simpl.
  - by apply wf_mkdir_exist_ok.
  - destruct (negb (Fs.path_exists (rev rhead) fs)); [|by apply wf_mkdir_exist_ok].
    destruct (Fs.makedirs_rev e rhead fs) as [fs1|err] eqn:Hrec.
    + apply wf_mkdir_exist_ok. by eapply IH.
    + destruct err; try done. by apply wf_mkdir_exist_ok.
Qed.

(** * The round trip *)

Lemma category_loop_in_table ext table c :
  category_loop ext table = Some c → c ∈ table.*1.
Proof.
  induction table as [|[ft exts] table IH]; simpl; [done|].
  case_bool_decide; [intros [= ->]; left|intros ?; right; auto].
Qed.

Lemma category_of_in_table file : category_of file ∈ file_types.*1.
Proof.
  rewrite category_of_unfold.
  destruct (category_loop _ file_types) as [c|] eqn:Hc.
  - apply (category_loop_in_table _ _ _ Hc).
  - compute_done.
Qed.

Lemma extra_dirs_only_refl tgt T : extra_dirs_only tgt T T.
Proof. intros q. by left. Qed.

Lemma extra_dirs_only_Some tgt T U q k :
  extra_dirs_only tgt T U → kind_at q T = Some k → kind_at q U = Some k.
Proof. intros HE Hk. destruct (HE q) as [->|(? & _)]; congruence. Qed.

Lemma extra_dirs_only_file_at tgt T U q :
  extra_dirs_only tgt T U → Fs.file_at q U = Fs.file_at q T.
Proof.
  intros HE. destruct (HE q) as [Hq|(HT & HU & _)].
  - by apply FsFacts.file_at_kind_eq.
  - unfold Fs.file_at, kind_at in *.
    by destruct (Fs.node_at q T) as [[]|], (Fs.node_at q U) as [[]|].
Qed.

Lemma snoc_not_prefix (p : path) x : ¬ p ++ [x] `prefix_of` p.
Proof.
  intros [r Hr]. apply (f_equal length) in Hr. rewrite !length_app in Hr.
  simpl in Hr. lia.
Qed.

Lemma snoc_prefix_snoc (p : path) x y : p ++ [x] `prefix_of` p ++ [y] → x = y.
Proof.
  intros [r Hr]. destruct r as [|z r].
  - rewrite app_nil_r in Hr. by apply app_inj_tail in Hr as [_ ?].
  - apply (f_equal length) in Hr. rewrite !length_app in Hr. simpl in Hr. lia.
Qed.

(** One step of the loop, and its reversal by undo. *)
Lemma restore_step src tgt file c T T1 r st U1 :
  kind_at (src ++ [file]) T = Some (KFile c) →
  kind_at src T = Some KDir →
  is_Some (kind_at tgt T) →
  (∀ cat, cat ∈ file_types.*1 → src ++ [file] ≠ tgt ++ [cat]) →
  organize_file src tgt file (set_fs T st) = (set_fs T1 st, Ok r) →
  extra_dirs_only tgt T1 U1 →
  ∃ U,
    (∀ stx, restore_file r (set_fs U1 stx) = (set_fs U stx, Ok tt)) ∧
    extra_dirs_only tgt T U ∧
    (wf T → wf T1) ∧ (wf U1 → wf U).
Proof.
  intros Hfile Hsrc Htgt Hfree Hrun HE.
  set (s := src ++ [file]) in *.
  set (cat := category_of file) in *.
  destruct (Fs.makedirs true (tgt ++ [cat]) T) as [fs1|e] eqn:Hmk.
  2:{ by rewrite (organize_file_raise src tgt file (set_fs T st) e Hmk) in Hrun. }
  pose proof (organize_file_run src tgt file (set_fs T st) c fs1 Hfile Hmk) as Hrun'.
  simpl in Hrun'. rewrite Hrun in Hrun'. fold cat s in Hrun'.
  set (d := _get_unique_path fs1 ((tgt ++ [cat]) ++ [file])) in *.
  injection Hrun' as -> ->. clear Hrun.
  (* the tree after the step *)
  assert (kind_at s fs1 = Some (KFile c)) as Hs1 by by eapply FsFacts.makedirs_keeps.
  assert (kind_at d fs1 = None) as Hd1
    by apply FsFacts.path_exists_false, get_unique_path_free.
  assert (kind_at (Fs.dirname d) fs1 = Some KDir) as Hdd1.
  { unfold d. rewrite get_unique_path_dirname by (by intros [? ?]%app_eq_nil).
    rewrite FsFacts.dirname_snoc. by eapply FsFacts.makedirs_isdir. }
  pose proof (λ q, FsFacts.kind_at_move_file_fresh _ _ _ _ _ q Hs1 Hd1 Hdd1
    (FsFacts.move_file_fresh _ _ _ _ Hs1 Hd1 Hdd1)) as HK1.
  assert (s ≠ d) as Hsd by congruence.
  assert (∀ q, kind_at q fs1 = kind_at q T ∨
               (kind_at q T = None ∧ kind_at q fs1 = Some KDir ∧ q = tgt ++ [cat]))
    as Hfs1.
  { intros q. rewrite (FsFacts.kind_at_makedirs _ _ _ _ q Hmk).
    destruct (kind_at q T) as [k|] eqn:Hq; [by left|].
    case_bool_decide as Hpre; [|by left]. right. split_and!; [done..|].
    apply FsFacts.prefix_snoc_inv in Hpre as [?|Hpre]; [done|].
    destruct (FsFacts.kind_at_prefix _ _ T Hpre Htgt) as [?| ->]; [congruence|].
    rewrite Hq in Htgt. by destruct Htgt. }
  (* the replay *)
  assert (kind_at d U1 = Some (KFile c)) as HdU.
  { eapply extra_dirs_only_Some; [done|]. by rewrite HK1, decide_True. }
  assert (kind_at src U1 = Some KDir) as HsrcU.
  { eapply extra_dirs_only_Some; [done|]. rewrite HK1.
    assert (kind_at src fs1 = Some KDir) as H1 by by eapply FsFacts.makedirs_keeps.
    rewrite decide_False by congruence.
    rewrite decide_False; [done|]. intros Heq. apply (snoc_not_prefix src file).
    unfold s in Heq. by rewrite <-Heq. }
  assert (kind_at s U1 = None) as HsU.
  { destruct (HE s) as [->|(_ & _ & c' & Hc' & Heq)].
    - rewrite HK1. rewrite decide_False by done. by rewrite decide_True.
    - by destruct (Hfree c' Hc'). }
  assert (kind_at (Fs.dirname s) U1 = Some KDir) as HdsU
    by (unfold s; by rewrite FsFacts.dirname_snoc).
  exists (Fs.put s (File c) (Fs.remove d U1)). split_and!.
  - intros stx. unfold restore_file. rewrite bind_run, get_run. simpl.
    assert (Fs.path_exists d U1 = true) as ->.
    { apply FsFacts.path_exists_true. by eexists. }
    rewrite bind_run. unfold fs_call. simpl fs.
    unfold s at 1. rewrite FsFacts.dirname_snoc.
    rewrite (FsFacts.makedirs_existing_dir _ _ HsrcU). simpl fs.
    by rewrite (FsFacts.move_file_fresh _ _ _ _ HdU HsU HdsU).
  - intros q.
    rewrite (FsFacts.kind_at_move_file_fresh _ _ _ _ _ q HdU HsU HdsU
               (FsFacts.move_file_fresh _ _ _ _ HdU HsU HdsU)).
    destruct (decide (q = s)) as [->|Hqs]; [by left|].
    destruct (decide (q = d)) as [->|Hqd].
    { left. destruct (Hfs1 d) as [<-|(_ & ? & _)]; congruence. }
    destruct (HE q) as [->|(HT1 & HU1 & c' & Hc' & ->)].
    + rewrite HK1, !decide_False by done.
      destruct (Hfs1 q) as [->|(HT & H1 & ->)]; [by left|].
      right. split_and!; [done..|]. exists cat. split; [|done].
      apply category_of_in_table.
    + right. split_and!; [|done|by exists c'].
      rewrite HK1, !decide_False in HT1 by done.
      destruct (Hfs1 (tgt ++ [c'])) as [<-|(_ & ? & _)]; congruence.
  - intros HwT. apply wf_put; [|done]. apply wf_remove. by eapply wf_makedirs.
  - intros HwU. apply wf_put; [|done]. by apply wf_remove.
Qed.

Lemma kind_file_not_above p q T c k :
  kind_at p T = Some (KFile c) → kind_at q T = Some k → p `prefix_of` q → p = q.
Proof.
  intros Hp Hq [r ->]. destruct r as [|x r]; [by rewrite app_nil_r|].
  by rewrite (FsFacts.kind_at_file_below _ _ _ _ c) in Hq.
Qed.

Lemma organize_file_target_dir src tgt file st st' r :
  organize_file src tgt file st = (st', Ok r) →
  is_Some (kind_at tgt (fs st)) →
  kind_at tgt (fs st) = Some KDir.
Proof.
  unfold organize_file. rewrite bind_run. unfold fs_call at 1.
  destruct (Fs.makedirs true _ (fs st)) as [fs1|e] eqn:Hmk; [|done].
  intros _ [k Hk].
  pose proof (FsFacts.makedirs_keeps _ _ _ _ _ _ Hmk Hk) as Hk1.
  pose proof (FsFacts.makedirs_isdir _ _ _ _ Hmk) as Hd.
  destruct (FsFacts.kind_at_prefix tgt (tgt ++ [category_of file]) fs1)
    as [?|Heq]; [by apply prefix_app_r|by eexists|congruence|].
  apply (f_equal length) in Heq. rewrite length_app in Heq. simpl in Heq. lia.
Qed.

(** The whole loop, and its reversal by the replay of undo. *)
Lemma loop_roundtrip src tgt st files :
  ∀ ops T T' ops',
    organize_loop src tgt files ops (set_fs T st) = (set_fs T' st, Ok ops') →
    NoDup files →
    (∀ f, f ∈ files → ∃ c, kind_at (src ++ [f]) T = Some (KFile c)) →
    kind_at src T = Some KDir →
    is_Some (kind_at tgt T) →
    (∀ f cat, f ∈ files → cat ∈ file_types.*1 → src ++ [f] ≠ tgt ++ [cat]) →
    ∃ new, ops' = ops ++ new ∧ (wf T → wf T') ∧
      ∀ U', extra_dirs_only tgt T' U' →
        ∃ U,
          (∀ stx, for_each (rev new) restore_file (set_fs U' stx)
                  = (set_fs U stx, Ok tt)) ∧
          extra_dirs_only tgt T U ∧ (wf U' → wf U).
Proof.
  induction files as [|f files IH]; intros ops T T' ops' Hloop Hnd Hfiles Hsrc Htgt Hfree.
  - simpl in Hloop. injection Hloop as -> ->. exists []. rewrite app_nil_r.
    split_and!; [done..|]. intros U' HE. by exists U'.
  - simpl in Hloop. rewrite bind_run in Hloop.
    destruct (organize_file src tgt f (set_fs T st)) as [st1 [r|e]] eqn:Hf; [|done].
    pose proof (only_fs_run _ _ _ _ (only_fs_organize_file _ _ _) Hf) as Hst1.
    simpl in Hst1. rewrite Hst1 in Hf, Hloop. set (T1 := fs st1) in *. clearbody T1.
    clear Hst1 st1.
    apply NoDup_cons in Hnd as [Hf_notin Hnd].
    destruct (Hfiles f) as [c Hc]; [by left|].
    pose proof (organize_file_target_dir _ _ _ _ _ _ Hf Htgt) as HtgtD. simpl in HtgtD.
    assert (∀ q k, kind_at q T = Some k → ¬ (src ++ [f]) `prefix_of` q →
                   kind_at q T1 = Some k) as Hkeep.
    { intros q k Hq Hpre.
      by apply (organize_file_keeps _ _ _ _ _ _ q k Hf). }
    destruct (IH (ops ++ [r]) T1 T' ops' Hloop Hnd) as (new & -> & Hwf & Hrest).
    + intros g Hg. destruct (Hfiles g) as [cg Hcg]; [by right|]. exists cg.
      apply Hkeep; [done|]. intros ->%snoc_prefix_snoc. done.
    + apply Hkeep; [done|]. apply snoc_not_prefix.
    + exists KDir. apply Hkeep; [done|]. intros Hpre.
      pose proof (kind_file_not_above _ _ _ _ _ Hc HtgtD Hpre) as Heq.
      rewrite Heq in Hc. congruence.
    + intros g cat Hg Hcat. apply Hfree; [by right|done].
    + exists (r :: new). rewrite <-(assoc (++)). split; [done|].
      assert (∀ U1, extra_dirs_only tgt T1 U1 →
        ∃ U, (∀ stx, restore_file r (set_fs U1 stx) = (set_fs U stx, Ok tt)) ∧
             extra_dirs_only tgt T U ∧ (wf T → wf T1) ∧ (wf U1 → wf U)) as Hstep.
      { intros U1 HE1. eapply restore_step; [exact Hc|done|done| |exact Hf|done].
        intros cat Hcat. apply Hfree; [by left|done]. }
      split.
      * intros HwT. apply Hwf.
        destruct (Hstep T1 (extra_dirs_only_refl _ _)) as (_ & _ & _ & H1 & _). auto.
      * intros U' HE'. destruct (Hrest U' HE') as (U1 & Hrun1 & HE1 & Hw1).
        destruct (Hstep U1 HE1) as (U & Hrun & HE & _ & Hw).
        exists U. split_and!; [|done|auto].
        intros stx. simpl rev. rewrite for_each_app, Hrun1, for_each_singleton.
        by rewrite Hrun.
Qed.

Lemma prune_no_empty_below q n :
  wf n → q ≠ [] → Fs.node_at q (prune n) ≠ Some (Dir []).
Proof.
  revert n. induction q as [|x q IH]; intros n Hwf Hq; [done|].
  destruct n as [c|es]; [done|]. rewrite prune_Dir. simpl.
  rewrite child_prune by by apply wf_Dir in Hwf as [? _].
  destruct (Fs.child x es) as [c|] eqn:Hc; [|done].
  destruct (is_empty_dir (prune c)) eqn:He; [done|].
  destruct q as [|y q].
  - simpl. intros [= Heq]. by rewrite Heq in He.
  - apply IH; [by eapply wf_child|done].
Qed.

Lemma graft_prune_file_at target n F q :
  Fs.node_at target F = Some n → wf n →
  Fs.file_at q (graft target (prune n) F) = Fs.file_at q F.
Proof.
  intros Hn Hwf. destruct (decide (target `prefix_of` q)) as [[r ->]|Hpre].
  - unfold Fs.file_at. rewrite (FsFacts.node_at_graft _ _ _ _ _ Hn).
    rewrite FsFacts.node_at_app, Hn. simpl. by apply file_at_prune.
  - by apply FsFacts.file_at_kind_eq, FsFacts.kind_at_graft_frame.
Qed.

Lemma kind_at_node_at q T k :
  kind_at q T = Some k → ∃ n, Fs.node_at q T = Some n.
Proof. unfold kind_at. destruct (Fs.node_at q T); [by eexists|done]. Qed.

(** X1.  Organize and then undo, when no regular file of the source directory
    sits where a category directory of the target goes: undo succeeds, every
    file is back where it was with its content, no empty directory is left
    below the target, and the history is cleared. *)
Theorem organize_undo_roundtrip now1 now2 src dst st st1 v :
  wf (fs st) →
  (∀ f c, Fs.isfile (src ++ [f]) (fs st) = true → c ∈ file_types.*1 →
          src ++ [f] ≠ default src dst ++ [c]) →
  organize_by_type now1 src dst st = (st1, Ok v) →
  ∃ st2,
    undo_last_operation now2 st1 = (st2, Ok true) ∧
    (∀ q, Fs.file_at q (fs st2) = Fs.file_at q (fs st)) ∧
    (∀ q, q ≠ [] → Fs.node_at (default src dst ++ q) (fs st2) ≠ Some (Dir [])) ∧
    history_file st2 = Json [].
Proof.
  intros Hwf Hfree Hrun. set (tgt := default src dst) in *.
  apply organize_by_type_inv in Hrun
    as (tree0 & names & tree1 & ops & Hsrc & Htree0 & Hls & Hloop & -> & ->).
  change (default src dst) with tgt in Htree0, Hloop.
  (* the tree after the target was made *)
  assert (wf tree0 ∧ is_Some (kind_at tgt tree0) ∧
          (∀ q, Fs.file_at q tree0 = Fs.file_at q (fs st))) as (Hwf0 & Htgt0 & Hfiles0).
  { destruct (Fs.path_exists tgt (fs st)) eqn:Hex.
    - subst tree0. split_and!; [done| |done]. by apply FsFacts.path_exists_true.
    - split_and!.
      + by eapply wf_makedirs.
      + rewrite (FsFacts.makedirs_isdir _ _ _ _ Htree0). by eexists.
      + intros q. by eapply FsFacts.makedirs_file_at. }
  unfold Fs.listdir in Hls.
  destruct (Fs.node_at src tree0) as [[c|es]|] eqn:Hsrcn; try done.
  injection Hls as <-.
  assert (NoDup es.*1) as Hnd.
  { by apply (wf_node_at _ _ _ Hwf0) in Hsrcn as [? _]%wf_Dir. }
  set (files := filter (λ f, Fs.isfile (src ++ [f]) tree0) es.*1) in *.
  destruct (loop_roundtrip src tgt st files [] tree0 tree1 ops Hloop)
    as (new & Hnew & Hwf1 & Hreplay).
  { by apply NoDup_filter. }
  { intros f [Hf _]%list_elem_of_filter. apply FsFacts.isfile_kind.
    by destruct (Fs.isfile (src ++ [f]) tree0). }
  { unfold kind_at. by rewrite Hsrcn. }
  { done. }
  { intros f cat [Hf _]%list_elem_of_filter Hcat. apply Hfree; [|done].
    assert (Fs.isfile (src ++ [f]) tree0 = true) as Hf'
      by by destruct (Fs.isfile (src ++ [f]) tree0).
    apply FsFacts.isfile_kind in Hf' as [c Hc%FsFacts.file_at_kind].
    apply FsFacts.isfile_kind. exists c. apply FsFacts.file_at_kind.
    by rewrite <-Hfiles0. }
  simpl in Hnew. subst new.
  destruct (Hreplay tree1 (extra_dirs_only_refl _ _)) as (U & HrunU & HE & HwfU).
  (* the cleanup *)
  destruct Htgt0 as [k Hk0].
  pose proof (extra_dirs_only_Some _ _ _ _ _ HE Hk0) as HkU.
  destruct (kind_at_node_at _ _ _ HkU) as [n Hn].
  assert (wf n) as Hwfn by (eapply wf_node_at; [|exact Hn]; auto).
  set (op := Batch now1 "organize_by_type" src tgt ops).
  set (st1 := Organizer tree1 (Json [op]) (timeline_file st ++ [op]) [op] (Some op)).
  assert (undo_last_operation now2 st1
          = (Organizer (graft tgt (prune n) U) (Json [])
               (timeline_file st1 ++ [undo_entry now2 op]) [] None, Ok true))
    as Hundo.
  { rewrite undo_last_operation_unfold.
    rewrite (loaded_stored st1 op) by done.
    change (history st1) with [op]. cbv beta iota.
    change (operations op) with ops. change (target_dir op) with tgt.
    rewrite (HrunU st1 : for_each (rev ops) restore_file st1 = _).
    by rewrite (cleanup_run tgt _ n) by done. }
  eexists. split_and!.
  - exact Hundo.
  - intros q. simpl. rewrite graft_prune_file_at by done.
    by rewrite (extra_dirs_only_file_at _ _ _ _ HE).
  - intros q Hq. simpl. rewrite (FsFacts.node_at_graft _ _ _ _ _ Hn).
    by apply prune_no_empty_below.
  - done.
Qed.

Lemma organize_undo_roundtrip_example :
  ∃ st2,
    undo_last_operation "t2" once_organized = (st2, Ok true) ∧
    (∀ q, Fs.file_at q (fs st2) = Fs.file_at q scenario_fs) ∧
    (∀ q, q ≠ [] → Fs.node_at (["home"] ++ q) (fs st2) ≠ Some (Dir [])) ∧
    history_file st2 = Json [].
Proof.
  apply (organize_undo_roundtrip "t1" "t2" ["home"] None
           (organizer_of scenario_fs) once_organized None).
  - simpl. repeat split; compute_done.
  - intros f c Hf Hc [_ Heq]%app_inj_tail. subst f.
    revert Hf. revert c Hc.
    apply (proj1 (Forall_forall
             (λ c, Fs.isfile (["home"] ++ [c]) scenario_fs = true → False) _)).
    compute_done.
  - by vm_compute.
Defined.

(** * What the replay of undo does hold *)



(** * Where organize leaves the files *)




(** * A new organizer finds what the last one saved *)

(** X4.  What [_save_history] writes is what [__init__] loads: the new
    object's history is the saved [last_operation] alone (or nothing).
    So an organizer built over the files that a successful organize, or a
    successful undo, leaves is in the very state of the organizer that made
    the call. *)
Theorem new_organizer_resumes now st :
  (let st1 := (_save_history st).1 in
   let st2 := __init__ (fs st1) (history_file st1) (timeline_file st1) in
   history st2 = option_list (last_operation st) ∧
   last_operation st2 = last_operation st) ∧
  (∀ src dst st' v,
     organize_by_type now src dst st = (st', Ok v) →
     __init__ (fs st') (history_file st') (timeline_file st') = st') ∧
  (∀ st',
     undo_last_operation now st = (st', Ok true) →
     __init__ (fs st') (history_file st') (timeline_file st') = st').
Proof.
  split_and!.
  - unfold __init__, _save_history, _load_history. rewrite !bind_run, !get_run.
    by destruct (last_operation st) as [op|].
  - intros src dst st' v Hrun.
    by apply organize_by_type_inv in Hrun as (? & ? & ? & ? & _ & _ & _ & _ & _ & ->).
  - intros st' Hrun. rewrite undo_last_operation_unfold in Hrun.
    destruct (history (loaded st)) as [|last_op rest]; [done|].
    destruct (for_each _ _ _) as [st1 [[]|e]]; [|done].
    destruct (cleanup _ _) as [st2 [[]|e]]; [|done].
    by injection Hrun as <-.
Qed.

Lemma new_organizer_resumes_example :
  __init__ (fs once_organized) (history_file once_organized)
    (timeline_file once_organized) = once_organized.
Proof.
  apply (proj1 (proj2 (new_organizer_resumes "t1" (organizer_of scenario_fs)))
           ["home"] None once_organized None).
  by vm_compute.
Defined.

(** * Undo, case by case *)

(** X5.  A successful undo cannot be repeated: the next call returns
    [False] and leaves the whole state as the first call left it. *)
Theorem undo_is_one_shot now1 now2 st st1 :
  undo_last_operation now1 st = (st1, Ok true) →
  undo_last_operation now2 st1 = (st1, Ok false).
Proof.
  intros Hrun. rewrite undo_last_operation_unfold in Hrun.
  destruct (history (loaded st)) as [|last_op rest]; [done|].
  destruct (for_each _ _ _) as [sta [[]|e]]; [|done].
  destruct (cleanup _ _) as [stb [[]|e]]; [|done].
  by injection Hrun as <-.
Qed.

Lemma undo_is_one_shot_example :
  undo_last_operation "t3" (undo_last_operation "t2" once_organized).1
  = ((undo_last_operation "t2" once_organized).1, Ok false).
Proof. apply (undo_is_one_shot "t2" "t3" once_organized). by vm_compute. Defined.

Lemma for_each_total {A} (l : list A) body st :
  (∀ x st, ∃ st', body x st = (st', Ok tt)) →
  ∃ st', for_each l body st = (st', Ok tt).
Proof.
  intros Hb. revert st. induction l as [|x l IH]; intros st; simpl.
  - by eexists.
  - rewrite bind_run. destruct (Hb x st) as [st1 ->]. apply IH.
Qed.

(** The cleanup never raises: every error of a test is an [OSError], which
    the loop passes over. *)
Lemma cleanup_total target st : ∃ st', cleanup target st = (st', Ok tt).
Proof.
  unfold cleanup. rewrite bind_run, get_run. apply for_each_total.
  intros [[root dirs] files] st1. simpl. apply for_each_total.
  intros d st2. rewrite cleanup_dir_run.
  destruct (Fs.node_at _ _) as [[|[|]]|]; by eexists.
Qed.

(** X6.  [undo_last_operation] never raises.  It returns [True] exactly
    when the loaded history is not empty and the replay of its first batch
    runs to its end (the cleanup cannot make it fail).  When it returns
    [False] the history file and the timeline are as they were; when it
    returns [True] the history file holds the empty list and the timeline
    has one more entry, the undo of that batch. *)
Theorem undo_outcome now st :
  ∃ st' b,
    undo_last_operation now st = (st', Ok b) ∧
    (b = true ↔
       ∃ last_op rest st1,
         history (loaded st) = last_op :: rest ∧
         for_each (rev (operations last_op)) restore_file (loaded st) = (st1, Ok tt)) ∧
    (b = false →
       history_file st' = history_file st ∧ timeline_file st' = timeline_file st) ∧
    (b = true →
       history_file st' = Json [] ∧
       ∃ last_op, head (history (loaded st)) = Some last_op ∧
         timeline_file st' = timeline_file st ++ [undo_entry now last_op]).
Proof.
  rewrite undo_last_operation_unfold.
  destruct (loaded_frame st) as (Hfs & Hhf & Htl).
  destruct (history (loaded st)) as [|last_op rest] eqn:Hh.
  - exists (loaded st), false. split_and!; try done.
    split; [done|]. by intros (? & ? & ? & ? & _).
  - destruct (for_each _ _ _) as [st1 [[]|e]] eqn:Hreplay.
    + pose proof (only_fs_run _ _ _ _ (only_fs_for_each _ _ only_fs_restore_file)
                    Hreplay) as H1.
      destruct (cleanup_total (target_dir last_op) st1) as [st2 Hclean].
      pose proof (only_fs_run _ _ _ _ (only_fs_cleanup _) Hclean) as H2.
      rewrite Hclean. eexists _, true. split_and!; try done.
      * split; [|done]. intros _. by exists last_op, rest, st1.
      * intros _. split; [done|]. exists last_op. split; [done|]. simpl.
        rewrite H2. simpl. rewrite H1. simpl. by rewrite Htl.
    + pose proof (only_fs_run _ _ _ _ (only_fs_for_each _ _ only_fs_restore_file)
                    Hreplay) as H1.
      exists st1, false. split_and!; try done.
      * split; [done|]. intros (? & ? & ? & [= <- <-] & Hok). congruence.
      * intros _. rewrite H1. simpl. by rewrite Hhf, Htl.
Qed.

(** X7.  When a step of the replay raises, the call returns [False] in the
    state the replay had reached: what was restored before stays restored,
    the history file and the timeline are untouched, and the records the
    next call would replay are the same ones. *)
Theorem undo_failure_keeps_log now st last_op rest st1 e :
  history (loaded st) = last_op :: rest →
  for_each (rev (operations last_op)) restore_file (loaded st) = (st1, Raise e) →
  undo_last_operation now st = (st1, Ok false) ∧
  history_file st1 = history_file st ∧
  timeline_file st1 = timeline_file st ∧
  undoable st1 = operations last_op.
Proof.
  intros Hh Hreplay. rewrite undo_last_operation_unfold, Hh, Hreplay.
  pose proof (only_fs_run _ _ _ _ (only_fs_for_each _ _ only_fs_restore_file)
                Hreplay) as H1.
  destruct (loaded_frame st) as (Hfs & Hhf & Htl).
  split_and!; [done|rewrite H1; simpl; by rewrite Hhf|rewrite H1; simpl; by rewrite Htl|].
  assert (history (loaded st1) = last_op :: rest) as Hh1.
  { rewrite loaded_history. rewrite loaded_history in Hh.
    rewrite H1. simpl. rewrite Hhf.
    destruct (history_file st) as [| |h] eqn:Hf; [|done..].
    by rewrite loaded_history, Hf. }
  by rewrite undoable_alt, Hh1.
Qed.

Lemma undo_failure_keeps_log_example :
  undo_last_operation "t2" stuck_state = (stuck_undone, Ok false) ∧
  Fs.file_at ["home"; "b.txt"] (fs stuck_undone) = Some "B" ∧
  Fs.file_at ["home"; "images"; "a.jpg"] (fs stuck_undone) = Some "A" ∧
  history_file stuck_undone = history_file stuck_state ∧
  timeline_file stuck_undone = timeline_file stuck_state ∧
  length (undoable stuck_undone) = 2.
Proof.
  destruct (undo_failure_keeps_log "t2" stuck_state
              (Batch "t1" "organize_by_type" ["home"] ["home"]
                 [MoveRecord "move" ["home"; "a.jpg"] ["home"; "images"; "a.jpg"];
                  MoveRecord "move" ["home"; "b.txt"] ["home"; "documents"; "b.txt"]])
              [] stuck_undone ShutilError) as (Hrun & Hhf & Htl & Hu);
    [by vm_compute..|].
  split_and!; [exact Hrun|by vm_compute|by vm_compute|exact Hhf|exact Htl|].
  by rewrite Hu.
Defined.

(** X8.  Undo works from the history file.  Two organizers over the same
    files, whatever their attributes hold, get the same answer and leave
    the same tree, history file, timeline and history, as long as there is
    a history file.  Of a file that holds several batches the first one is
    replayed.  Only without a file does the history in memory decide. *)
Theorem undo_reads_the_file now st st' :
  fs st = fs st' →
  timeline_file st = timeline_file st' →
  history_file st = history_file st' →
  (history_file st ≠ NoFile →
     (undo_last_operation now st).2 = (undo_last_operation now st').2 ∧
     fs (undo_last_operation now st).1 = fs (undo_last_operation now st').1 ∧
     history_file (undo_last_operation now st).1
       = history_file (undo_last_operation now st').1 ∧
     timeline_file (undo_last_operation now st).1
       = timeline_file (undo_last_operation now st').1 ∧
     history (undo_last_operation now st).1 = history (undo_last_operation now st').1) ∧
  (∀ op rest, history_file st = Json (op :: rest) → undoable st = operations op) ∧
  (history_file st = NoFile →
     undoable st = match history st with [] => [] | op :: _ => operations op end).
Proof.
  intros Hfs Htl Hhf. split_and!.
  - intros Hfile. rewrite !undo_last_operation_unfold.
    destruct (loaded_frame st) as (Hfs1 & Hhf1 & Htl1).
    destruct (loaded_frame st') as (Hfs2 & Hhf2 & Htl2).
    assert (history (loaded st) = history (loaded st')) as Hh.
    { rewrite !loaded_history, <-Hhf. by destruct (history_file st). }
    rewrite <-Hh. destruct (history (loaded st)) as [|last_op rest] eqn:Hhist.
    { simpl. split_and!; congruence. }
    assert (loaded st = loaded st') as <-; [|done].
    unfold loaded, _load_history. rewrite !bind_run, !get_run, <-Hhf.
    rewrite loaded_history in Hhist.
    destruct (history_file st) as [| |h] eqn:Hf; [done..|]. subst h.
    rewrite !bind_run. simpl. rewrite last_cons.
    destruct (last rest); unfold set_last_operation, set_history; simpl;
      f_equal; congruence.
  - intros op rest Hf. by rewrite undoable_alt, loaded_history, Hf.
  - intros Hf. by rewrite undoable_alt, loaded_history, Hf.
Qed.

Lemma undo_reads_the_file_example :
  (undo_last_operation "t2" once_organized).2
    = (undo_last_operation "t2" once_organized_unloaded).2 ∧
  fs (undo_last_operation "t2" once_organized).1
    = fs (undo_last_operation "t2" once_organized_unloaded).1.
Proof.
  destruct (proj1 (undo_reads_the_file "t2" once_organized once_organized_unloaded
                     eq_refl eq_refl eq_refl)) as (H1 & H2 & _); [by vm_compute|].
  by split.
Defined.

(** X9.  Undo overwrites: when a regular file stands at the recorded source
    path by the time a record is replayed, the moved file takes its place
    and the content that was there is lost; no other file changes. *)
Theorem undo_overwrites_source (op : move_record) (st : organizer) c c0 :
  Fs.file_at (destination op) (fs st) = Some c →
  Fs.file_at (source op) (fs st) = Some c0 →
  source op ≠ destination op →
  ∃ st', restore_file op st = (st', Ok tt) ∧
    Fs.file_at (source op) (fs st') = Some c ∧
    Fs.path_exists (destination op) (fs st') = false ∧
    ∀ q, q ≠ source op → q ≠ destination op →
         Fs.file_at q (fs st') = Fs.file_at q (fs st).
Proof.
  intros Hd%FsFacts.file_at_kind Hs%FsFacts.file_at_kind Hne.
  set (s := source op) in *. set (d := destination op) in *.
  assert (d ≠ []) as Hd_ne.
  { intros E. apply Hne. symmetry.
    apply (kind_file_not_above _ _ _ _ _ Hd Hs). rewrite E. apply prefix_nil. }
  assert (s ≠ []) as Hs_ne.
  { intros E. apply Hne.
    apply (kind_file_not_above _ _ _ _ _ Hs Hd). rewrite E. apply prefix_nil. }
  assert (¬ d `prefix_of` s) as Hpre.
  { intros Hp. by apply (kind_file_not_above _ _ _ _ _ Hd Hs) in Hp. }
  assert (kind_at (Fs.dirname s) (fs st) = Some KDir) as Hpar.
  { destruct (FsFacts.path_snoc s Hs_ne) as (q & x & Hsq & -> & _).
    destruct (FsFacts.kind_at_prefix q s (fs st)) as [?|Heq];
      [by exists [x]|by eexists|done|].
    apply (f_equal length) in Heq. rewrite Hsq, length_app in Heq. simpl in Heq. lia. }
  assert (Fs.move d s (fs st) = Ok (Fs.put s (File c) (Fs.remove d (fs st)))) as Hmv.
  { unfold Fs.move, Fs.rename, kind_at in *.
    destruct (Fs.node_at d (fs st)) as [[cd|]|] eqn:Hnd; simplify_eq/=.
    destruct (Fs.node_at s (fs st)) as [[cs|]|] eqn:Hns; simplify_eq/=.
    unfold Fs.isdir. rewrite Hns. simpl.
    rewrite decide_False by (by intros E; apply Hne). rewrite decide_False by done.
    rewrite bool_decide_eq_false_2 by done.
    by destruct (Fs.node_at (Fs.dirname s) (fs st)) as [[]|]; simplify_eq/=. }
  unfold restore_file. change (destination op) with d. change (source op) with s.
  rewrite bind_run, get_run.
  assert (Fs.path_exists d (fs st) = true) as ->
    by (apply FsFacts.path_exists_true; by eexists).
  rewrite bind_run. unfold fs_call at 1.
  rewrite (FsFacts.makedirs_existing_dir _ _ Hpar).
  unfold fs_call. simpl fs. rewrite Hmv. eexists. split; [done|]. simpl.
  pose proof (λ q, FsFacts.kind_at_relocate d s (File c) (fs st) q Hd_ne Hs_ne Hpre Hpar)
    as HK.
  split_and!.
  - apply FsFacts.file_at_kind. rewrite HK, decide_True by done.
    by rewrite drop_all.
  - apply FsFacts.path_exists_false. rewrite HK.
    destruct (decide (s `prefix_of` d)) as [Hp|Hp].
    + apply (kind_file_not_above _ _ _ _ _ Hs Hd) in Hp. done.
    + by rewrite decide_True.
  - intros q Hqs Hqd. apply FsFacts.file_at_kind_eq. rewrite HK.
    destruct (decide (s `prefix_of` q)) as [[r ->]|Hp].
    + destruct r as [|x r]; [by rewrite app_nil_r in Hqs|].
      rewrite drop_app_length. simpl.
      by rewrite (FsFacts.kind_at_file_below s x r _ c0 Hs).
    + destruct (decide (d `prefix_of` q)) as [[r ->]|Hp']; [|done].
      destruct r as [|x r]; [by rewrite app_nil_r in Hqd|].
      by rewrite (FsFacts.kind_at_file_below d x r _ c Hd).
Qed.

Lemma undo_overwrites_source_example :
  ∃ st', restore_file reoccupied_record (organizer_of reoccupied_fs) = (st', Ok tt) ∧
    Fs.file_at ["home"; "a.jpg"] (fs st') = Some "A" ∧
    Fs.path_exists ["home"; "images"; "a.jpg"] (fs st') = false ∧
    ∀ q, q ≠ ["home"; "a.jpg"] → q ≠ ["home"; "images"; "a.jpg"] →
         Fs.file_at q (fs st') = Fs.file_at q reoccupied_fs.
Proof.
  apply (undo_overwrites_source reoccupied_record (organizer_of reoccupied_fs)
           "A" "later"); by vm_compute.
Defined.

Lemma replay_all_skipped ops st :
  (∀ r, r ∈ ops → Fs.path_exists (destination r) (fs st) = false) →
  for_each ops restore_file st = (st, Ok tt).
Proof.
  induction ops as [|r ops IH]; intros Hgone; simpl; [done|].
  rewrite bind_run. unfold restore_file at 1. rewrite bind_run, get_run.
  rewrite (Hgone r) by by left. rewrite ret_run. apply IH.
  intros r' Hr'. apply Hgone. by right.
Qed.

Lemma elem_of_rev_inv {A} (x : A) l : x ∈ rev l → x ∈ l.
Proof.
  induction l as [|a l IH]; simpl; [done|].
  intros [?|Hx]%elem_of_app; [right; auto|].
  apply list_elem_of_singleton in Hx as ->. by left.
Qed.

(** X10.  A log gone stale: when none of the recorded destinations exists
    any more, and neither does the target directory, undo touches nothing
    in the tree, and yet returns [True], empties the history file and adds
    its entry to the timeline. *)
Theorem undo_with_stale_log now st last_op rest :
  history (loaded st) = last_op :: rest →
  (∀ r, r ∈ operations last_op → Fs.path_exists (destination r) (fs st) = false) →
  Fs.path_exists (target_dir last_op) (fs st) = false →
  undo_last_operation now st
  = (Organizer (fs st) (Json []) (timeline_file st ++ [undo_entry now last_op]) [] None,
     Ok true).
Proof.
  intros Hh Hgone Htgt. rewrite undo_last_operation_unfold, Hh.
  destruct (loaded_frame st) as (Hfs & Hhf & Htl).
  rewrite replay_all_skipped.
  2:{ intros r Hr%elem_of_rev_inv. rewrite Hfs. by apply Hgone. }
  unfold cleanup. rewrite bind_run, get_run. unfold os_walk. rewrite Hfs.
  unfold Fs.path_exists in Htgt.
  destruct (Fs.node_at (target_dir last_op) (fs st)); [done|]. simpl.
  by rewrite Hfs, Htl.
Qed.

Lemma undo_with_stale_log_example :
  ∃ last_op,
    undo_last_operation "t2" stale_state
    = (Organizer (fs stale_state) (Json [])
         (timeline_file stale_state ++ [undo_entry "t2" last_op]) [] None,
       Ok true).
Proof.
  eexists.
  apply (undo_with_stale_log "t2" stale_state _ []); [by vm_compute| |by vm_compute].
  intros r Hr. apply list_elem_of_singleton in Hr as ->. by vm_compute.
Defined.

(** * What organize leaves alone, and what it makes *)

Lemma organize_by_type_keeps now src dst st st' v q k :
  organize_by_type now src dst st = (st', Ok v) →
  kind_at q (fs st) = Some k →
  (∀ f, q = src ++ [f] → Fs.isfile q (fs st) = false) →
  kind_at q (fs st') = Some k.
Proof.
  intros Hrun Hq Hnot. set (tgt := default src dst) in *.
  apply organize_by_type_inv in Hrun
    as (tree0 & names & tree1 & ops & Hsrc & Htree0 & Hls & Hloop & -> & ->).
  change (default src dst) with tgt in Htree0, Hloop. simpl.
  assert (∀ p k, kind_at p (fs st) = Some k → kind_at p tree0 = Some k) as H0.
  { destruct (Fs.path_exists tgt (fs st)); [by subst|].
    intros p k'. by eapply FsFacts.makedirs_keeps. }
  assert (∀ p, Fs.file_at p tree0 = Fs.file_at p (fs st)) as Hf0.
  { destruct (Fs.path_exists tgt (fs st)); [by subst|].
    intros p. by eapply FsFacts.makedirs_file_at. }
  change tree1 with (fs (set_fs tree1 st)).
  eapply organize_loop_keeps; [exact Hloop|by apply H0|].
  intros f [Hfile _]%list_elem_of_filter Hpre.
  assert (Fs.isfile (src ++ [f]) tree0 = true) as Hfile'
    by by destruct (Fs.isfile (src ++ [f]) tree0).
  apply FsFacts.isfile_kind in Hfile' as [c Hc].
  pose proof (kind_file_not_above _ _ _ _ _ Hc (H0 _ _ Hq) Hpre) as Heq.
  specialize (Hnot f (eq_sym Heq)).
  apply FsFacts.file_at_kind in Hc. rewrite Hf0, Heq in Hc.
  unfold Fs.isfile, Fs.file_at in *. by destruct (Fs.node_at q (fs st)) as [[]|].
Qed.

(** X11.  A successful organize leaves everything but the regular files
    that stand directly in the source directory where it is: whatever a
    path held before (a file with its content, a directory), it holds
    afterwards, unless the path is one of those files.  So sub-directories
    of the source, with all they hold, and what the target already held,
    are not touched. *)
Theorem organize_leaves_the_rest now src dst st st' v q k :
  organize_by_type now src dst st = (st', Ok v) →
  kind_at q (fs st) = Some k →
  (∀ f, q = src ++ [f] → Fs.isfile q (fs st) = false) →
  kind_at q (fs st') = Some k.
Proof. apply organize_by_type_keeps. Qed.

Lemma organize_leaves_the_rest_example :
  kind_at ["out"; "images"; "photo.jpg"]
    (fs (organize_by_type "t1" ["in"] (Some ["out"]) (organizer_of collision_fs)).1)
  = Some (KFile "old").
Proof.
  apply (organize_leaves_the_rest "t1" ["in"] (Some ["out"]) (organizer_of collision_fs)
           (organize_by_type "t1" ["in"] (Some ["out"]) (organizer_of collision_fs)).1
           None); [by vm_compute..|].
  intros f Hf. by vm_compute.
Defined.

Lemma organize_loop_conserves src tgt st files :
  ∀ ops T T' ops',
    organize_loop src tgt files ops (set_fs T st) = (set_fs T' st, Ok ops') →
    NoDup files →
    (∀ f, f ∈ files → ∃ c, kind_at (src ++ [f]) T = Some (KFile c)) →
    ∃ new, ops' = ops ++ new ∧
      (∀ q c, kind_at q T' = Some (KFile c) →
         (kind_at q T = Some (KFile c) ∧ ∀ f, f ∈ files → q ≠ src ++ [f]) ∨
         ∃ r f, r ∈ new ∧ f ∈ files ∧ source r = src ++ [f] ∧
           destination r = q ∧ kind_at (source r) T = Some (KFile c) ∧
           Fs.dirname (destination r) = tgt ++ [category_of f]) ∧
      (∀ q, kind_at q T' = Some KDir →
         kind_at q T = Some KDir ∨
         ∃ cat, cat ∈ file_types.*1 ∧ q `prefix_of` tgt ++ [cat]).
Proof.
  induction files as [|f files IH]; intros ops T T' ops' Hloop Hnd Hfiles.
  - simpl in Hloop. injection Hloop as -> ->. exists []. rewrite app_nil_r.
    split_and!; [done| |by left].
    { intros q c Hq. left. split; [done|]. by intros ? ?%elem_of_nil. }
  - simpl in Hloop. rewrite bind_run in Hloop.
    destruct (organize_file src tgt f (set_fs T st)) as [st1 [r|e]] eqn:Hf; [|done].
    pose proof (only_fs_run _ _ _ _ (only_fs_organize_file _ _ _) Hf) as Hst1.
    simpl in Hst1. rewrite Hst1 in Hf, Hloop. set (T1 := fs st1) in *. clearbody T1.
    clear Hst1 st1.
    apply NoDup_cons in Hnd as [Hf_notin Hnd].
    destruct (Hfiles f) as [c Hc]; [by left|].
    destruct (Fs.makedirs true (tgt ++ [category_of f]) T) as [fs1|e] eqn:Hmk.
    2:{ by rewrite (organize_file_raise src tgt f (set_fs T st) e Hmk) in Hf. }
    pose proof (organize_file_run src tgt f (set_fs T st) c fs1 Hc Hmk) as Hrun.
    simpl in Hrun. rewrite Hf in Hrun.
    set (d := _get_unique_path fs1 ((tgt ++ [category_of f]) ++ [f])) in *.
    injection Hrun as HT1 ->.
    assert (kind_at (src ++ [f]) fs1 = Some (KFile c)) as Hs1
      by by eapply FsFacts.makedirs_keeps.
    assert (kind_at d fs1 = None) as Hd1
      by apply FsFacts.path_exists_false, get_unique_path_free.
    assert (Fs.dirname d = tgt ++ [category_of f]) as Hdd.
    { unfold d. rewrite get_unique_path_dirname by (by intros [? ?]%app_eq_nil).
      apply FsFacts.dirname_snoc. }
    assert (kind_at (Fs.dirname d) fs1 = Some KDir) as Hdd1.
    { rewrite Hdd. by eapply FsFacts.makedirs_isdir. }
    pose proof (λ q, FsFacts.kind_at_move_file_fresh _ _ _ _ _ q Hs1 Hd1 Hdd1
      (FsFacts.move_file_fresh _ _ _ _ Hs1 Hd1 Hdd1)) as HK1.
    rewrite <-HT1 in HK1.
    pose proof (λ q, FsFacts.kind_at_makedirs _ _ _ _ q Hmk) as HKm.
    (* what a path holds after this step, in terms of the tree before it *)
    assert (∀ q c', kind_at q T1 = Some (KFile c') →
              (q = d ∧ c' = c) ∨
              (q ≠ d ∧ q ≠ src ++ [f] ∧ kind_at q T = Some (KFile c'))) as Hstep.
    { intros q c' Hq. rewrite HK1 in Hq.
      destruct (decide (q = d)) as [->|Hqd]; [left; by injection Hq|right].
      destruct (decide (q = src ++ [f])); [done|]. split_and!; [done..|].
      rewrite HKm in Hq. destruct (kind_at q T) as [k|]; [done|].
      by case_bool_decide. }
    destruct (IH (ops ++ [MoveRecord "move" (src ++ [f]) d]) T1 T' ops' Hloop Hnd)
      as (new & -> & Hfilesnew & Hdirsnew).
    { intros g Hg. destruct (Hfiles g) as [cg Hcg]; [by right|]. exists cg.
      rewrite HK1. rewrite decide_False.
      2:{ intros Heq. rewrite Heq in *.
          assert (kind_at d fs1 = Some (KFile cg)) by by eapply FsFacts.makedirs_keeps.
          congruence. }
      rewrite decide_False by (intros [_ ->]%app_inj_tail; done).
      by eapply FsFacts.makedirs_keeps. }
    exists (MoveRecord "move" (src ++ [f]) d :: new).
    rewrite <-(assoc (++)). split_and!; [done| |].
    + intros q c' Hq.
      destruct (Hfilesnew q c' Hq) as [[Hq1 Hnot]|(r & g & Hr & Hg & Hsr & Hdr & Hk & Hdir)].
      * destruct (Hstep q c' Hq1) as [[-> ->]|(_ & Hqf & HqT)]; [right|left].
        -- exists (MoveRecord "move" (src ++ [f]) d), f. simpl.
           split_and!; [by left|by left|done..].
        -- split; [done|]. intros g [->|Hg]%elem_of_cons; [done|by apply Hnot].
      * right. exists r, g. split_and!; [by right|by right|done..| |done].
        destruct (Hstep _ _ Hk) as [[Heq _]|(_ & _ & HkT)]; [|done].
        destruct (Hfiles g) as [cg Hcg]; [by right|].
        assert (kind_at (src ++ [g]) fs1 = Some (KFile cg))
          by by eapply FsFacts.makedirs_keeps.
        rewrite Hsr in Heq. congruence.
    + intros q Hq. destruct (Hdirsnew q Hq) as [Hq1|?]; [|by right].
      rewrite HK1 in Hq1. destruct (decide (q = d)); [done|].
      destruct (decide (q = src ++ [f])); [done|].
      rewrite HKm in Hq1. destruct (kind_at q T) as [k|] eqn:HqT; [by left|].
      case_bool_decide; [|done]. right. exists (category_of f).
      split; [apply category_of_in_table|done].
Qed.

(** X12.  A successful organize makes no file and no directory of its own
    accord.  Every regular file in the tree afterwards either was at that
    path before, and is not directly in the source directory, or is the
    destination of a record and holds what the record's source held.  And
    every directory afterwards was one before, or is the target, a
    directory above it, or a category directory directly below it. *)
Theorem organize_creates_nothing_else now src dst st st' v :
  wf (fs st) →
  organize_by_type now src dst st = (st', Ok v) →
  ∃ op, last_operation st' = Some op ∧
    (∀ q c, Fs.file_at q (fs st') = Some c →
       (Fs.file_at q (fs st) = Some c ∧ ∀ f, q ≠ src ++ [f]) ∨
       ∃ r, r ∈ operations op ∧ destination r = q ∧
         Fs.file_at (source r) (fs st) = Some c) ∧
    (∀ q, Fs.isdir q (fs st') = true →
       Fs.isdir q (fs st) = true ∨ q `prefix_of` default src dst ∨
       ∃ cat, cat ∈ file_types.*1 ∧ q = default src dst ++ [cat]).
Proof.
  intros Hwf Hrun. set (tgt := default src dst) in *.
  apply organize_by_type_inv in Hrun
    as (tree0 & names & tree1 & ops & Hsrc & Htree0 & Hls & Hloop & -> & ->).
  change (default src dst) with tgt in Htree0, Hloop.
  assert (wf tree0 ∧ (∀ q, Fs.file_at q tree0 = Fs.file_at q (fs st)) ∧
          (∀ q, kind_at q tree0 = Some KDir →
                kind_at q (fs st) = Some KDir ∨ q `prefix_of` tgt))
    as (Hwf0 & Hfiles0 & Hdirs0).
  { destruct (Fs.path_exists tgt (fs st)) eqn:Hex.
    - subst tree0. split_and!; [done..|by left].
    - split_and!; [by eapply wf_makedirs|intros q; by eapply FsFacts.makedirs_file_at|].
      intros q Hq. rewrite (FsFacts.kind_at_makedirs _ _ _ _ q Htree0) in Hq.
      destruct (kind_at q (fs st)); [by left|]. case_bool_decide; [by right|done]. }
  unfold Fs.listdir in Hls.
  destruct (Fs.node_at src tree0) as [[c|es]|] eqn:Hsrcn; try done.
  injection Hls as <-.
  assert (NoDup es.*1) as Hnd.
  { by apply (wf_node_at _ _ _ Hwf0) in Hsrcn as [? _]%wf_Dir. }
  set (files := filter (λ f, Fs.isfile (src ++ [f]) tree0) es.*1) in *.
  destruct (organize_loop_conserves src tgt st files [] tree0 tree1 ops Hloop)
    as (new & Hnew & Hfilesnew & Hdirsnew).
  { by apply NoDup_filter. }
  { intros f [Hf _]%list_elem_of_filter. apply FsFacts.isfile_kind.
    by destruct (Fs.isfile (src ++ [f]) tree0). }
  simpl in Hnew. subst new. eexists. split; [reflexivity|]. simpl. split.
  - intros q c Hq. apply FsFacts.file_at_kind in Hq.
    destruct (Hfilesnew q c Hq) as [[Hq0 Hnot]|(r & f & Hr & _ & _ & Hdr & Hk & _)].
    + left. split; [rewrite <-Hfiles0; by apply FsFacts.file_at_kind|].
      intros f ->. apply (Hnot f); [|done]. apply list_elem_of_filter. split.
      * apply Is_true_true, FsFacts.isfile_kind. by exists c.
      * apply (path_exists_child src f es tree0 Hsrcn).
        apply FsFacts.path_exists_true. by eexists.
    + right. exists r. split_and!; [done..|].
      rewrite <-Hfiles0. by apply FsFacts.file_at_kind.
  - intros q Hq. apply FsFacts.isdir_kind in Hq.
    destruct (Hdirsnew q Hq) as [Hq0|(cat & Hcat & Hpre)].
    + destruct (Hdirs0 q Hq0) as [?|?]; [left; by apply FsFacts.isdir_kind|by right; left].
    + apply FsFacts.prefix_snoc_inv in Hpre as [->|?]; [|by right; left].
      right; right. by exists cat.
Qed.

Lemma organize_creates_nothing_else_example :
  ∃ op, last_operation once_organized = Some op ∧
    (∀ q c, Fs.file_at q (fs once_organized) = Some c →
       (Fs.file_at q scenario_fs = Some c ∧ ∀ f, q ≠ ["home"] ++ [f]) ∨
       ∃ r, r ∈ operations op ∧ destination r = q ∧
         Fs.file_at (source r) scenario_fs = Some c) ∧
    (∀ q, Fs.isdir q (fs once_organized) = true →
       Fs.isdir q scenario_fs = true ∨ q `prefix_of` ["home"] ∨
       ∃ cat, cat ∈ file_types.*1 ∧ q = ["home"] ++ [cat]).
Proof.
  apply (organize_creates_nothing_else "t1" ["home"] None (organizer_of scenario_fs)
           once_organized None).
  - simpl. repeat split; compute_done.
  - by vm_compute.
Defined.

(** What [makedirs] does to a listing: the names that were there keep their
    order, and a name that is added denotes a directory. *)
Module FsListing.
Import Fs FsFacts.

Lemma entries_update_absent x g es :
  child x es = None →
  entries_update x g es = es ++ match g None with Some c => [(x, c)] | None => [] end.
Proof.
  induction es as [|[y c] es IH]; simpl; [done|].
  destruct (decide (x = y)); [done|]. intros H. by rewrite IH.
Qed.

Lemma names_entries_update_keep x g es :
  g None = None → (∀ c, is_Some (g (Some c))) →
  (entries_update x g es).*1 = es.*1.
Proof.
  intros Hn Hs. induction es as [|[y c] es IH]; simpl.
  - by rewrite Hn.
  - destruct (decide (x = y)) as [->|].
    + by destruct (Hs c) as [c' ->].
    + by rewrite fmap_cons, IH.
Qed.

Lemma listdir_mkdir p fs fs' src names :
  mkdir p fs = Ok fs' → listdir src fs = Ok names →
  ∃ extra, listdir src fs' = Ok (names ++ extra) ∧
           ∀ x, x ∈ extra → src ++ [x] = p.
Proof.
  intros (Hnone & (q & x & es & -> & Hq) & ->)%mkdir_Ok Hls.
  unfold listdir in *.
  destruct (node_at src fs) as [[c|es_s]|] eqn:Hsrc; try done.
  injection Hls as <-.
  destruct (path_cases (q ++ [x]) src)
    as [[r ->]|[(r & Hr & Heq)|(c & a & b & r1 & r2 & Hab & Hp & ->)]].
  - apply (kind_at_None_below _ r) in Hnone. unfold kind_at in Hnone.
    by rewrite Hsrc in Hnone.
  - unfold put. rewrite Heq, node_at_update_above, Hsrc by done. simpl.
    destruct r as [|y r]; [done|]. destruct r as [|z r].
    + apply app_inj_tail in Heq as [-> <-]. simpl.
      rewrite entries_update_absent.
      * exists [x]. rewrite fmap_app. split; [done|]. by intros ? ->%list_elem_of_singleton.
      * unfold kind_at in Hnone. rewrite node_at_app, Hsrc in Hnone. simpl in Hnone.
        by destruct (child x es_s).
    + exists []. rewrite app_nil_r. split; [|by intros ? ?%elem_of_nil].
      rewrite update_cons_deep by done.
      rewrite names_entries_update_keep; [done..|]. intros c. by eexists.
  - exists []. rewrite app_nil_r. split; [|by intros ? ?%elem_of_nil].
    rewrite Hp. unfold put. rewrite node_at_update_beside by done.
    by rewrite Hsrc.
Qed.

Lemma isfile_mkdir_exist_ok e p fs fs' q :
  mkdir_exist_ok e p fs = Ok fs' → isfile q fs' = isfile q fs.
Proof.
  intros H. pose proof (kind_at_mkdir_exist_ok _ _ _ _ q H) as Hk.
  pose proof (mkdir_exist_ok_isdir _ _ _ _ H) as Hd.
  unfold mkdir_exist_ok in H. destruct (mkdir p fs) as [fs1|err] eqn:Hmk.
  - injection H as ->. apply mkdir_Ok in Hmk as (Hnone & _ & _).
    unfold isfile, kind_at in *. case_decide.
    + subst q. by destruct (node_at p fs') as [[]|], (node_at p fs) as [[]|].
    + by destruct (node_at q fs') as [[]|], (node_at q fs) as [[]|].
  - by destruct (negb e || negb (isdir p fs)); simplify_eq.
Qed.

Lemma listdir_mkdir_exist_ok e p fs fs' src names :
  mkdir_exist_ok e p fs = Ok fs' → listdir src fs = Ok names →
  ∃ extra, listdir src fs' = Ok (names ++ extra) ∧
           ∀ x, x ∈ extra → isfile (src ++ [x]) fs' = false.
Proof.
  intros H Hls. pose proof (mkdir_exist_ok_isdir _ _ _ _ H) as Hd.
  unfold mkdir_exist_ok in H. destruct (mkdir p fs) as [fs1|err] eqn:Hmk.
  - injection H as ->.
    destruct (listdir_mkdir _ _ _ _ _ Hmk Hls) as (extra & Hls' & Hextra).
    exists extra. split; [done|]. intros x ->%Hextra.
    unfold isfile, kind_at in *. by destruct (node_at _ fs') as [[]|].
  - destruct (negb e || negb (isdir p fs)); simplify_eq.
    exists []. rewrite app_nil_r. split; [done|]. by intros ? ?%elem_of_nil.
Qed.

Lemma listdir_makedirs_rev e rp fs fs' src names :
  makedirs_rev e rp fs = Ok fs' → listdir src fs = Ok names →
  ∃ extra, listdir src fs' = Ok (names ++ extra) ∧
           ∀ x, x ∈ extra → isfile (src ++ [x]) fs' = false.
Proof.
  revert fs fs' names. induction rp as [|x rhead IH]; intros fs fs' names Hmk Hls.
  - by eapply listdir_mkdir_exist_ok.
  - simpl in Hmk.
    destruct (negb (path_exists (rev rhead) fs)); [|by eapply listdir_mkdir_exist_ok].
    destruct (makedirs_rev e rhead fs) as [fs1|err] eqn:Hrec.
    + destruct (IH _ _ _ Hrec Hls) as (extra1 & Hls1 & Hextra1).
      destruct (listdir_mkdir_exist_ok _ _ _ _ _ _ Hmk Hls1) as (extra2 & Hls2 & Hextra2).
      exists (extra1 ++ extra2). rewrite (assoc (++)). split; [done|].
      intros y [Hy|Hy]%elem_of_app; [|by apply Hextra2].
      rewrite (isfile_mkdir_exist_ok _ _ _ _ _ Hmk). by apply Hextra1.
    + destruct err; try done. by eapply listdir_mkdir_exist_ok.
Qed.

Lemma listed_files_makedirs e p fs fs' src names names' :
  makedirs e p fs = Ok fs' →
  listdir src fs = Ok names → listdir src fs' = Ok names' →
  filter (λ f, isfile (src ++ [f]) fs') names'
  = filter (λ f, isfile (src ++ [f]) fs) names.
Proof.
  intros Hmk Hls Hls'.
  destruct (listdir_makedirs_rev _ _ _ _ _ _ Hmk Hls) as (extra & Hls2 & Hextra).
  rewrite Hls' in Hls2. injection Hls2 as ->. rewrite filter_app.
  assert (filter (λ f, isfile (src ++ [f]) fs') extra = []) as ->.
  { clear Hls'. induction extra as [|y extra IH]; [done|].
    rewrite filter_cons. rewrite (Hextra y) by by left. simpl.
    apply IH. intros z Hz. apply Hextra. by right. }
  rewrite app_nil_r. apply list_filter_iff. intros f.
  unfold isfile. pose proof (makedirs_file_at _ _ _ _ (src ++ [f]) Hmk) as Hf.
  unfold file_at in Hf.
  by destruct (node_at (src ++ [f]) fs') as [[]|], (node_at (src ++ [f]) fs) as [[]|].
Qed.

End FsListing.

Lemma organize_loop_records src tgt st files :
  ∀ ops T T' ops',
    organize_loop src tgt files ops (set_fs T st) = (set_fs T' st, Ok ops') →
    NoDup files →
    (∀ f, f ∈ files → ∃ c, kind_at (src ++ [f]) T = Some (KFile c)) →
    ∃ new, ops' = ops ++ new ∧
      source <$> new = (λ f, src ++ [f]) <$> files ∧
      Forall (λ r, operation r = "move") new ∧
      NoDup (destination <$> new) ∧
      ∀ r, r ∈ new →
        kind_at (destination r) T = None ∨ ∃ f, f ∈ files ∧ destination r = src ++ [f].
Proof.
  induction files as [|f files IH]; intros ops T T' ops' Hloop Hnd Hfiles.
  - simpl in Hloop. injection Hloop as -> ->. exists []. rewrite app_nil_r.
    split_and!; [done..|constructor|by intros ? ?%elem_of_nil].
  - simpl in Hloop. rewrite bind_run in Hloop.
    destruct (organize_file src tgt f (set_fs T st)) as [st1 [r|e]] eqn:Hf; [|done].
    pose proof (only_fs_run _ _ _ _ (only_fs_organize_file _ _ _) Hf) as Hst1.
    simpl in Hst1. rewrite Hst1 in Hf, Hloop. set (T1 := fs st1) in *. clearbody T1.
    clear Hst1 st1.
    apply NoDup_cons in Hnd as [Hf_notin Hnd].
    destruct (Hfiles f) as [c Hc]; [by left|].
    destruct (Fs.makedirs true (tgt ++ [category_of f]) T) as [fs1|e] eqn:Hmk.
    2:{ by rewrite (organize_file_raise src tgt f (set_fs T st) e Hmk) in Hf. }
    pose proof (organize_file_run src tgt f (set_fs T st) c fs1 Hc Hmk) as Hrun.
    simpl in Hrun. rewrite Hf in Hrun.
    set (d := _get_unique_path fs1 ((tgt ++ [category_of f]) ++ [f])) in *.
    injection Hrun as HT1 ->.
    assert (kind_at (src ++ [f]) fs1 = Some (KFile c)) as Hs1
      by by eapply FsFacts.makedirs_keeps.
    assert (kind_at d fs1 = None) as Hd1
      by apply FsFacts.path_exists_false, get_unique_path_free.
    assert (Fs.dirname d = tgt ++ [category_of f]) as Hdd.
    { unfold d. rewrite get_unique_path_dirname by (by intros [? ?]%app_eq_nil).
      apply FsFacts.dirname_snoc. }
    assert (kind_at (Fs.dirname d) fs1 = Some KDir) as Hdd1.
    { rewrite Hdd. by eapply FsFacts.makedirs_isdir. }
    pose proof (λ q, FsFacts.kind_at_move_file_fresh _ _ _ _ _ q Hs1 Hd1 Hdd1
      (FsFacts.move_file_fresh _ _ _ _ Hs1 Hd1 Hdd1)) as HK1.
    rewrite <-HT1 in HK1.
    assert (∀ q, kind_at q fs1 = None → kind_at q T = None) as Hback.
    { intros q Hq. destruct (kind_at q T) as [k|] eqn:HqT; [|done].
      by rewrite (FsFacts.makedirs_keeps _ _ _ _ _ _ Hmk HqT) in Hq. }
    assert (∀ g, g ∈ files → ∃ cg, kind_at (src ++ [g]) fs1 = Some (KFile cg)) as Hrest1.
    { intros g Hg. destruct (Hfiles g) as [cg Hcg]; [by right|]. exists cg.
      by eapply FsFacts.makedirs_keeps. }
    destruct (IH (ops ++ [MoveRecord "move" (src ++ [f]) d]) T1 T' ops' Hloop Hnd)
      as (new & -> & Hsrcs & Hmove & Hnodup & Hdests).
    { intros g Hg. destruct (Hrest1 g Hg) as [cg Hcg]. exists cg.
      rewrite HK1. rewrite decide_False by congruence.
      by rewrite decide_False by (intros [_ ->]%app_inj_tail; done). }
    exists (MoveRecord "move" (src ++ [f]) d :: new).
    rewrite <-(assoc (++)). split_and!; [done|by rewrite !fmap_cons, Hsrcs|by constructor| |].
    + rewrite fmap_cons. simpl. apply NoDup_cons. split; [|done].
      intros (r & Hdr & Hr)%list_elem_of_fmap.
      destruct (Hdests r Hr) as [Hfree|(g & Hg & Hdg)].
      * rewrite <-Hdr, HK1, decide_True in Hfree; done.
      * destruct (Hrest1 g Hg) as [cg Hcg]. congruence.
    + intros r [->|Hr]%elem_of_cons; simpl; [left; by apply Hback|].
      destruct (Hdests r Hr) as [Hfree|(g & Hg & Hdg)].
      * rewrite HK1 in Hfree. destruct (decide (destination r = d)); [done|].
        destruct (decide (destination r = src ++ [f])) as [Heq|].
        -- right. exists f. split; [by left|done].
        -- left. by apply Hback.
      * right. exists g. split; [by right|done].
Qed.

(** X13.  The batch a successful organize records has one record for each
    regular file directly in the source directory, in the order in which
    the directory lists them; every record is a "move"; and no two records
    have the same destination. *)
Theorem organize_records_in_order now src dst st st' v :
  wf (fs st) →
  organize_by_type now src dst st = (st', Ok v) →
  ∃ names op,
    Fs.listdir src (fs st) = Ok names ∧
    last_operation st' = Some op ∧
    source <$> operations op
      = (λ f, src ++ [f]) <$> filter (λ f, Fs.isfile (src ++ [f]) (fs st)) names ∧
    Forall (λ r, operation r = "move") (operations op) ∧
    NoDup (destination <$> operations op).
Proof.
  intros Hwf Hrun. set (tgt := default src dst) in *.
  apply organize_by_type_inv in Hrun
    as (tree0 & names0 & tree1 & ops & Hsrc & Htree0 & Hls & Hloop & -> & ->).
  change (default src dst) with tgt in Htree0, Hloop.
  assert (∃ names, Fs.listdir src (fs st) = Ok names ∧
            filter (λ f, Fs.isfile (src ++ [f]) tree0) names0
            = filter (λ f, Fs.isfile (src ++ [f]) (fs st)) names ∧ wf tree0)
    as (names & Hnames & Hfilter & Hwf0).
  { destruct (Fs.path_exists tgt (fs st)) eqn:Hex.
    - subst tree0. by exists names0.
    - apply FsFacts.path_exists_true in Hsrc as [k Hk].
      pose proof (FsFacts.makedirs_keeps _ _ _ _ _ _ Htree0 Hk) as Hk0.
      unfold Fs.listdir, kind_at in *.
      destruct (Fs.node_at src tree0) as [[|es0]|] eqn:Hn0; try done.
      destruct (Fs.node_at src (fs st)) as [[|es]|] eqn:Hn; simplify_eq/=.
      exists es.*1. split_and!; [done| |by eapply wf_makedirs].
      eapply FsListing.listed_files_makedirs; [exact Htree0|..];
        unfold Fs.listdir; by rewrite ?Hn, ?Hn0. }
  rewrite Hfilter in Hloop.
  set (files := filter (λ f, Fs.isfile (src ++ [f]) (fs st)) names) in *.
  assert (NoDup files ∧ ∀ f, f ∈ files → ∃ c, kind_at (src ++ [f]) tree0 = Some (KFile c))
    as [Hnd Hfiles].
  { rewrite <-Hfilter. unfold Fs.listdir in Hls.
    destruct (Fs.node_at src tree0) as [[c|es]|] eqn:Hsrcn; try done.
    injection Hls as <-. split.
    - apply NoDup_filter. by apply (wf_node_at _ _ _ Hwf0) in Hsrcn as [? _]%wf_Dir.
    - intros f [Hf _]%list_elem_of_filter. apply FsFacts.isfile_kind.
      by destruct (Fs.isfile (src ++ [f]) tree0). }
  destruct (organize_loop_records src tgt st files [] tree0 tree1 ops Hloop Hnd Hfiles)
    as (new & Hnew & Hsrcs & Hmove & Hnodup & _).
  simpl in Hnew. subst new. by exists names, (Batch now "organize_by_type" src tgt ops).
Qed.

Lemma organize_records_in_order_example :
  ∃ names op,
    Fs.listdir ["home"] scenario_fs = Ok names ∧
    last_operation organized_elsewhere = Some op ∧
    source <$> operations op
      = (λ f, ["home"] ++ [f])
          <$> filter (λ f, Fs.isfile (["home"] ++ [f]) scenario_fs) names ∧
    Forall (λ r, operation r = "move") (operations op) ∧
    NoDup (destination <$> operations op).
Proof.
  apply (organize_records_in_order "t1" ["home"] (Some ["sorted"; "by-type"])
           (organizer_of scenario_fs) organized_elsewhere None).
  - simpl. repeat split; compute_done.
  - by vm_compute.
Defined.

(** * Nothing to move *)

Lemma filter_nil_all {A} (P : A → bool) (l : list A) :
  (∀ x, x ∈ l → P x = false) → filter (λ x, P x) l = [].
Proof.
  induction l as [|x l IH]; intros H; [done|].
  rewrite filter_cons, (H x) by by left. simpl. apply IH. intros y Hy. apply H. by right.
Qed.

Lemma organize_empty_run now src dst st names :
  Fs.listdir src (fs st) = Ok names →
  (∀ f, f ∈ names → Fs.isfile (src ++ [f]) (fs st) = false) →
  Fs.path_exists (default src dst) (fs st) = true →
  let op := Batch now "organize_by_type" src (default src dst) [] in
  organize_by_type now src dst st
  = (Organizer (fs st) (Json [op]) (timeline_file st ++ [op]) [op] (Some op), Ok None).
Proof.
  intros Hls Hnone Htgt op. unfold organize_by_type.
  assert (Fs.path_exists src (fs st) = true) as Hsrc.
  { unfold Fs.listdir, Fs.path_exists in *. by destruct (Fs.node_at src (fs st)). }
  rewrite bind_run, get_run, Hsrc. simpl. rewrite Htgt. simpl.
  rewrite bind_run, ret_run, bind_run, get_run, bind_run, Hls. simpl.
  rewrite bind_run, filter_nil_all by done. simpl. by destruct st.
Qed.

(** X14.  Organizing a directory that holds no regular file (it is empty,
    or holds directories only) into a target that exists succeeds and
    leaves the tree as it is, but it records a batch without records: the
    history file holds that batch alone, so whatever could be undone before
    the call no longer can. *)
Theorem organize_nothing_to_move now src dst st names :
  Fs.listdir src (fs st) = Ok names →
  (∀ f, f ∈ names → Fs.isfile (src ++ [f]) (fs st) = false) →
  Fs.path_exists (default src dst) (fs st) = true →
  let op := Batch now "organize_by_type" src (default src dst) [] in
  organize_by_type now src dst st
  = (Organizer (fs st) (Json [op]) (timeline_file st ++ [op]) [op] (Some op),
     Ok None) ∧
  undoable (organize_by_type now src dst st).1 = [].
Proof.
  intros Hls Hnone Htgt op.
  pose proof (organize_empty_run now src dst st names Hls Hnone Htgt) as Hrun.
  simpl in Hrun. split; [done|]. by rewrite Hrun.
Qed.

Lemma organize_nothing_to_move_example :
  let op := Batch "t2" "organize_by_type" ["home"] ["home"] [] in
  organize_by_type "t2" ["home"] None once_organized
  = (Organizer (fs once_organized) (Json [op]) (timeline_file once_organized ++ [op])
       [op] (Some op), Ok None) ∧
  undoable (organize_by_type "t2" ["home"] None once_organized).1 = [].
Proof.
  apply (organize_nothing_to_move "t2" ["home"] None once_organized
           ["images"; "documents"; "others"]).
  - by vm_compute.
  - intros f Hf. repeat (apply elem_of_cons in Hf as [->|Hf]; [by vm_compute|]).
    by apply elem_of_nil in Hf.
  - by vm_compute.
Defined.

(** X15.  After a successful organize in place (no destination given), no
    regular file is left directly in the directory.  So organizing it once
    more moves nothing, and replaces the recorded batch by one without
    records: the first organization can no longer be undone. *)
Theorem organize_in_place_twice now1 now2 src st st1 v :
  wf (fs st) →
  organize_by_type now1 src None st = (st1, Ok v) →
  (∀ f, Fs.isfile (src ++ [f]) (fs st1) = false) ∧
  let op := Batch now2 "organize_by_type" src src [] in
  organize_by_type now2 src None st1
  = (Organizer (fs st1) (Json [op]) (timeline_file st1 ++ [op]) [op] (Some op),
     Ok None) ∧
  undoable (organize_by_type now2 src None st1).1 = [].
Proof.
  intros Hwf Hrun.
  pose proof Hrun as Hinv. apply organize_by_type_inv in Hinv
    as (tree0 & names & tree1 & ops & Hsrc & Htree0 & Hls & Hloop & -> & Hst1).
  simpl in Htree0, Hloop. rewrite Hsrc in Htree0. subst tree0.
  unfold Fs.listdir in Hls.
  destruct (Fs.node_at src (fs st)) as [[c|es]|] eqn:Hsrcn; try done.
  injection Hls as <-.
  assert (NoDup es.*1) as Hnd.
  { by apply (wf_node_at _ _ _ Hwf) in Hsrcn as [? _]%wf_Dir. }
  set (files := filter (λ f, Fs.isfile (src ++ [f]) (fs st)) es.*1) in *.
  destruct (organize_loop_conserves src src st files [] (fs st) tree1 ops Hloop)
    as (new & Hnew & Hfilesnew & _).
  { by apply NoDup_filter. }
  { intros f [Hf _]%list_elem_of_filter. apply FsFacts.isfile_kind.
    by destruct (Fs.isfile (src ++ [f]) (fs st)). }
  assert (fs st1 = tree1) as Hfs1 by by subst st1.
  assert (∀ f, Fs.isfile (src ++ [f]) (fs st1) = false) as Hnone.
  { intros f. rewrite Hfs1. destruct (Fs.isfile (src ++ [f]) tree1) eqn:Hf; [|done].
    apply FsFacts.isfile_kind in Hf as [c Hc].
    destruct (Hfilesnew _ _ Hc) as [[Hc0 Hnot]|(r & g & _ & _ & _ & Hdr & _ & Hdir)].
    - exfalso. apply (Hnot f); [|done]. apply list_elem_of_filter. split.
      + apply Is_true_true, FsFacts.isfile_kind. by exists c.
      + apply (path_exists_child src f es (fs st) Hsrcn).
        apply FsFacts.path_exists_true. by eexists.
    - rewrite Hdr, FsFacts.dirname_snoc in Hdir.
      apply (f_equal length) in Hdir. rewrite length_app in Hdir. simpl in Hdir. lia. }
  assert (kind_at src (fs st1) = Some KDir) as Hdir1.
  { rewrite Hfs1. change tree1 with (fs (set_fs tree1 st)).
    apply (organize_loop_keeps src src files _ _ (set_fs tree1 st) _ src KDir Hloop).
    - simpl. unfold kind_at. by rewrite Hsrcn.
    - intros f _. apply snoc_not_prefix. }
  assert (∃ names1, Fs.listdir src (fs st1) = Ok names1) as [names1 Hls1].
  { unfold Fs.listdir, kind_at in *.
    destruct (Fs.node_at src (fs st1)) as [[]|]; try done. by eexists. }
  assert (Fs.path_exists (default src None) (fs st1) = true) as Hex1.
  { apply FsFacts.path_exists_true. simpl. by rewrite Hdir1. }
  pose proof (organize_empty_run now2 src None st1 names1 Hls1
                (λ f _, Hnone f) Hex1) as Hsecond.
  simpl in Hsecond. split_and!; [done..|]. by rewrite Hsecond.
Qed.

Lemma organize_in_place_twice_example :
  (∀ f, Fs.isfile (["home"] ++ [f]) (fs once_organized) = false) ∧
  let op := Batch "t2" "organize_by_type" ["home"] ["home"] [] in
  organize_by_type "t2" ["home"] None once_organized
  = (Organizer (fs once_organized) (Json [op]) (timeline_file once_organized ++ [op])
       [op] (Some op), Ok None) ∧
  undoable (organize_by_type "t2" ["home"] None once_organized).1 = [].
Proof.
  apply (organize_in_place_twice "t1" "t2" ["home"] (organizer_of scenario_fs)
           once_organized None).
  - simpl. repeat split; compute_done.
  - by vm_compute.
Defined.

(** * A source that is not a directory *)

(** X16.  When the source path is a regular file the call fails with
    [NotADirectoryError] at the listing, and nothing is recorded.  By then
    a target that did not exist has been created: the failed call leaves an
    empty target directory behind (no file is touched).  When the target
    cannot be created, that error is the outcome and nothing has changed. *)
Theorem organize_source_is_file now src dst st :
  Fs.isfile src (fs st) = true →
  let tgt := default src dst in
  (Fs.path_exists tgt (fs st) = true →
     organize_by_type now src dst st = (st, Raise NotADirectoryError)) ∧
  (∀ tree0,
     Fs.path_exists tgt (fs st) = false →
     Fs.makedirs false tgt (fs st) = Ok tree0 →
     organize_by_type now src dst st = (set_fs tree0 st, Raise NotADirectoryError) ∧
     Fs.isdir tgt tree0 = true ∧
     ∀ q, Fs.file_at q tree0 = Fs.file_at q (fs st)) ∧
  (∀ e,
     Fs.path_exists tgt (fs st) = false →
     Fs.makedirs false tgt (fs st) = Raise e →
     organize_by_type now src dst st = (st, Raise e)).
Proof.
  intros Hfile tgt.
  assert (Fs.path_exists src (fs st) = true) as Hsrc.
  { unfold Fs.isfile, Fs.path_exists in *. by destruct (Fs.node_at src (fs st)). }
  assert (∀ tree0, (∀ q, Fs.file_at q tree0 = Fs.file_at q (fs st)) →
            Fs.listdir src tree0 = Raise NotADirectoryError) as Hls.
  { intros tree0 H0. specialize (H0 src). unfold Fs.listdir, Fs.isfile, Fs.file_at in *.
    by destruct (Fs.node_at src (fs st)) as [[]|], (Fs.node_at src tree0) as [[]|]. }
  unfold organize_by_type. fold tgt. rewrite bind_run, get_run, Hsrc. simpl.
  split_and!.
  - intros Htgt. rewrite Htgt. simpl.
    rewrite bind_run, ret_run, bind_run, get_run, bind_run, Hls by done. done.
  - intros tree0 Htgt Hmk. rewrite Htgt. simpl.
    pose proof (λ q, FsFacts.makedirs_file_at _ _ _ _ q Hmk) as H0.
    split_and!; [|by eapply FsFacts.isdir_kind, FsFacts.makedirs_isdir|done].
    rewrite bind_run. unfold fs_call at 1. rewrite Hmk.
    rewrite bind_run, get_run, bind_run. simpl fs. by rewrite Hls.
  - intros e Htgt Hmk. rewrite Htgt. simpl.
    rewrite bind_run. unfold fs_call at 1. by rewrite Hmk.
Qed.

Lemma organize_source_is_file_example :
  organize_by_type "t1" ["home"; "a.jpg"] (Some ["sorted"]) (organizer_of scenario_fs)
  = (set_fs (Dir [("home", Dir [("a.jpg", File "A"); ("b.txt", File "B");
                                ("c.xyz", File "C")]);
                  ("sorted", Dir [])])
       (organizer_of scenario_fs),
     Raise NotADirectoryError).
Proof.
  apply (organize_source_is_file "t1" ["home"; "a.jpg"] (Some ["sorted"])
           (organizer_of scenario_fs)); by vm_compute.
Defined.

(** * When organize succeeds *)

Lemma makedirs_category_ok (d : path) x fs :
  kind_at d fs = Some KDir →
  (∀ c, kind_at (d ++ [x]) fs ≠ Some (KFile c)) →
  ∃ fs1, Fs.makedirs true (d ++ [x]) fs = Ok fs1.
Proof.
  intros Hd Hx. destruct (kind_at (d ++ [x]) fs) as [[c|]|] eqn:Hk.
  - by destruct (Hx c).
  - exists fs. by apply FsFacts.makedirs_existing_dir.
  - unfold Fs.makedirs. rewrite rev_unit. simpl. rewrite rev_involutive.
    assert (Fs.path_exists d fs = true) as ->
      by (apply FsFacts.path_exists_true; by eexists).
    simpl. unfold Fs.mkdir_exist_ok, Fs.mkdir.
    rewrite (proj2 (FsFacts.path_exists_false _ _) Hk), FsFacts.dirname_snoc.
    unfold kind_at in Hd. destruct (Fs.node_at d fs) as [[]|]; simplify_eq/=.
    by eexists.
Qed.

Lemma organize_loop_succeeds src tgt st files :
  ∀ ops T,
    NoDup files →
    (∀ f, f ∈ files → ∃ c, kind_at (src ++ [f]) T = Some (KFile c)) →
    kind_at tgt T = Some KDir →
    (∀ cat c, cat ∈ file_types.*1 → kind_at (tgt ++ [cat]) T ≠ Some (KFile c)) →
    ∃ T' ops', organize_loop src tgt files ops (set_fs T st) = (set_fs T' st, Ok ops').
Proof.
  induction files as [|f files IH]; intros ops T Hnd Hfiles Htgt Hcats.
  - by exists T, ops.
  - simpl. rewrite bind_run.
    apply NoDup_cons in Hnd as [Hf_notin Hnd].
    destruct (Hfiles f) as [c Hc]; [by left|].
    destruct (makedirs_category_ok tgt (category_of f) T Htgt) as [fs1 Hmk].
    { intros c'. apply Hcats, category_of_in_table. }
    pose proof (organize_file_run src tgt f (set_fs T st) c fs1 Hc Hmk) as Hrun.
    simpl in Hrun. rewrite Hrun.
    set (d := _get_unique_path fs1 ((tgt ++ [category_of f]) ++ [f])) in *.
    assert (kind_at (src ++ [f]) fs1 = Some (KFile c)) as Hs1
      by by eapply FsFacts.makedirs_keeps.
    assert (kind_at d fs1 = None) as Hd1
      by apply FsFacts.path_exists_false, get_unique_path_free.
    assert (Fs.dirname d = tgt ++ [category_of f]) as Hdd.
    { unfold d. rewrite get_unique_path_dirname by (by intros [? ?]%app_eq_nil).
      apply FsFacts.dirname_snoc. }
    assert (kind_at (Fs.dirname d) fs1 = Some KDir) as Hdd1.
    { rewrite Hdd. by eapply FsFacts.makedirs_isdir. }
    pose proof (λ q, FsFacts.kind_at_move_file_fresh _ _ _ _ _ q Hs1 Hd1 Hdd1
      (FsFacts.move_file_fresh _ _ _ _ Hs1 Hd1 Hdd1)) as HK1.
    pose proof (λ q, FsFacts.kind_at_makedirs _ _ _ _ q Hmk) as HKm.
    apply IH; [done| | |].
    + intros g Hg. destruct (Hfiles g) as [cg Hcg]; [by right|]. exists cg.
      assert (kind_at (src ++ [g]) fs1 = Some (KFile cg)) as Hg1
        by by eapply FsFacts.makedirs_keeps.
      rewrite HK1. rewrite decide_False by congruence.
      by rewrite decide_False by (intros [_ ->]%app_inj_tail; done).
    + assert (kind_at tgt fs1 = Some KDir) as Ht1 by by eapply FsFacts.makedirs_keeps.
      rewrite HK1. rewrite decide_False by congruence.
      by rewrite decide_False by congruence.
    + intros cat c' Hcat. rewrite HK1.
      rewrite decide_False.
      2:{ intros Heq. apply (f_equal Fs.dirname) in Heq.
          rewrite Hdd, FsFacts.dirname_snoc in Heq.
          apply (f_equal length) in Heq. rewrite length_app in Heq. simpl in Heq. lia. }
      case_decide; [done|].
      rewrite HKm. destruct (kind_at (tgt ++ [cat]) T) as [k|] eqn:Hk.
      * intros [= ->]. by apply (Hcats cat c').
      * by case_bool_decide.
Qed.

(** X17.  On a well-formed tree, organize succeeds whenever the source and
    the target are directories and none of the category names is taken, in
    the target, by a regular file. *)
Theorem organize_succeeds now src dst st :
  wf (fs st) →
  Fs.isdir src (fs st) = true →
  Fs.isdir (default src dst) (fs st) = true →
  (∀ cat, cat ∈ file_types.*1 → Fs.isfile (default src dst ++ [cat]) (fs st) = false) →
  ∃ st', organize_by_type now src dst st = (st', Ok None).
Proof.
  intros Hwf Hsrc Htgt Hcats. set (tgt := default src dst) in *.
  apply FsFacts.isdir_kind in Hsrc, Htgt.
  unfold organize_by_type. fold tgt. rewrite bind_run, get_run.
  rewrite (proj2 (FsFacts.path_exists_true src (fs st))) by by eexists.
  simpl. rewrite (proj2 (FsFacts.path_exists_true tgt (fs st))) by by eexists.
  simpl. rewrite bind_run, ret_run, bind_run, get_run, bind_run.
  unfold Fs.listdir. unfold kind_at in Hsrc.
  destruct (Fs.node_at src (fs st)) as [[|es]|] eqn:Hsrcn; simplify_eq/=.
  rewrite bind_run.
  set (files := filter (λ f, Fs.isfile (src ++ [f]) (fs st)) es.*1).
  destruct (organize_loop_succeeds src tgt st files [] (fs st)) as (T' & ops & Hloop).
  - apply NoDup_filter. by apply (wf_node_at _ _ _ Hwf) in Hsrcn as [? _]%wf_Dir.
  - intros f [Hf _]%list_elem_of_filter. apply FsFacts.isfile_kind.
    by destruct (Fs.isfile (src ++ [f]) (fs st)).
  - done.
  - intros cat c Hcat Hk. specialize (Hcats cat Hcat).
    assert (Fs.isfile (tgt ++ [cat]) (fs st) = true)
      by (apply FsFacts.isfile_kind; by exists c).
    congruence.
  - rewrite set_fs_id in Hloop. rewrite Hloop. by eexists.
Qed.

Lemma organize_succeeds_example :
  ∃ st', organize_by_type "t1" ["home"] None (organizer_of scenario_fs) = (st', Ok None).
Proof.
  apply (organize_succeeds "t1" ["home"] None (organizer_of scenario_fs)).
  - simpl. repeat split; compute_done.
  - by vm_compute.
  - by vm_compute.
  - intros cat Hcat. simpl in Hcat.
    repeat (apply elem_of_cons in Hcat as [->|Hcat]; [by vm_compute|]).
    by apply elem_of_nil in Hcat.
Defined.

(** * Names and categories *)

Lemma app_cons_string a s t : String a s +:+ t = String a (s +:+ t).
Proof. done. Qed.

Lemma app_nil_string t : "" +:+ t = t.
Proof. done. Qed.

Lemma split_last_dot_None s : Str.split_last_dot s = None ↔ no_dot s = true.
Proof.
  induction s as [|c s IH]; simpl; [done|].
  destruct (Str.split_last_dot s) as [[b e]|].
  - split; [done|]. intros [_ H]%andb_true_iff. by apply IH in H.
  - destruct (Str.is_dot c); simpl; [done|]. by rewrite <-IH.
Qed.

Lemma split_last_dot_Some s b e :
  Str.split_last_dot s = Some (b, e) →
  ∃ e', e = String "." e' ∧ no_dot e' = true ∧ s = b +:+ e.
Proof.
  revert b e. induction s as [|c s IH]; intros b e; simpl; [done|].
  destruct (Str.split_last_dot s) as [[b0 e0]|] eqn:Hs.
  - intros [= <- <-]. destruct (IH _ _ eq_refl) as (e' & -> & Hnd & ->).
    by exists e'.
  - unfold Str.is_dot. case_bool_decide as Hc; [|done]. intros [= <- <-]. subst c.
    exists s. split_and!; [done| |done]. by apply split_last_dot_None.
Qed.

Lemma split_last_dot_at b e' :
  no_dot e' = true → Str.split_last_dot (b +:+ String "." e') = Some (b, String "." e').
Proof.
  intros Hnd. induction b as [|c b IH].
  - rewrite app_nil_string. simpl.
    by rewrite (proj2 (split_last_dot_None e') Hnd).
  - rewrite app_cons_string. simpl. by rewrite IH.
Qed.

Lemma split_last_dot_snoc s t :
  no_dot t = true →
  Str.split_last_dot (s +:+ t)
  = match Str.split_last_dot s with
    | Some (b, e) => Some (b, e +:+ t)
    | None => None
    end.
Proof.
  intros Hnd. induction s as [|c s IH].
  - rewrite app_nil_string. simpl. by apply split_last_dot_None.
  - rewrite app_cons_string. simpl. rewrite IH.
    destruct (Str.split_last_dot s) as [[b e]|]; [done|].
    by destruct (Str.is_dot c).
Qed.

Lemma all_dots_app b t : Str.all_dots (b +:+ t) = Str.all_dots b && Str.all_dots t.
Proof.
  induction b as [|c b IH]; [done|].
  rewrite app_cons_string. simpl. rewrite IH. by rewrite andb_assoc.
Qed.

Lemma no_dot_app s t : no_dot (s +:+ t) = no_dot s && no_dot t.
Proof.
  induction s as [|c s IH]; [done|].
  rewrite app_cons_string. simpl. rewrite IH. by rewrite andb_assoc.
Qed.

Lemma no_dot_pretty_N_go x s : no_dot s = true → no_dot (pretty_N_go x s) = true.
Proof.
  revert s. induction (N.lt_wf_0 x) as [x _ IH]; intros s Hs.
  assert (x = 0 ∨ 0 < x)%N as [->|?] by lia.
  - by rewrite pretty_N_go_0.
  - rewrite pretty_N_go_step by done. apply IH.
    { by apply N.div_lt. }
    simpl. rewrite Hs, andb_true_r. unfold pretty_N_char. by repeat case_match.
Qed.

Lemma no_dot_pretty (k : nat) : no_dot (pretty k) = true.
Proof.
  unfold pretty, pretty_nat, pretty, pretty_N. case_decide; [done|].
  by apply no_dot_pretty_N_go.
Qed.

Lemma string_app_nil_r s : s +:+ "" = s.
Proof. induction s as [|c s IH]; [done|]. rewrite app_cons_string. by f_equal. Qed.

Lemma string_app_assoc s t u : (s +:+ t) +:+ u = s +:+ t +:+ u.
Proof. induction s as [|c s IH]; [done|]. rewrite !app_cons_string. by f_equal. Qed.

(** The suffix keeps the extension. *)
Lemma splitext_candidate f (k : nat) :
  Str.splitext ((Str.splitext f).1 +:+ "_" +:+ pretty k +:+ (Str.splitext f).2)
  = ((Str.splitext f).1 +:+ "_" +:+ pretty k, (Str.splitext f).2).
Proof.
  assert (no_dot ("_" +:+ pretty k) = true) as Hnd.
  { rewrite no_dot_app, no_dot_pretty. done. }
  assert (∀ b e, b +:+ "_" +:+ pretty k +:+ e = (b +:+ ("_" +:+ pretty k)) +:+ e) as Hassoc.
  { intros b e. by rewrite !string_app_assoc. }
  unfold Str.splitext at 2 3 4 5.
  destruct (Str.split_last_dot f) as [[b e]|] eqn:Hf.
  - destruct (Str.all_dots b) eqn:Hb; simpl.
    + rewrite Hassoc, string_app_nil_r. unfold Str.splitext.
      rewrite split_last_dot_snoc, Hf by done. by rewrite Hb.
    + destruct (split_last_dot_Some _ _ _ Hf) as (e' & -> & He' & _).
      rewrite Hassoc. unfold Str.splitext.
      rewrite split_last_dot_at by done.
      rewrite all_dots_app. simpl. by rewrite andb_false_r.
  - simpl. rewrite Hassoc, string_app_nil_r. unfold Str.splitext.
    by rewrite split_last_dot_snoc, Hf by done.
Qed.

(** X18.  The name that [_get_unique_path] returns is in the directory of
    the name it was given and has the same extension, hence the same
    category: a file renamed on a collision is sorted, if organized again,
    as the original would be.  The path returned is free, so the generator
    returns it unchanged when it is given it. *)
Theorem unique_path_keeps_category tree (d : path) f :
  (∃ f', _get_unique_path tree (d ++ [f]) = d ++ [f'] ∧
         (Str.splitext f').2 = (Str.splitext f).2 ∧
         category_of f' = category_of f) ∧
  _get_unique_path tree (_get_unique_path tree (d ++ [f]))
  = _get_unique_path tree (d ++ [f]).
Proof.
  split; [|apply get_unique_path_fresh, get_unique_path_free].
  destruct (Fs.path_exists (d ++ [f]) tree) eqn:Hex.
  - destruct (get_unique_path_taken _ _ Hex) as (k & _ & -> & _).
    rewrite splitext_snoc. simpl. rewrite candidate_snoc. eexists. split; [done|].
    rewrite !category_of_unfold, splitext_candidate. done.
  - rewrite get_unique_path_fresh by done. by exists f.
Qed.













(** * The text of the timeline *)

Import Text.

Lemma universal_newlines_nil raw : universal_newlines raw = [] ↔ raw = [].
Proof. destruct raw as [|c raw]; simpl; [done|]. by destruct (c =? 13)%N. Qed.

Lemma universal_newlines_spaces raw :
  strip_is_empty (universal_newlines raw) = strip_is_empty raw.
Proof.
  unfold strip_is_empty.
  induction raw as [raw IH] using (induction_ltof1 _ length). unfold ltof in IH.
  destruct raw as [|c raw]; [done|]. simpl.
  destruct (c =? 13)%N eqn:Hc.
  - apply N.eqb_eq in Hc as ->. simpl. destruct raw as [|c' raw']; [done|].
    destruct (c' =? 10)%N eqn:Hc'.
    + apply N.eqb_eq in Hc' as ->. simpl. apply IH. simpl. lia.
    + apply IH. simpl. lia.
  - simpl. f_equal. apply IH. simpl. lia.
Qed.

Lemma universal_newlines_keeps c raw :
  c ≠ 13%N → c ∈ raw → c ∈ universal_newlines raw.
Proof.
  intros Hc.
  induction raw as [raw IH] using (induction_ltof1 _ length). unfold ltof in IH.
  destruct raw as [|c0 raw]; [done|]. simpl. intros Hin.
  destruct (c0 =? 13)%N eqn:Hc0.
  - apply N.eqb_eq in Hc0 as ->. apply elem_of_cons in Hin as [->|Hin]; [done|].
    destruct raw as [|c' raw']; [by apply elem_of_nil in Hin|].
    destruct (c' =? 10)%N eqn:Hc'.
    + apply N.eqb_eq in Hc' as ->. apply elem_of_cons in Hin as [->|Hin]; [by left|].
      right. apply IH; [simpl; lia|done].
    + right. apply IH; [simpl; lia|done].
  - apply elem_of_cons in Hin as [->|Hin]; [by left|]. right. apply IH; [simpl; lia|done].
Qed.

Lemma timeline_entry_bracket time location operation :
  91%N ∈ timeline_entry time location operation.
Proof. unfold timeline_entry. case_bool_decide; by left. Qed.

Lemma strip_is_empty_bracket s : 91%N ∈ s → strip_is_empty s = false.
Proof.
  unfold strip_is_empty. induction s as [|c s IH]; [by intros ?%elem_of_nil|].
  intros [<-|Hin]%elem_of_cons; simpl; [done|].
  rewrite IH by done. apply andb_false_r.
Qed.

Lemma update_timeline_text_Some raw time location operation :
  _update_timeline_text (Some raw) time location operation
  = raw ++ (if strip_is_empty raw then universal_newlines raw else [])
        ++ timeline_entry time location operation.
Proof.
  unfold _update_timeline_text. simpl. case_bool_decide as Hnil.
  - apply universal_newlines_nil in Hnil as ->. done.
  - by rewrite universal_newlines_spaces.
Qed.

Lemma timeline_after_entries calls file :
  91%N ∈ file →
  timeline_after (Some file) calls
  = Some (file ++ concat ((λ '(t, l, op), timeline_entry t l op) <$> calls)).
Proof.
  revert file. induction calls as [|[[t l] op] calls IH]; intros file Hin; simpl.
  - by rewrite app_nil_r.
  - unfold timeline_after in *. simpl. rewrite update_timeline_text_Some.
    rewrite (strip_is_empty_bracket file Hin). simpl. rewrite IH.
    + by rewrite <-(assoc (++)).
    + apply elem_of_app. by left.
Qed.

(** X21.  The header of the timeline is never written.  For a timeline
    file that is missing or empty the call writes the entry alone; for any
    other content it appends the entry, after a second copy of the content
    (as read) when that is white space only.  So the file made by a
    sequence of calls from no file is the sequence of their entries. *)
Theorem timeline_header_never_written time location operation :
  let entry := timeline_entry time location operation in
  _update_timeline_text None time location operation = entry ∧
  _update_timeline_text (Some []) time location operation = entry ∧
  (∀ raw,
     _update_timeline_text (Some raw) time location operation
     = raw ++ (if strip_is_empty raw then universal_newlines raw else []) ++ entry) ∧
  (∀ calls,
     timeline_after None ((time, location, operation) :: calls)
     = Some (entry ++ concat ((λ '(t, l, op), timeline_entry t l op) <$> calls))).
Proof.
  intros entry. split_and!.
  - done.
  - done.
  - intros raw. apply update_timeline_text_Some.
  - intros calls. unfold timeline_after. simpl.
    apply (timeline_after_entries calls), timeline_entry_bracket.
Qed.

(** * Undo entries go to the timeline only *)

Lemma organize_by_type_raise now src dst st st' e :
  organize_by_type now src dst st = (st', Raise e) → st' = set_fs (fs st') st.
Proof.
  unfold organize_by_type. rewrite bind_run, get_run.
  destruct (negb (Fs.path_exists src (fs st))).
  { intros [= <- _]. by rewrite set_fs_id. }
  rewrite bind_run.
  set (pre := if negb (Fs.path_exists (default src dst) (fs st))
              then fs_call (Fs.makedirs false (default src dst)) else ret tt).
  assert (only_fs pre) as Hpre.
  { unfold pre. destruct (negb _); [apply only_fs_call|apply only_fs_ret]. }
  destruct (pre st) as [st0 [[]|e0]] eqn:H0.
  2:{ intros [= <- _]. by eapply only_fs_run. }
  pose proof (only_fs_run _ _ _ _ Hpre H0) as E0.
  rewrite bind_run, get_run, bind_run.
  destruct (Fs.listdir src (fs st0)) as [names|e1]; simpl.
  2:{ by intros [= <- _]. }
  rewrite bind_run.
  destruct (organize_loop _ _ _ _ st0) as [st1 [ops|e2]] eqn:H1.
  - rewrite bind_run. unfold _record_operation. simpl. done.
  - intros [= <- _].
    pose proof (only_fs_run _ _ _ _ (only_fs_organize_loop _ _ _ _) H1) as E1.
    rewrite E1, E0. done.
Qed.

(** X22.  The history never holds an undo: when no batch of the history,
    in memory or in the file, has the type "undo", none has after a call of
    organize or of undo, whatever its outcome, nor in a new organizer over
    the same files.  What a successful undo does record is the last entry
    of the timeline; and [_record_operation] itself, were it called for an
    undo, would add to the timeline and leave the history alone. *)
Theorem history_never_holds_undo st :
  no_undo_logged st →
  (∀ now src dst, no_undo_logged (organize_by_type now src dst st).1) ∧
  (∀ now, no_undo_logged (undo_last_operation now st).1) ∧
  no_undo_logged (__init__ (fs st) (history_file st) (timeline_file st)) ∧
  (∀ now st', undo_last_operation now st = (st', Ok true) →
     type <$> last (timeline_file st') = Some "undo") ∧
  (∀ now src tgt ops,
     let st' := (_record_operation now "undo" src tgt ops st).1 in
     history st' = history st ∧ last_operation st' = last_operation st ∧
     history_file st' = history_file st ∧
     timeline_file st' = timeline_file st ++ [Batch now "undo" src tgt ops]).
Proof.
  intros [Hmem Hfile]. split_and!; [| | | |done].
  - intros now src dst.
    destruct (organize_by_type now src dst st) as [st' [v|e]] eqn:Hrun; simpl.
    + apply organize_by_type_inv in Hrun
        as (tree0 & names & tree1 & ops & _ & _ & _ & _ & _ & ->).
      split; simpl.
      * by intros b ->%list_elem_of_singleton.
      * by intros h b [= <-] ->%list_elem_of_singleton.
    + apply organize_by_type_raise in Hrun. rewrite Hrun. by split.
  - intros now.
    assert (no_undo_logged (loaded st)) as [Hmem1 Hfile1].
    { destruct (loaded_frame st) as (_ & Hhf & _). split.
      - rewrite loaded_history. destruct (history_file st) as [| |h] eqn:Hf; [done| |].
        + by intros b ?%elem_of_nil.
        + intros b Hb. by eapply Hfile.
      - by rewrite Hhf. }
    rewrite undo_last_operation_unfold.
    destruct (history (loaded st)) as [|last_op rest] eqn:Hh; [by rewrite <-Hh in Hmem1|].
    destruct (for_each _ _ _) as [st1 [[]|e]] eqn:Hreplay.
    + destruct (cleanup _ _) as [st2 [[]|e]] eqn:Hclean; simpl.
      * split; simpl; [by intros b ?%elem_of_nil|].
        by intros h b [= <-] ?%elem_of_nil.
      * pose proof (only_fs_run _ _ _ _ (only_fs_cleanup _) Hclean) as H2.
        pose proof (only_fs_run _ _ _ _ (only_fs_for_each _ _ only_fs_restore_file)
                      Hreplay) as H1.
        rewrite H2, H1. split; simpl; [by rewrite Hh|done].
    + pose proof (only_fs_run _ _ _ _ (only_fs_for_each _ _ only_fs_restore_file)
                    Hreplay) as H1.
      simpl. rewrite H1. split; simpl; [by rewrite Hh|done].
  - unfold __init__, _load_history. rewrite bind_run, get_run. simpl.
    destruct (history_file st) as [| |h] eqn:Hf; simpl.
    + split; simpl; [by intros b ?%elem_of_nil|done].
    + split; simpl; [by intros b ?%elem_of_nil|done].
    + rewrite bind_run. simpl.
      destruct (last h); simpl;
        (split; simpl; [intros b' Hb|intros h0 b' [= <-] Hb]; by eapply Hfile).
  - intros now st' Hrun. rewrite undo_last_operation_unfold in Hrun.
    destruct (history (loaded st)) as [|last_op rest]; [done|].
    destruct (for_each _ _ _) as [st1 [[]|e]]; [|done].
    destruct (cleanup _ _) as [st2 [[]|e]]; [|done].
    injection Hrun as <-. simpl. by rewrite last_snoc.
Qed.

Lemma history_never_holds_undo_example :
  no_undo_logged (undo_last_operation "t2" once_organized).1 ∧
  type <$> last (timeline_file (undo_last_operation "t2" once_organized).1)
  = Some "undo".
Proof.
  assert (no_undo_logged once_organized) as Hstart.
  { split.
    - intros b Hb. vm_compute in Hb. apply list_elem_of_singleton in Hb as ->. done.
    - intros h b Hh Hb. vm_compute in Hh. injection Hh as <-.
      apply list_elem_of_singleton in Hb as ->. done. }
  destruct (history_never_holds_undo once_organized Hstart)
    as (_ & Hundo & _ & Hlast & _).
  split; [apply Hundo|]. apply (Hlast "t2"). by vm_compute.
Defined.

(** * One pass of the cleanup is enough *)

Lemma names_filter_NoDup (P : string * node → bool) (es : list (string * node)) :
  NoDup es.*1 → NoDup (filter (λ e, P e) es).*1.
Proof.
  induction es as [|[x c] es IH]; [done|]. rewrite fmap_cons. simpl.
  intros [Hx Hnd]%NoDup_cons. rewrite filter_cons.
  destruct (P (x, c)); simpl; [|by apply IH].
  apply NoDup_cons. split; [|by apply IH].
  intros Hin. apply list_elem_of_fmap in Hin as ([y c'] & Hy & Hin).
  apply list_elem_of_filter in Hin as [_ Hin]. simpl in Hy. subst y. apply Hx. apply list_elem_of_fmap. by exists (x, c').
Qed.

Lemma wf_prune n : wf n → wf (prune n).
Proof.
  induction n as [c|es IH] using FsFacts.node_nested_ind; [done|].
  rewrite prune_Dir. intros [Hnd Hall]%wf_Dir. apply wf_Dir. split.
  - apply names_filter_NoDup. by rewrite names_prune.
  - apply Forall_forall. intros [x c] [_ Hin]%list_elem_of_filter.
    apply list_elem_of_fmap in Hin as ([y c'] & [= -> ->] & Hin).
    simpl. rewrite Forall_forall in IH, Hall.
    apply (IH _ Hin), (Hall _ Hin).
Qed.

Lemma prune_idemp n : prune (prune n) = prune n.
Proof.
  induction n as [c|es IH] using FsFacts.node_nested_ind; [done|].
  rewrite !prune_Dir. f_equal.
  induction es as [|[x c] es IHes]; [done|].
  apply Forall_cons in IH as [Hc IH]. simpl in Hc.
  simpl. rewrite filter_cons. simpl.
  destruct (is_empty_dir (prune c)) eqn:He; simpl; [by apply IHes|].
  rewrite filter_cons. simpl. rewrite Hc, He. simpl.
  f_equal. by apply IHes.
Qed.

(** X23.  The cleanup is thorough: on a well-formed target it leaves no
    empty directory anywhere below the target, those that only became empty
    when their own sub-directories were removed included (the walk is
    bottom-up); so a second cleanup changes nothing.  And it changes
    nothing outside the target. *)
Theorem cleanup_is_thorough target st n :
  Fs.node_at target (fs st) = Some n →
  wf n →
  ∃ st',
    cleanup target st = (st', Ok tt) ∧
    (∀ q, q ≠ [] → Fs.node_at (target ++ q) (fs st') ≠ Some (Dir [])) ∧
    (∀ q, ¬ target `prefix_of` q → kind_at q (fs st') = kind_at q (fs st)) ∧
    cleanup target st' = (st', Ok tt).
Proof.
  intros Hn Hwf. rewrite (cleanup_run _ _ _ Hn Hwf). eexists. split; [done|].
  simpl. split_and!.
  - intros q Hq. rewrite (FsFacts.node_at_graft _ _ _ _ _ Hn).
    by apply prune_no_empty_below.
  - intros q Hq. by apply FsFacts.kind_at_graft_frame.
  - assert (Fs.node_at target (graft target (prune n) (fs st)) = Some (prune n)) as Hn'.
    { pose proof (FsFacts.node_at_graft target [] (prune n) n (fs st) Hn) as H.
      by rewrite app_nil_r in H. }
    rewrite (cleanup_run target _ (prune n)); [|done|by apply wf_prune].
    simpl. rewrite (FsFacts.graft_graft _ _ _ _ _ Hn), prune_idemp. done.
Qed.

Lemma cleanup_is_thorough_example :
  ∃ st',
    cleanup ["t"] (organizer_of nested_fs) = (st', Ok tt) ∧
    (∀ q, q ≠ [] → Fs.node_at (["t"] ++ q) (fs st') ≠ Some (Dir [])) ∧
    (∀ q, ¬ ["t"] `prefix_of` q → kind_at q (fs st') = kind_at q nested_fs) ∧
    cleanup ["t"] st' = (st', Ok tt).
Proof.
  eapply (cleanup_is_thorough ["t"] (organizer_of nested_fs)).
  - by vm_compute.
  - simpl. repeat split; compute_done.
Defined.

(** * A target that cannot take the first file *)

Lemma makedirs_below_file (d : path) x fs :
  Fs.isfile d fs = true →
  Fs.makedirs true (d ++ [x]) fs = Raise NotADirectoryError.
Proof.
  intros Hd. unfold Fs.makedirs. rewrite rev_unit. simpl. rewrite rev_involutive.
  unfold Fs.isfile in Hd.
  destruct (Fs.node_at d fs) as [[c|]|] eqn:Hn; try done.
  unfold Fs.path_exists at 1. rewrite Hn. simpl.
  unfold Fs.mkdir_exist_ok, Fs.mkdir, Fs.path_exists, Fs.isdir.
  rewrite FsFacts.dirname_snoc, FsFacts.node_at_app, Hn. simpl. done.
Qed.

Lemma makedirs_onto_file (d : path) x fs :
  Fs.isdir d fs = true → Fs.isfile (d ++ [x]) fs = true →
  Fs.makedirs true (d ++ [x]) fs = Raise FileExistsError.
Proof.
  intros Hd Hx. unfold Fs.makedirs. rewrite rev_unit. simpl. rewrite rev_involutive.
  unfold Fs.isdir in Hd. unfold Fs.isfile in Hx.
  destruct (Fs.node_at d fs) as [[|es]|] eqn:Hn; try done.
  unfold Fs.path_exists at 1. rewrite Hn. simpl.
  unfold Fs.mkdir_exist_ok, Fs.mkdir, Fs.path_exists, Fs.isdir.
  by destruct (Fs.node_at (d ++ [x]) fs) as [[]|].
Qed.

(** X24.  When the directory has a regular file to move and the target is
    a regular file, the call fails with [NotADirectoryError]; when the
    target is a directory in which the category name of the first file is
    taken by a regular file, it fails with [FileExistsError].  In both
    cases nothing has been moved, made or recorded. *)
Theorem organize_blocked_at_first_file now src dst st names f rest :
  Fs.listdir src (fs st) = Ok names →
  filter (λ f, Fs.isfile (src ++ [f]) (fs st)) names = f :: rest →
  let tgt := default src dst in
  (Fs.isfile tgt (fs st) = true →
     organize_by_type now src dst st = (st, Raise NotADirectoryError)) ∧
  (Fs.isdir tgt (fs st) = true →
   Fs.isfile (tgt ++ [category_of f]) (fs st) = true →
     organize_by_type now src dst st = (st, Raise FileExistsError)).
Proof.
  intros Hls Hfiles tgt.
  assert (Fs.path_exists src (fs st) = true) as Hsrc.
  { unfold Fs.listdir, Fs.path_exists in *. by destruct (Fs.node_at src (fs st)). }
  assert (∀ e, Fs.path_exists tgt (fs st) = true →
               Fs.makedirs true (tgt ++ [category_of f]) (fs st) = Raise e →
               organize_by_type now src dst st = (st, Raise e)) as Hblocked.
  { intros e Htgt Hmk. unfold organize_by_type. fold tgt.
    rewrite bind_run, get_run, Hsrc. simpl. rewrite Htgt. simpl.
    rewrite bind_run, ret_run, bind_run, get_run, bind_run, Hls. simpl.
    rewrite bind_run, Hfiles. simpl. rewrite bind_run.
    by rewrite (organize_file_raise src tgt f st e Hmk). }
  split.
  - intros Htgt. apply Hblocked; [|by apply makedirs_below_file].
    unfold Fs.isfile, Fs.path_exists in *. by destruct (Fs.node_at tgt (fs st)).
  - intros Htgt Hslot. apply Hblocked; [|by apply makedirs_onto_file].
    unfold Fs.isdir, Fs.path_exists in *. by destruct (Fs.node_at tgt (fs st)).
Qed.

Lemma organize_blocked_at_first_file_example :
  organize_by_type "t1" ["home"] (Some ["home"; "a.jpg"]) (organizer_of scenario_fs)
  = (organizer_of scenario_fs, Raise NotADirectoryError).
Proof.
  apply (organize_blocked_at_first_file "t1" ["home"] (Some ["home"; "a.jpg"])
           (organizer_of scenario_fs) ["a.jpg"; "b.txt"; "c.xyz"] "a.jpg"
           ["b.txt"; "c.xyz"]); by vm_compute.
Defined.

(** * A failed organize leaves no trace in the log *)

(** X25.  A call of organize that raises changes neither the history file
    nor the history, so what undo would replay is what it was before the
    call: the moves the failed call made are in no log.  When there was
    nothing to undo before the call, undo afterwards returns [False] and
    leaves the tree as the failed call left it. *)
Theorem failed_organize_cannot_be_undone now src dst st st' e :
  organize_by_type now src dst st = (st', Raise e) →
  history_file st' = history_file st ∧
  history st' = history st ∧
  undoable st' = undoable st ∧
  (history (loaded st) = [] →
     ∀ now2, ∃ st2, undo_last_operation now2 st' = (st2, Ok false) ∧ fs st2 = fs st').
Proof.
  intros Hrun%organize_by_type_raise.
  assert (history (loaded st') = history (loaded st)) as Hh.
  { rewrite !loaded_history, Hrun. simpl. done. }
  split_and!; [by rewrite Hrun..| |].
  - by rewrite !undoable_alt, Hh.
  - intros Hnone now2. rewrite undo_last_operation_unfold, Hh, Hnone.
    destruct (loaded_frame st') as (Hfs & _). by eexists.
Qed.

Lemma failed_organize_cannot_be_undone_example :
  ∃ st2, undo_last_operation "t2" blocked_after_first = (st2, Ok false) ∧
         Fs.file_at ["home"; "images"; "a.jpg"] (fs st2) = Some "A" ∧
         Fs.file_at ["home"; "a.jpg"] (fs st2) = None.
Proof.
  destruct (failed_organize_cannot_be_undone "t1" ["home"] None blocked_state
              blocked_after_first FileExistsError) as (_ & _ & _ & Hundo);
    [by vm_compute|].
  destruct (Hundo eq_refl "t2") as (st2 & Hrun & Hfs).
  exists st2. rewrite Hfs. split_and!; [done|by vm_compute..].
Defined.

(** X26.  The timeline only grows, by one entry for each call that
    succeeds and by none otherwise: a successful organize adds the batch it
    stores in the history, an undo that returns [True] adds a batch of type
    "undo" without records, and a call that raises or returns [False] adds
    nothing. *)
Theorem timeline_append_only st :
  (∀ now src dst st' r,
     organize_by_type now src dst st = (st', r) →
     match r with
     | Ok _ => ∃ op, timeline_file st' = timeline_file st ++ [op] ∧
                     type op = "organize_by_type" ∧ history st' = [op]
     | Raise _ => timeline_file st' = timeline_file st
     end) ∧
  (∀ now st' b,
     undo_last_operation now st = (st', Ok b) →
     if b then ∃ op, timeline_file st' = timeline_file st ++ [op] ∧
                     type op = "undo" ∧ operations op = []
     else timeline_file st' = timeline_file st).
Proof.
  split.
  - intros now src dst st' [v|e] Hrun.
    + apply organize_by_type_inv in Hrun
        as (tree0 & names & tree1 & ops & _ & _ & _ & _ & _ & ->).
      by eexists.
    + apply organize_by_type_raise in Hrun. by rewrite Hrun.
  - intros now st' b Hrun. rewrite undo_last_operation_unfold in Hrun.
    destruct (loaded_frame st) as (_ & _ & Htl).
    destruct (history (loaded st)) as [|last_op rest].
    { injection Hrun as <- <-. done. }
    destruct (for_each _ _ _) as [st1 [[]|e]] eqn:Hreplay.
    + pose proof (only_fs_run _ _ _ _ (only_fs_for_each _ _ only_fs_restore_file)
                    Hreplay) as H1.
      destruct (cleanup _ _) as [st2 [[]|e]] eqn:Hclean.
      * pose proof (only_fs_run _ _ _ _ (only_fs_cleanup _) Hclean) as H2.
        injection Hrun as <- <-. exists (undo_entry now last_op).
        split_and!; [|done..]. simpl.
        rewrite H2. simpl. rewrite H1. simpl. by rewrite Htl.
      * pose proof (only_fs_run _ _ _ _ (only_fs_cleanup _) Hclean) as H2.
        injection Hrun as <- <-. rewrite H2. simpl. rewrite H1. simpl. done.
    + pose proof (only_fs_run _ _ _ _ (only_fs_for_each _ _ only_fs_restore_file)
                    Hreplay) as H1.
      injection Hrun as <- <-. rewrite H1. simpl. done.
Qed.

(** * No report is written *)

(** X27.  A successful organize makes no regular file directly in the
    target directory: a file found there afterwards was there before.  So
    the summary and the details that the closing message of [main] names
    ([organization_summary.txt], [organization_details.txt]) are not
    written by the call. *)
Theorem organize_writes_no_report now src dst st st' v x c :
  wf (fs st) →
  organize_by_type now src dst st = (st', Ok v) →
  Fs.file_at (default src dst ++ [x]) (fs st') = Some c →
  Fs.file_at (default src dst ++ [x]) (fs st) = Some c.
Proof.
  intros Hwf Hrun Hx. set (tgt := default src dst) in *.
  apply organize_by_type_inv in Hrun
    as (tree0 & names & tree1 & ops & Hsrc & Htree0 & Hls & Hloop & -> & ->).
  change (default src dst) with tgt in Htree0, Hloop. simpl in Hx.
  assert (wf tree0 ∧ (∀ q, Fs.file_at q tree0 = Fs.file_at q (fs st))) as (Hwf0 & Hfiles0).
  { destruct (Fs.path_exists tgt (fs st)) eqn:Hex.
    - by subst tree0.
    - split; [by eapply wf_makedirs|]. intros q. by eapply FsFacts.makedirs_file_at. }
  unfold Fs.listdir in Hls.
  destruct (Fs.node_at src tree0) as [[c0|es]|] eqn:Hsrcn; try done.
  injection Hls as <-.
  set (files := filter (λ f, Fs.isfile (src ++ [f]) tree0) es.*1) in *.
  destruct (organize_loop_conserves src tgt st files [] tree0 tree1 ops Hloop)
    as (new & Hnew & Hfilesnew & _).
  { apply NoDup_filter. by apply (wf_node_at _ _ _ Hwf0) in Hsrcn as [? _]%wf_Dir. }
  { intros f [Hf _]%list_elem_of_filter. apply FsFacts.isfile_kind.
    by destruct (Fs.isfile (src ++ [f]) tree0). }
  apply FsFacts.file_at_kind in Hx.
  destruct (Hfilesnew _ _ Hx) as [[Hx0 _]|(r & f & _ & _ & _ & Hdr & _ & Hdir)].
  - rewrite <-Hfiles0. by apply FsFacts.file_at_kind.
  - rewrite Hdr, FsFacts.dirname_snoc in Hdir.
    apply (f_equal length) in Hdir. rewrite length_app in Hdir. simpl in Hdir. lia.
Qed.

Lemma organize_writes_no_report_example :
  Fs.file_at ["home"; "organization_summary.txt"] (fs once_organized) = None.
Proof.
  destruct (Fs.file_at ["home"; "organization_summary.txt"] (fs once_organized))
    as [c|] eqn:Hc; [|done].
  apply (organize_writes_no_report "t1" ["home"] None (organizer_of scenario_fs)
           once_organized None "organization_summary.txt" c) in Hc.
  - by vm_compute in Hc.
  - simpl. repeat split; compute_done.
  - by vm_compute.
Defined.
